(** * hfxgas.ca: the prediction parser and the submission validators

    A shallow embedding of [parseAdjustment] and [parseRedditPost]
    (src/index.js), of [handleWebhook] with [writePrediction] (src/index.js)
    and of [BuckitMCP.post_prediction] (mcp/server.js), with the properties
    the specification states about them.

    Conventions of the embedding.
    - A JavaScript string is a list of code units; the code units modelled
      are U+0000..U+00FF, one [ascii] each.
    - A JavaScript number is a [jsnum]: NaN, the two infinities, or a finite
      binary64 value kept as the rational it is; the two zeros are one.
      [parseFloat] yields the binary64 value nearest to the decimal text
      and division yields the one nearest to the quotient ([round64]), ties
      to the even significand, Infinity from [2^1024 - 2^970] on; that
      [round64] does so is proved ([round64_nearest]).
    - Regular expressions are transcribed literally into a small syntax and
      run by a backtracking matcher with the priorities of the ECMAScript
      one (leftmost start, first alternative first, greedy repetition). *)

From Stdlib Require Import Ascii String ZArith QArith Qpower Qabs Lia Lqa Bool
  Arith List.
Import ListNotations.

Set Implicit Arguments.
Set Warnings "-register-all".
Close Scope Q_scope.
Open Scope nat_scope.

(** ** Strings *)

Module JsString.

Definition jstr := list ascii.

Definition lit (s : string) : jstr := list_ascii_of_string s.

Definition code (a : ascii) : N := N_of_ascii a.

Definition between (lo hi : N) (a : ascii) : bool :=
  ((lo <=? code a) && (code a <=? hi))%N.

(** [\d] *)
Definition isDigit (a : ascii) : bool := between 48 57 a.

(** [\w]: letters, digits and the underscore. *)
Definition isWordChar (a : ascii) : bool :=
  between 65 90 a || between 97 122 a || isDigit a || (code a =? 95)%N.

(** LineTerminator: LF and CR (U+2028 and U+2029 are outside the range). *)
Definition isLineTerminator (a : ascii) : bool :=
  ((code a =? 10) || (code a =? 13))%N.

(** WhiteSpace and LineTerminator, the set of [\s] and of
    [String.prototype.trim]: TAB, LF, VT, FF, CR, SP and NBSP. *)
Definition isSpace (a : ascii) : bool :=
  between 9 13 a || (code a =? 32)%N || (code a =? 160)%N.

(** [.] without the s flag. *)
Definition isDot (a : ascii) : bool := negb (isLineTerminator a).

Definition eqc (x : ascii) : ascii -> bool := Ascii.eqb x.

(** [String.prototype.toLowerCase] on U+0000..U+00FF: A-Z and the
    Latin-1 capitals U+00C0..U+00DE (the multiplication sign U+00D7
    apart) move up by 32. *)
Definition lowerChar (a : ascii) : ascii :=
  if between 65 90 a
     || (between 192 222 a && negb (code a =? 215)%N)
  then ascii_of_N (code a + 32) else a.

Definition toLowerCase (s : jstr) : jstr := map lowerChar s.

Fixpoint dropWhile (p : ascii -> bool) (s : jstr) : jstr :=
  match s with
  | [] => []
  | a :: t => if p a then dropWhile p t else s
  end.

Definition trimStart (s : jstr) : jstr := dropWhile isSpace s.
Definition trimEnd (s : jstr) : jstr := rev (dropWhile isSpace (rev s)).

(** [String.prototype.trim] *)
Definition trim (s : jstr) : jstr := trimEnd (trimStart s).

(** [s.slice(0, n)] for a non-negative [n]. *)
Definition slice0 (n : nat) (s : jstr) : jstr := firstn n s.

(** [s.slice(n)] for a non-negative [n]. *)
Definition sliceFrom (n : nat) (s : jstr) : jstr := skipn n s.

Fixpoint startsWith (p s : jstr) : bool :=
  match p, s with
  | [], _ => true
  | x :: p', y :: s' => Ascii.eqb x y && startsWith p' s'
  | _ :: _, [] => false
  end.

(** [s.split(sep)] for a one-unit separator; the result is never empty. *)
Fixpoint split (sep : ascii) (s : jstr) : list jstr :=
  match s with
  | [] => [[]]
  | a :: t =>
      if Ascii.eqb a sep then [] :: split sep t
      else match split sep t with
           | [] => [[a]]
           | l :: ls => (a :: l) :: ls
           end
  end.

(** [parts.join(sep)] *)
Fixpoint join (sep : jstr) (parts : list jstr) : jstr :=
  match parts with
  | [] => []
  | [p] => p
  | p :: ps => p ++ sep ++ join sep ps
  end.

(** Every unit of [s] satisfies [p]. *)
Definition all (p : ascii -> bool) (s : jstr) : Prop :=
  Forall (fun a => p a = true) s.

(** [w] occurs in [s]. *)
Definition occursIn (w s : jstr) : Prop :=
  exists pre post, s = pre ++ w ++ post.

Definition jstr_eqb (x y : jstr) : bool :=
  if list_eq_dec ascii_dec x y then true else false.

End JsString.
Import JsString.

(** ** Regular expressions *)

Module Regex.

(** The constructs the program's expressions use.  [Grp i r] is the
    capture group number [i]; [Bol] is [^] (no m flag); [Wb] is [\b]. *)
Inductive regex : Type :=
| Eps
| Cls (p : ascii -> bool)
| Seq (r1 r2 : regex)
| Alt (r1 r2 : regex)
| Star (r : regex)
| Grp (i : nat) (r : regex)
| Bol
| Wb.

(** A position in the subject: the units already passed, last first, and
    the units still ahead. *)
Definition cursor := (jstr * jstr)%type.

Definition caps := list (nat * jstr).

Definition consumed (c c' : cursor) : jstr :=
  rev (firstn (length (fst c') - length (fst c)) (fst c')).

Definition headIs (p : ascii -> bool) (s : jstr) : bool :=
  match s with
  | [] => false
  | a :: _ => p a
  end.

(** [\b]: exactly one of the two neighbours is a word character. *)
Definition atWordBoundary (c : cursor) : bool :=
  xorb (headIs isWordChar (fst c)) (headIs isWordChar (snd c)).

Definition result := (cursor * caps)%type.

(** The iterations of a greedy [*]: one more run of the body when that
    leads to a match, else the rest of the expression.  An iteration that
    consumes nothing is refused, as in ECMAScript; [n] bounds the number of
    iterations and is the length of the text ahead. *)
Fixpoint starLoop
    (body : (cursor -> caps -> option result) -> cursor -> caps -> option result)
    (k : cursor -> caps -> option result)
    (n : nat) (c : cursor) (cs : caps) {struct n} : option result :=
  match n with
  | O => k c cs
  | S n' =>
      match body (fun c1 cs1 =>
                    if length (snd c1) <? length (snd c)
                    then starLoop body k n' c1 cs1 else None) c cs with
      | Some x => Some x
      | None => k c cs
      end
  end.

(** The matcher, in continuation-passing style: [rmatch r k c cs] runs [r]
    at [c] and hands every way of matching it, in priority order, to [k]
    until [k] accepts one. *)
Fixpoint rmatch (r : regex) (k : cursor -> caps -> option result)
    (c : cursor) (cs : caps) {struct r} : option result :=
  match r with
  | Eps => k c cs
  | Cls p =>
      match snd c with
      | a :: t => if p a then k (a :: fst c, t) cs else None
      | [] => None
      end
  | Seq r1 r2 => rmatch r1 (fun c1 cs1 => rmatch r2 k c1 cs1) c cs
  | Alt r1 r2 =>
      match rmatch r1 k c cs with
      | Some x => Some x
      | None => rmatch r2 k c cs
      end
  | Star r1 => starLoop (rmatch r1) k (length (snd c)) c cs
  | Grp i r1 => rmatch r1 (fun c1 cs1 => k c1 ((i, consumed c c1) :: cs1)) c cs
  | Bol => match fst c with [] => k c cs | _ :: _ => None end
  | Wb => if atWordBoundary c then k c cs else None
  end.

Definition accept : cursor -> caps -> option result :=
  fun c cs => Some (c, cs).

(** The first start position at or after [(b, a)] where [r] matches. *)
Fixpoint search (r : regex) (b a : jstr) {struct a} : option result :=
  match rmatch r accept (b, a) [] with
  | Some x => Some x
  | None =>
      match a with
      | [] => None
      | x :: a' => search r (x :: b) a'
      end
  end.

(** [re.test(s)] and [s.match(re)] for an expression without the g flag. *)
Definition exec (r : regex) (s : jstr) : option caps :=
  option_map snd (search r [] s).

Definition test (r : regex) (s : jstr) : bool :=
  match exec r s with Some _ => true | None => false end.

(** [m[i]]; a group that took no part in the match reads as the empty
    string here (every group below lies on the mandatory path of its
    expression). *)
Fixpoint group (i : nat) (cs : caps) : jstr :=
  match cs with
  | [] => []
  | (j, s) :: cs' => if Nat.eqb i j then s else group i cs'
  end.

(** The loop [while ((m = re.exec(s)) !== null) ...] of an expression with
    the g flag: each search starts at [lastIndex], the end of the previous
    match.  The fuel bounds the number of matches. *)
Fixpoint execLoop (fuel : nat) (r : regex) (c : cursor) : list caps :=
  match fuel with
  | O => []
  | S f =>
      match search r (fst c) (snd c) with
      | None => []
      | Some (c', cs) => cs :: execLoop f r c'
      end
  end.

Definition execAll (r : regex) (s : jstr) : list caps :=
  execLoop (S (length s)) r ([], s).

(** Derived forms. *)
Definition Plus (r : regex) : regex := Seq r (Star r).
Definition Opt (r : regex) : regex := Alt r Eps.

Fixpoint Lit (s : jstr) : regex :=
  match s with
  | [] => Eps
  | a :: t => Seq (Cls (eqc a)) (Lit t)
  end.

(** A literal under the i flag; the literals of the program are lower-case
    ASCII, which a unit matches when it is the letter in either case. *)
Definition asciiLower (a : ascii) : ascii :=
  if between 65 90 a then ascii_of_N (code a + 32) else a.

Definition eqci (x : ascii) : ascii -> bool :=
  fun a => Ascii.eqb x (asciiLower a).

Fixpoint LitI (s : jstr) : regex :=
  match s with
  | [] => Eps
  | a :: t => Seq (Cls (eqci a)) (LitI t)
  end.

Definition L (s : string) : regex := Lit (lit s).
Definition LI (s : string) : regex := LitI (lit s).

(** [c'] lies [seg] further than [c] in the same subject. *)
Definition advances (c c' : cursor) (seg : jstr) : Prop :=
  fst c' = rev seg ++ fst c /\ snd c = seg ++ snd c'.

(** The matches of an expression, without the priorities: [Sem r c cs c' cs']
    when [r] can take the cursor from [c] to [c'] and the captures from
    [cs] to [cs']. *)
Inductive Sem : regex -> cursor -> caps -> cursor -> caps -> Prop :=
| SemEps c cs : Sem Eps c cs c cs
| SemCls p b a t cs : p a = true -> Sem (Cls p) (b, a :: t) cs (a :: b, t) cs
| SemSeq r1 r2 c cs c1 cs1 c2 cs2 :
    Sem r1 c cs c1 cs1 -> Sem r2 c1 cs1 c2 cs2 -> Sem (Seq r1 r2) c cs c2 cs2
| SemAltL r1 r2 c cs c1 cs1 : Sem r1 c cs c1 cs1 -> Sem (Alt r1 r2) c cs c1 cs1
| SemAltR r1 r2 c cs c1 cs1 : Sem r2 c cs c1 cs1 -> Sem (Alt r1 r2) c cs c1 cs1
| SemStarO r c cs : Sem (Star r) c cs c cs
| SemStarS r c cs c1 cs1 c2 cs2 :
    Sem r c cs c1 cs1 -> length (snd c1) < length (snd c) ->
    Sem (Star r) c1 cs1 c2 cs2 -> Sem (Star r) c cs c2 cs2
| SemGrp i r c cs c1 cs1 :
    Sem r c cs c1 cs1 -> Sem (Grp i r) c cs c1 ((i, consumed c c1) :: cs1)
| SemBol a cs : Sem Bol ([], a) cs ([], a) cs
| SemWb c cs : atWordBoundary c = true -> Sem Wb c cs c cs.

(** No match of [r] starts inside [pre], the text between the cursor
    [(b, pre ++ a0)] and [(rev pre ++ b, a0)]. *)
Definition noMatchIn (r : regex) (b pre a0 : jstr) : Prop :=
  forall p1 x p2, pre = p1 ++ x :: p2 ->
  forall d ds, ~ Sem r (rev p1 ++ b, x :: p2 ++ a0) [] d ds.

(** [Scan r c ms]: read from left to right from [c], the text holds the
    matches with captures [ms], each the leftmost one after the end of the
    one before, and no match after the last. *)
Inductive Scan (r : regex) : cursor -> list caps -> Prop :=
| ScanEnd c :
    (forall pre a0 d ds, snd c = pre ++ a0 ->
                         ~ Sem r (rev pre ++ fst c, a0) [] d ds) ->
    Scan r c []
| ScanHit c pre a0 c' cs ms :
    snd c = pre ++ a0 ->
    Sem r (rev pre ++ fst c, a0) [] c' cs ->
    noMatchIn r (fst c) pre a0 ->
    Scan r c' ms ->
    Scan r c (cs :: ms).

(** Expressions every match of which consumes at least one unit. *)
Fixpoint consuming (r : regex) : bool :=
  match r with
  | Cls _ => true
  | Seq r1 r2 => consuming r1 || consuming r2
  | Alt r1 r2 => consuming r1 && consuming r2
  | Grp _ r1 => consuming r1
  | Eps | Star _ | Bol | Wb => false
  end.

End Regex.
Import Regex.

Declare Scope regex_scope.
Delimit Scope regex_scope with re.
Infix "+++" := Seq (right associativity, at level 60) : regex_scope.
Infix "|+|" := Alt (right associativity, at level 65) : regex_scope.
Local Open Scope regex_scope.

(** ** Numbers and values *)

Module JsValue.

Inductive jsnum : Type :=
| NaN
| PosInf
| NegInf
| Fin (q : Q).

Definition isNaN (n : jsnum) : bool :=
  match n with NaN => true | _ => false end.

(** [x > y]; every comparison with NaN is false. *)
Definition num_gt (x y : jsnum) : bool :=
  match x, y with
  | NaN, _ | _, NaN => false
  | PosInf, PosInf => false
  | PosInf, _ => true
  | _, PosInf => false
  | NegInf, _ => false
  | Fin _, NegInf => true
  | Fin a, Fin b => negb (Qle_bool a b)
  end.

Definition num_neg (n : jsnum) : jsnum :=
  match n with
  | NaN => NaN
  | PosInf => NegInf
  | NegInf => PosInf
  | Fin q => Fin (- q)%Q
  end.

(** [a / b >= 2^e] for positive [a] and [b]. *)
Definition atLeastPow2 (a b e : Z) : bool :=
  if (0 <=? e)%Z then (b * 2 ^ e <=? a)%Z else (b <=? a * 2 ^ (- e))%Z.

(** The binary64 value nearest to [a / b], for positive [a] and [b].
    With [e] the exponent of [a / b] (not below -1022, where the
    subnormal values begin), the values near [a / b] are the multiples
    [m * 2^k] of [2^k] for [k = e - 52]; [m] is the quotient of [a / b] by
    [2^k] rounded to the nearest integer, to the even one at a tie.  A
    result of [2^1024] or more is Infinity. *)
Definition roundPos (a b : Z) : jsnum :=
  let e0 := (Z.log2 a - Z.log2 b)%Z in
  let e := if atLeastPow2 a b e0 then e0 else (e0 - 1)%Z in
  let k := (Z.max e (-1022) - 52)%Z in
  let num := if (0 <=? k)%Z then a else (a * 2 ^ (- k))%Z in
  let den := if (0 <=? k)%Z then (b * 2 ^ k)%Z else b in
  let m0 := (num / den)%Z in
  let r := (num mod den)%Z in
  let m := if (2 * r <? den)%Z then m0
           else if (den <? 2 * r)%Z then (m0 + 1)%Z
           else if Z.even m0 then m0 else (m0 + 1)%Z in
  if (0 <=? k)%Z then
    if (2 ^ 1024 <=? m * 2 ^ k)%Z then PosInf else Fin (inject_Z (m * 2 ^ k))
  else Fin (Qred (m # Z.to_pos (2 ^ (- k)))).

(** The Number value for a real [q]: [q] rounded to binary64, to the
    nearest value and to the even significand at a tie.  The two zeros
    are one [Fin 0]. *)
Definition round64 (q : Q) : jsnum :=
  match Qnum q with
  | Z0 => Fin 0%Q
  | Zpos a => roundPos (Zpos a) (Zpos (Qden q))
  | Zneg a => num_neg (roundPos (Zpos a) (Zpos (Qden q)))
  end.

(** Binary64, said without [round64].  [bin m k] is [m * 2^k]; a finite
    binary64 value has a significand [m] of at most 53 bits and an exponent
    [k] from -1074 to 971. *)
Definition bin (m k : Z) : Q := (inject_Z m * 2 ^ k)%Q.

Definition isBinary64 (q : Q) : Prop :=
  exists m k, (Z.abs m < 2 ^ 53)%Z /\ (-1074 <= k <= 971)%Z /\ (q == bin m k)%Q.

(** A binary64 value whose significand, in the form with the least
    exponent, is even. *)
Definition isEven64 (q : Q) : Prop :=
  exists m k,
    Z.even m = true /\ (Z.abs m < 2 ^ 53)%Z /\ (-1074 <= k <= 971)%Z
    /\ (k = (-1074)%Z \/ (2 ^ 52 <= Z.abs m)%Z)
    /\ (q == bin m k)%Q.

(** [x / d] for a finite positive divisor [d]: the quotient, rounded. *)
Definition num_div_pos (x : jsnum) (d : Q) : jsnum :=
  match x with
  | Fin a => round64 (a / d)%Q
  | other => other
  end.

Fixpoint takeWhile (p : ascii -> bool) (s : jstr) : jstr :=
  match s with
  | [] => []
  | a :: t => if p a then a :: takeWhile p t else []
  end.

Definition digitVal (a : ascii) : Z := Z.of_N (code a) - 48.

(** The value of a run of decimal digits. *)
Definition digitsVal (ds : jstr) : Z :=
  fold_left (fun acc a => 10 * acc + digitVal a)%Z ds 0%Z.

(** [m * 10^e] *)
Definition scale10 (m e : Z) : Q :=
  if (0 <=? e)%Z then inject_Z (m * 10 ^ e)
  else Qmake m (Z.to_pos (10 ^ (- e))).

(** ExponentPart of StrDecimalLiteral: [e] or [E], an optional sign and
    at least one digit; 0 when the text ahead is no exponent. *)
Definition exponentPart (s : jstr) : Z :=
  match s with
  | a :: t =>
      if eqc "e" a || eqc "E" a then
        match t with
        | sg :: t' =>
            if eqc "-" sg then
              (if headIs isDigit t' then - digitsVal (takeWhile isDigit t') else 0)%Z
            else if eqc "+" sg then
              (if headIs isDigit t' then digitsVal (takeWhile isDigit t') else 0)%Z
            else if isDigit sg then digitsVal (takeWhile isDigit t)
            else 0%Z
        | [] => 0%Z
        end
      else 0%Z
  | [] => 0%Z
  end.

(** The longest prefix that is a StrUnsignedDecimalLiteral, as a value. *)
Definition unsignedLiteral (s : jstr) : jsnum :=
  if startsWith (lit "Infinity") s then PosInf
  else
    let ip := takeWhile isDigit s in
    let r1 := dropWhile isDigit s in
    match r1 with
    | a :: r2 =>
        if eqc "." a then
          let fp := takeWhile isDigit r2 in
          let r3 := dropWhile isDigit r2 in
          match ip, fp with
          | [], [] => NaN
          | _, _ =>
              round64 (scale10 (digitsVal (ip ++ fp))
                               (exponentPart r3 - Z.of_nat (length fp)))
          end
        else
          match ip with
          | [] => NaN
          | _ => round64 (scale10 (digitsVal ip) (exponentPart r1))
          end
    | [] =>
        match ip with
        | [] => NaN
        | _ => round64 (digitsVal ip # 1)%Q
        end
    end.

(** The global [parseFloat]: leading white space is skipped, the longest
    prefix that is a StrDecimalLiteral is read, NaN when there is none. *)
Definition parseFloat (s : jstr) : jsnum :=
  match trimStart s with
  | a :: t =>
      if eqc "-" a then num_neg (unsignedLiteral t)
      else if eqc "+" a then unsignedLiteral t
      else unsignedLiteral (a :: t)
  | [] => NaN
  end.

(** A number that is not negative: NaN, positive infinity, or a finite
    value at least 0. *)
Definition notNegative (n : jsnum) : Prop :=
  match n with
  | NaN => True
  | PosInf => True
  | NegInf => False
  | Fin q => (0 <= q)%Q
  end.

(** A value as JSON.parse produces it, with [undefined] for reads of
    missing properties.  The properties of an object have distinct names. *)
Inductive jsval : Type :=
| VUndefined
| VNull
| VBool (b : bool)
| VNum (n : jsnum)
| VStr (s : jstr)
| VArr (items : list jsval)
| VObj (props : list (jstr * jsval)).

Definition S_ (s : string) : jsval := VStr (lit s).

(** ToBoolean *)
Definition truthy (v : jsval) : bool :=
  match v with
  | VUndefined | VNull => false
  | VBool b => b
  | VNum NaN => false
  | VNum (Fin q) => negb (Qeq_bool q 0%Q)
  | VNum _ => true
  | VStr s => match s with [] => false | _ :: _ => true end
  | VArr _ | VObj _ => true
  end.

(** [v ?? d] *)
Definition nullish_or (v d : jsval) : jsval :=
  match v with
  | VUndefined | VNull => d
  | _ => v
  end.

End JsValue.
Import JsValue.

(** ** The Reddit parser (src/index.js) *)

Module Parser.

Definition sp : regex := Cls isSpace.
Definition dg : regex := Cls isDigit.
Definition isDigitOrDot (a : ascii) : bool := isDigit a || eqc "." a.
Definition notPipe (a : ascii) : bool := negb (eqc "|" a).

(** [/no.?change/] *)
Definition re_nochange : regex := L "no" +++ Opt (Cls isDot) +++ L "change".

(** [/^(up|down)\s+([\d.]+)/] *)
Definition re_updown_num : regex :=
  Bol +++ Grp 1 (L "up" |+| L "down") +++ Plus sp +++ Grp 2 (Plus (Cls isDigitOrDot)).

(** [/\bup\b/] and [/\bdown\b/] *)
Definition re_up : regex := Wb +++ L "up" +++ Wb.
Definition re_down : regex := Wb +++ L "down" +++ Wb.

(** The result of [parseAdjustment]: an object with the two properties. *)
Record Adjustment : Type := { adj_direction : jsval; adj_adjustment : jsval }.

Definition parseAdjustment (adj : jstr) : Adjustment :=
  let s := toLowerCase (trim adj) in
  if test re_nochange s then
    {| adj_direction := S_ "no-change"; adj_adjustment := VNum (Fin 0%Q) |}
  else
    match exec re_updown_num s with
    | Some m =>
        {| adj_direction :=
             if jstr_eqb (group 1 m) (lit "up") then S_ "up" else S_ "down";
           adj_adjustment := VNum (parseFloat (group 2 m)) |}
    | None =>
        if test re_up s then
          {| adj_direction := S_ "up"; adj_adjustment := VNull |}
        else if test re_down s then
          {| adj_direction := S_ "down"; adj_adjustment := VNull |}
        else
          {| adj_direction := VNull; adj_adjustment := VNull |}
    end.

(** One fuel type's prediction. *)
Record FuelSlot : Type :=
  { direction : jsval; adjustment : jsval; price : jsval }.

(** [{ title, selftext }]; [selftext] may be null or missing. *)
Record Post : Type := { title : jstr; selftext : option jstr }.

(** [{ gas, diesel, notes }]; [None] is null. *)
Record Parsed : Type :=
  { gas : option FuelSlot; diesel : option FuelSlot; notes : option jstr }.

(** [/\|\s*(regular|gas(?:oline)?|diesel)\s*\|\s*([^|]+)\|\s*([\d.]+)\s*\|/gi] *)
Definition tableRowRe : regex :=
  L "|" +++ Star sp
  +++ Grp 1 (LI "regular" |+| (LI "gas" +++ Opt (LI "oline")) |+| LI "diesel")
  +++ Star sp +++ L "|" +++ Star sp
  +++ Grp 2 (Plus (Cls notPipe))
  +++ L "|" +++ Star sp
  +++ Grp 3 (Plus (Cls isDigitOrDot))
  +++ Star sp +++ L "|".

(** [priceRaw > 10 ? priceRaw / 100 : priceRaw] *)
Definition priceInDollars (priceRaw : jsnum) : jsnum :=
  if num_gt priceRaw (Fin 10%Q) then num_div_pos priceRaw 100%Q else priceRaw.

(** The slot a table row yields: [{ ...parsed, price: isNaN(p) ? null : p }]. *)
Definition rowSlot (m : caps) : FuelSlot :=
  let adjRaw := group 2 m in
  let priceRaw := parseFloat (group 3 m) in
  let p := priceInDollars priceRaw in
  let parsed := parseAdjustment adjRaw in
  {| direction := adj_direction parsed;
     adjustment := adj_adjustment parsed;
     price := if isNaN p then VNull else VNum p |}.

(** The body of the table loop on the pair [(gas, diesel)]. *)
Definition tableStep (st : option FuelSlot * option FuelSlot) (m : caps)
  : option FuelSlot * option FuelSlot :=
  let typeRaw := toLowerCase (group 1 m) in
  if jstr_eqb typeRaw (lit "diesel") then (fst st, Some (rowSlot m))
  else (Some (rowSlot m), snd st).

Definition tableStrategy (fullText : jstr) : option FuelSlot * option FuelSlot :=
  fold_left tableStep (execAll tableRowRe fullText) (None, None).

(** [/\bup\b|increas|higher|rise|raising/] *)
Definition re_upward : regex :=
  (Wb +++ L "up" +++ Wb) |+| L "increas" |+| L "higher" |+| L "rise" |+| L "raising".

(** [/\bdown\b|decreas|lower|drop|fall|reduc/] *)
Definition re_downward : regex :=
  (Wb +++ L "down" +++ Wb) |+| L "decreas" |+| L "lower" |+| L "drop"
  |+| L "fall" |+| L "reduc".

(** [/\$(\d+\.\d{2,3})/g] *)
Definition priceRe : regex :=
  L "$" +++ Grp 1 (Plus dg +++ L "." +++ dg +++ dg +++ Opt dg).

(** [/diesel/] *)
Definition re_diesel : regex := L "diesel".

Definition freeTextDirection (textLower : jstr) : jsval :=
  let d0 := VNull in
  let d1 := if test re_upward textLower then S_ "up" else d0 in
  let d2 := if test re_downward textLower then S_ "down" else d1 in
  if test re_nochange textLower then S_ "no-change" else d2.

(** [prices]: the tokens of the text, in the order of the loop. *)
Definition freeTextPrices (fullText : jstr) : list jsnum :=
  map (fun pm => parseFloat (group 1 pm)) (execAll priceRe fullText).

(** [prices.length >= 2 ? prices[1] : prices[0] ?? null] *)
Definition pickPrice (prices : list jsnum) : jsval :=
  if 2 <=? length prices then
    match nth_error prices 1 with Some p => VNum p | None => VUndefined end
  else
    nullish_or
      (match nth_error prices 0 with Some p => VNum p | None => VUndefined end)
      VNull.

Definition freeTextSlot (fullText : jstr) : FuelSlot :=
  {| direction := freeTextDirection (toLowerCase fullText);
     adjustment := VNull;
     price := pickPrice (freeTextPrices fullText) |}.

Definition freeTextStrategy (fullText : jstr)
  : option FuelSlot * option FuelSlot :=
  if test re_diesel (toLowerCase fullText)
  then (None, Some (freeTextSlot fullText))
  else (Some (freeTextSlot fullText), None).

(** [/^\|/] and [/^:-/] *)
Definition re_rowLine : regex := Bol +++ L "|".
Definition re_alignLine : regex := Bol +++ L ":-".

Definition keepLine (l : jstr) : bool :=
  negb (test re_rowLine (trim l)) && negb (test re_alignLine (trim l)).

Definition extractNotes (selftext : jstr) : option jstr :=
  let notesLines := trim (join (lit " ") (filter keepLine (split "010" selftext))) in
  if 0 <? length notesLines then Some (slice0 500 notesLines) else None.

(** [post.selftext ?? ''] and the template [`${post.title} ${selftext}`] *)
Definition selftextOf (post : Post) : jstr :=
  match selftext post with Some s => s | None => [] end.
Definition fullTextOf (post : Post) : jstr :=
  title post ++ lit " " ++ selftextOf post.

Definition parseRedditPost (post : Post) : Parsed :=
  let selftext := selftextOf post in
  let fullText := fullTextOf post in
  let '(gas0, diesel0) := tableStrategy fullText in
  let '(gas1, diesel1) :=
    match gas0, diesel0 with
    | None, None => freeTextStrategy fullText
    | _, _ => (gas0, diesel0)
    end in
  {| gas := gas1; diesel := diesel1; notes := extractNotes selftext |}.

(** A pipe-delimited row, as [tableRowRe] reads it: the three cells with
    white space around the first and the third and before the second. *)
Definition rowText (w1 ty w2 w3 adj w4 pr w5 : jstr) : jstr :=
  lit "|" ++ w1 ++ ty ++ w2 ++ lit "|" ++ w3 ++ adj
  ++ lit "|" ++ w4 ++ pr ++ w5 ++ lit "|".

Definition gasNames : list jstr := map lit ["regular"; "gas"; "gasoline"]%string.

(** A row that names regular, gas or gasoline, and a row that names
    diesel, in any case. *)
Definition namesGas (m : caps) : bool :=
  existsb (jstr_eqb (toLowerCase (group 1 m))) gasNames.
Definition namesDiesel (m : caps) : bool :=
  jstr_eqb (toLowerCase (group 1 m)) (lit "diesel").

(** The last element that satisfies [p]. *)
Definition lastWhere {A : Type} (p : A -> bool) (l : list A) : option A :=
  find p (rev l).

Definition orElse {A : Type} (o d : option A) : option A :=
  match o with Some x => Some x | None => d end.

(** The captures of a row: the three cells. *)
Definition isRowCapture (m : caps) : Prop :=
  exists ty adj pr,
    m = [(3, pr); (2, adj); (1, ty)]
    /\ In (toLowerCase ty) (gasNames ++ [lit "diesel"])
    /\ all notPipe adj /\ adj <> []
    /\ all isDigitOrDot pr /\ pr <> [].


(** An adjustment the parser may store: null, or a number that is not
    negative. *)
Definition adjustmentOk (v : jsval) : Prop :=
  v = VNull \/ exists n, v = VNum n /\ notNegative n.

(** A dollar amount as [priceRe] captures it: digits, a point, and two or
    three digits. *)
Definition isAmount (t : jstr) : Prop :=
  exists ip fp,
    t = ip ++ lit "." ++ fp
    /\ all isDigit ip /\ ip <> []
    /\ all isDigit fp /\ (length fp = 2 \/ length fp = 3).

(** The no-change pattern: the words no and change with nothing or one
    unit other than a line terminator between them, anywhere in [s]. *)
Definition hasNoChange (s : jstr) : Prop :=
  exists pre sep post,
    s = pre ++ lit "no" ++ sep ++ lit "change" ++ post
    /\ (sep = [] \/ exists x, sep = [x] /\ isDot x = true).

(** The word [w] stands alone somewhere in [s]: no word character right
    before it or right after it. *)
Definition standsAlone (w s : jstr) : Prop :=
  exists pre post,
    s = pre ++ w ++ post
    /\ headIs isWordChar (rev pre) = false
    /\ headIs isWordChar post = false.

(** [s] is the word [d], white space, and the text [tok] of digits and
    dots, which ends where [s] ends or goes on with another unit. *)
Definition wordThenToken (d tok s : jstr) : Prop :=
  exists ws rest,
    s = d ++ ws ++ tok ++ rest
    /\ all isSpace ws /\ ws <> []
    /\ all isDigitOrDot tok /\ tok <> []
    /\ headIs isDigitOrDot rest = false.







End Parser.
Import Parser.

(** ** Objects, JSON and the key-value store *)

Module Host.

Fixpoint lookup (k : jstr) (props : list (jstr * jsval)) : option jsval :=
  match props with
  | [] => None
  | (k', v) :: t => if jstr_eqb k k' then Some v else lookup k t
  end.

(** [v.name] for a [v] that is neither null nor undefined and a [name]
    that no prototype defines (all the names the program reads are such). *)
Definition getProp (v : jsval) (name : string) : jsval :=
  match v with
  | VObj props =>
      match lookup (lit name) props with Some x => x | None => VUndefined end
  | _ => VUndefined
  end.

Definition isNullish (v : jsval) : bool :=
  match v with VUndefined | VNull => true | _ => false end.

(** The default of a destructuring pattern: [{ name = d } = obj]. *)
Definition propOr (v : jsval) (name : string) (d : jsval) : jsval :=
  match getProp v name with VUndefined => d | x => x end.

(** [typeof v !== 'number' || isNaN(v)] *)
Definition notANumber (v : jsval) : bool :=
  match v with
  | VNum n => isNaN n
  | _ => true
  end.

(** [v !== undefined && (typeof v !== 'number' || isNaN(v))] *)
Definition presentNotANumber (v : jsval) : bool :=
  match v with
  | VUndefined => false
  | _ => notANumber v
  end.

(** [v === w] on the values the program compares: strings. *)
Definition isStr (s : string) (v : jsval) : bool :=
  match v with VStr x => jstr_eqb x (lit s) | _ => false end.

(** [[...].includes(v)] for an array of string literals. *)
Definition includes (l : list string) (v : jsval) : bool :=
  existsb (fun s => isStr s v) l.

(** What [JSON.stringify] leaves of a value: a number that is not finite
    becomes null, an undefined property is dropped, an undefined array
    item becomes null. *)
Fixpoint toJSON (v : jsval) : jsval :=
  match v with
  | VNum (Fin q) => VNum (Fin q)
  | VNum _ => VNull
  | VArr items =>
      VArr (map (fun x => match x with
                          | VUndefined => VNull
                          | _ => toJSON x
                          end) items)
  | VObj props =>
      VObj ((fix go (ps : list (jstr * jsval)) : list (jstr * jsval) :=
               match ps with
               | [] => []
               | (k, VUndefined) :: t => go t
               | (k, x) :: t => (k, toJSON x) :: go t
               end) props)
  | other => other
  end.

(** [parseInt(s, 10)]: leading white space, an optional sign, then the
    longest run of digits; [None] is NaN. *)
Definition parseInt10 (s : jstr) : option Z :=
  let digitsOf t :=
    match takeWhile isDigit t with
    | [] => None
    | ds => Some (digitsVal ds)
    end in
  match trimStart s with
  | a :: t =>
      if eqc "-" a then option_map Z.opp (digitsOf t)
      else if eqc "+" a then digitsOf t
      else digitsOf (a :: t)
  | [] => None
  end.

(** The two keys of the PREDICTIONS namespace the writers touch, as the
    JSON values their texts denote; [None] is a missing key. *)
Record KV : Type :=
  { latest_prediction : option jsval;
    prediction_history : option (list jsval) }.

Record Env : Type :=
  { WEBHOOK_SECRET : option jstr;
    MAX_HISTORY : option jstr }.

(** [history.unshift(p); if (history.length > maxHistory)
    history.splice(maxHistory)] *)
Definition pushHistory (maxHistory : option Z) (p : jsval)
    (history : list jsval) : list jsval :=
  let h := p :: history in
  match maxHistory with
  | None => h
  | Some n =>
      if (n <? Z.of_nat (length h))%Z then
        if (n <? 0)%Z
        then firstn (Z.to_nat (Z.max (Z.of_nat (length h) + n) 0)) h
        else firstn (Z.to_nat n) h
      else h
  end.

Definition maxHistoryOf (env : Env) : option Z :=
  parseInt10 (match MAX_HISTORY env with Some s => s | None => lit "10" end).

(** [writePrediction(prediction, env)] (src/index.js); the same statements
    stand inline at the end of [post_prediction] (mcp/server.js). *)
Definition writePrediction (prediction : jsval) (env : Env) (kv : KV) : KV :=
  let maxHistory := maxHistoryOf env in
  let history :=
    match prediction_history kv with Some h => h | None => [] end in
  {| latest_prediction := Some (toJSON prediction);
     prediction_history :=
       Some (map toJSON (pushHistory maxHistory prediction history)) |}.

Section ToString.

(** Number::toString is not modelled. *)
Variable numberToString : jsnum -> jstr.

Definition sequenceOpt (l : list (option jstr)) : option (list jstr) :=
  fold_right (fun o acc =>
                match o, acc with
                | Some s, Some ss => Some (s :: ss)
                | _, _ => None
                end) (Some []) l.

(** [String(v)]; [None] is a TypeError: an object parsed from JSON whose
    own [toString] property shadows the inherited method has no primitive
    value. *)
Fixpoint js_String (v : jsval) : option jstr :=
  match v with
  | VUndefined => Some (lit "undefined")
  | VNull => Some (lit "null")
  | VBool true => Some (lit "true")
  | VBool false => Some (lit "false")
  | VNum n => Some (numberToString n)
  | VStr s => Some s
  | VArr items =>
      option_map (join (lit ","))
        (sequenceOpt
           (map (fun x => match x with
                          | VUndefined | VNull => Some []
                          | _ => js_String x
                          end) items))
  | VObj props =>
      match lookup (lit "toString") props with
      | Some _ => None
      | None => Some (lit "[object Object]")
      end
  end.

(** [notes ? String(notes).slice(0, 500) : null]; the outer [None] is the
    TypeError of [String]. *)
Definition notesField (notes : jsval) : option jsval :=
  if truthy notes
  then option_map (fun s => VStr (slice0 500 s)) (js_String notes)
  else Some VNull.

End ToString.

End Host.
Import Host.

(** ** Early return *)

Module Flow.

(** A computation that goes on with a value, returns a rejection early, or
    throws. *)
Inductive flow (E A : Type) : Type :=
| Go (a : A)
| Reject (status : nat) (e : E)
| Raise.

Arguments Go {E A} a.
Arguments Reject {E A} status e.
Arguments Raise {E A}.

Definition bind {E A B : Type} (m : flow E A) (k : A -> flow E B) : flow E B :=
  match m with
  | Go a => k a
  | Reject st e => Reject st e
  | Raise => Raise
  end.

(** [if (b) return reject(status, e);] *)
Definition rejectIf {E : Type} (b : bool) (status : nat) (e : E) : flow E unit :=
  if b then Reject status e else Go tt.

Definition orRaise {E A : Type} (o : option A) : flow E A :=
  match o with Some a => Go a | None => Raise end.

End Flow.
Import Flow.

Notation "'do' x <- m ; k" := (bind m (fun x => k))
  (at level 10, x pattern, m at level 100, k at level 200).
Notation "m ;; k" := (bind m (fun _ : unit => k))
  (at level 200, right associativity, only parsing).

(** ** The webhook (src/index.js) *)

Module Webhook.

(** The request as the handler reads it: the query parameters of the URL,
    the [authorization] header, and what [request.json()] yields ([None]
    when it throws). *)
Record Request : Type :=
  { searchParams : list (jstr * jstr);
    authorization : option jstr;
    json : option jsval }.

(** The [error] texts of the rejections. *)
Inductive ErrorText : Type :=
| UseBearerHeader
    (** 'Use Authorization: Bearer header, not ?secret= query param' *)
| Unauthorized
    (** 'Unauthorized' *)
| InvalidJSON
    (** 'Invalid JSON' *)
| SlotDirection (name : string)
    (** `${name}.direction must be one of: up, down, no-change` *)
| SlotPrice (name : string)
    (** `${name}.price must be a number if provided` *)
| InvalidDirection
    (** 'Invalid direction — must be "up", "down", or "no-change"' *)
| InvalidFuelType
    (** 'Invalid fuel_type — must be "gas" or "diesel"' *)
| PredictedPriceNumber
    (** 'predicted_price must be a number' *)
| CurrentPriceNumber.
    (** 'current_price must be a number if provided' *)

Inductive Body : Type :=
| ErrorBody (e : ErrorText)     (** [{ error }] *)
| OkBody (prediction : jsval).  (** [{ ok: true, prediction }] *)

Inductive Outcome : Type :=
| Response (status : nat) (body : Body)
| Thrown.

Definition VALID_DIRECTIONS : list string := ["up"; "down"; "no-change"]%string.

(** [url.searchParams.has(name)] *)
Definition hasParam (name : string) (ps : list (jstr * jstr)) : bool :=
  existsb (fun kv => jstr_eqb (fst kv) (lit name)) ps.

(** The bearer token of the [authorization] header, or the empty string. *)
Definition bearerToken (req : Request) : jstr :=
  let authHeader := match authorization req with Some h => h | None => [] end in
  if startsWith (lit "Bearer ") authHeader then sliceFrom 7 authHeader else [].

(** [!token || token !== env.WEBHOOK_SECRET] *)
Definition tokenRefused (token : jstr) (env : Env) : bool :=
  match token with
  | [] => true
  | _ :: _ =>
      match WEBHOOK_SECRET env with
      | Some s => negb (jstr_eqb token s)
      | None => true
      end
  end.

Definition validateFuelSlot (slot : jsval) (name : string) : option ErrorText :=
  if negb (truthy slot) then None
  else if negb (includes VALID_DIRECTIONS (getProp slot "direction"))
  then Some (SlotDirection name)
  else
    let p := getProp slot "price" in
    if negb (isNullish p) && notANumber p then Some (SlotPrice name)
    else None.

(** [slot ? { direction: slot.direction, adjustment: slot.adjustment ?? null,
    price: slot.price ?? null } : null] *)
Definition slotOf (slot : jsval) : option FuelSlot :=
  if truthy slot then
    Some {| direction := getProp slot "direction";
            adjustment := nullish_or (getProp slot "adjustment") VNull;
            price := nullish_or (getProp slot "price") VNull |}
  else None.

(** The values the handler has in [gas], [diesel] and [notes] when every
    check has passed. *)
Record Checked : Type :=
  { gas : option FuelSlot; diesel : option FuelSlot; notes : jsval }.

Definition rejectOpt (o : option ErrorText) : flow ErrorText unit :=
  match o with
  | Some e => Reject 400 e
  | None => Go tt
  end.

(** The branch of the legacy format: [{ direction, predicted_price,
    current_price, fuel_type = 'gas' } = body]. *)
Definition checkLegacy (body notes : jsval) : flow ErrorText Checked :=
  let direction := getProp body "direction" in
  let predicted_price := getProp body "predicted_price" in
  let current_price := getProp body "current_price" in
  let fuel_type := propOr body "fuel_type" (S_ "gas") in
  rejectIf (negb (includes VALID_DIRECTIONS direction)) 400 InvalidDirection ;;
  rejectIf (negb (includes ["gas"; "diesel"]%string fuel_type))
           400 InvalidFuelType ;;
  rejectIf (notANumber predicted_price) 400 PredictedPriceNumber ;;
  rejectIf (presentNotANumber current_price) 400 CurrentPriceNumber ;;
  let slot := {| direction := direction; adjustment := VNull;
                 price := predicted_price |} in
  if isStr "diesel" fuel_type
  then Go {| gas := None; diesel := Some slot; notes := notes |}
  else Go {| gas := Some slot; diesel := None; notes := notes |}.

(** The branch of the new format, [g] and [d] being [body.gas] and
    [body.diesel]. *)
Definition checkDual (g d notes : jsval) : flow ErrorText Checked :=
  rejectOpt (validateFuelSlot g "gas") ;;
  rejectOpt (validateFuelSlot d "diesel") ;;
  Go {| gas := slotOf g; diesel := slotOf d; notes := notes |}.

(** The handler from [const { notes = null } = body] to the end of the two
    branches. *)
Definition checkBody (body : jsval) : flow ErrorText Checked :=
  if isNullish body then Raise
  else
    let notes := propOr body "notes" VNull in
    match getProp body "gas", getProp body "diesel" with
    | VUndefined, VUndefined => checkLegacy body notes
    | g, d => checkDual g d notes
    end.

(** The handler up to the construction of the prediction. *)
Definition checks (req : Request) (env : Env) : flow ErrorText Checked :=
  rejectIf (hasParam "secret" (searchParams req)) 400 UseBearerHeader ;;
  rejectIf (tokenRefused (bearerToken req) env) 401 Unauthorized ;;
  match json req with
  | None => Reject 400 InvalidJSON
  | Some body => checkBody body
  end.

Definition slotObj (s : option FuelSlot) : jsval :=
  match s with
  | None => VNull
  | Some s =>
      VObj [(lit "direction", direction s);
            (lit "adjustment", adjustment s);
            (lit "price", price s)]
  end.

Section Handler.

Variable numberToString : jsnum -> jstr.

(** The object literal [prediction]; [now] is [new Date().toISOString()]. *)
Definition predictionOf (c : Checked) (now : jstr) : flow ErrorText jsval :=
  do n <- orRaise (notesField numberToString (notes c));
  Go (VObj [(lit "gas", slotObj (gas c));
            (lit "diesel", slotObj (diesel c));
            (lit "notes", n);
            (lit "source", S_ "webhook");
            (lit "updated_at", VStr now);
            (lit "post_id", VNull)]).

Definition handleWebhook (req : Request) (env : Env) (now : jstr) (kv : KV)
  : Outcome * KV :=
  match (do c <- checks req env; predictionOf c now) with
  | Go prediction =>
      (Response 200 (OkBody (toJSON prediction)),
       writePrediction prediction env kv)
  | Reject status e => (Response status (ErrorBody e), kv)
  | Raise => (Thrown, kv)
  end.

End Handler.

(** A slot of the new format whose price is present, not null, and not a
    number (or NaN). *)
Definition slotPriceFault (slot : jsval) : bool :=
  truthy slot
  && negb (isNullish (getProp slot "price"))
  && notANumber (getProp slot "price").

(** A body one of whose price fields is not a number: in the new format
    the price of a present slot, in the legacy format [predicted_price]
    (required) or a present [current_price]. *)
Definition priceFault (body : jsval) : bool :=
  match getProp body "gas", getProp body "diesel" with
  | VUndefined, VUndefined =>
      notANumber (getProp body "predicted_price")
      || presentNotANumber (getProp body "current_price")
  | g, d => slotPriceFault g || slotPriceFault d
  end.

(** The body of the new format that says what a legacy body says: the one
    slot [fuel_type] names, with the direction and [predicted_price] as the
    price, and the notes. *)
Definition dualOf (body : jsval) : jsval :=
  let slot := VObj [(lit "direction", getProp body "direction");
                    (lit "price", getProp body "predicted_price")] in
  VObj [((if isStr "diesel" (propOr body "fuel_type" (S_ "gas"))
          then lit "diesel" else lit "gas"), slot);
        (lit "notes", propOr body "notes" VNull)].

Definition withJson (req : Request) (body : jsval) : Request :=
  {| searchParams := searchParams req;
     authorization := authorization req;
     json := Some body |}.

End Webhook.

(** ** The MCP tool (mcp/server.js) *)

Module Mcp.

(** What [post_prediction] returns or throws. *)
Inductive Outcome : Type :=
| Failed (error : string) (status : nat)  (** [{ error, status }] *)
| Posted (prediction : jsval)             (** [{ ok: true, prediction }] *)
| Thrown.

(** [!secret || secret !== this.env.WEBHOOK_SECRET] *)
Definition secretRefused (secret : jsval) (env : Env) : bool :=
  negb (truthy secret)
  || match secret, WEBHOOK_SECRET env with
     | VStr s, Some w => negb (jstr_eqb s w)
     | _, _ => true
     end.

Definition checks (args : jsval) (env : Env) : flow string unit :=
  if isNullish args then Raise
  else
    let direction := getProp args "direction" in
    let predicted_price := getProp args "predicted_price" in
    let fuel_type := propOr args "fuel_type" (S_ "gas") in
    let secret := getProp args "secret" in
    rejectIf (secretRefused secret env) 401 "Unauthorized"%string ;;
    rejectIf (negb (includes ["up"; "down"]%string direction))
             400 "Invalid direction"%string ;;
    rejectIf (negb (includes ["gas"; "diesel"]%string fuel_type))
             400 "Invalid fuel_type"%string ;;
    rejectIf (notANumber predicted_price)
             400 "predicted_price must be a number"%string ;;
    Go tt.

Section Tool.

Variable numberToString : jsnum -> jstr.

(** The object literal [prediction] of [post_prediction]. *)
Definition predictionOf (args : jsval) (now : jstr) : flow string jsval :=
  do n <- orRaise (notesField numberToString (propOr args "notes" VNull));
  Go (VObj [(lit "direction", getProp args "direction");
            (lit "currentPrice", nullish_or (getProp args "current_price") VNull);
            (lit "predictedPrice", getProp args "predicted_price");
            (lit "fuelType", propOr args "fuel_type" (S_ "gas"));
            (lit "notes", n);
            (lit "source", S_ "mcp");
            (lit "updated_at", VStr now);
            (lit "post_id", VNull)]).

Definition post_prediction (args : jsval) (env : Env) (now : jstr) (kv : KV)
  : Outcome * KV :=
  match (checks args env ;; predictionOf args now) with
  | Go prediction => (Posted prediction, writePrediction prediction env kv)
  | Reject status e => (Failed e status, kv)
  | Raise => (Thrown, kv)
  end.

End Tool.

End Mcp.

(** ** Inputs of the examples *)

Module Examples.

(** The examples turn no number into text. *)
Definition noNumberText : jsnum -> jstr := fun _ => [].

Definition testEnv : Env :=
  {| WEBHOOK_SECRET := Some (lit "test-secret"); MAX_HISTORY := Some (lit "10") |}.

Definition emptyKV : KV :=
  {| latest_prediction := None; prediction_history := None |}.

Definition someTime : jstr := lit "2024-11-14T17:30:00.000Z".

Definition bearer (token : string) (body : jsval) : Webhook.Request :=
  {| Webhook.searchParams := [];
     Webhook.authorization := Some (lit "Bearer " ++ lit token);
     Webhook.json := Some body |}.

(** [POST /webhook?secret=test-secret] without an [authorization] header. *)
Definition querySecretRequest : Webhook.Request :=
  {| Webhook.searchParams := [(lit "secret", lit "test-secret")];
     Webhook.authorization := None;
     Webhook.json := Some (VObj [(lit "direction", S_ "sideways")]) |}.

(** A number of a body that binary64 holds exactly, and the number a
    decimal numeral of a body stands for. *)
Definition num (q : Q) : jsval := VNum (Fin q).
Definition numeral (q : Q) : jsval := VNum (round64 q).

(** [{ "direction": "sideways", "predicted_price": 1.5 }] *)
Definition sidewaysLegacy : jsval :=
  VObj [(lit "direction", S_ "sideways"); (lit "predicted_price", num (15 # 10))].

(** [{ "gas": { "direction": "sideways", "price": 1.5 } }] *)
Definition sidewaysGas : jsval :=
  VObj [(lit "gas", VObj [(lit "direction", S_ "sideways");
                          (lit "price", num (15 # 10))])].

(** [{ "diesel": { "direction": "bad", "price": 1.5 } }] *)
Definition badDiesel : jsval :=
  VObj [(lit "diesel", VObj [(lit "direction", S_ "bad");
                             (lit "price", num (15 # 10))])].

(** [{ "direction": "up", "predicted_price": 1e999 }], which JSON.parse
    reads as Infinity. *)
Definition infinitePrice : jsval :=
  VObj [(lit "direction", S_ "up"); (lit "predicted_price", VNum PosInf)].

(** [{ "gas": { "direction": "up", "price": "lots" } }] *)
Definition textPrice : jsval :=
  VObj [(lit "gas", VObj [(lit "direction", S_ "up"); (lit "price", S_ "lots")])].

(** [{ "gas": { "direction": "up", "adjustment": -5, "price": 1.5 } }] *)
Definition negativeAdjustment : jsval :=
  VObj [(lit "gas", VObj [(lit "direction", S_ "up");
                          (lit "adjustment", num (- 5 # 1));
                          (lit "price", num (15 # 10))])].

(** [{ "direction": "no-change", "predicted_price": 1.5 }] *)
Definition noChangeLegacy : jsval :=
  VObj [(lit "direction", S_ "no-change"); (lit "predicted_price", num (15 # 10))].

(** [{ "direction": "up", "predicted_price": 1.72, "fuel_type": "diesel",
    "notes": "Fill up." }] *)
Definition upDieselLegacy : jsval :=
  VObj [(lit "direction", S_ "up"); (lit "predicted_price", numeral (172 # 100));
        (lit "fuel_type", S_ "diesel"); (lit "notes", S_ "Fill up.")].

(** The arguments of the tool: a legacy body and the secret. *)
Definition withSecret (secret : string) (body : jsval) : jsval :=
  match body with
  | VObj props => VObj (props ++ [(lit "secret", S_ secret)])
  | other => other
  end.




Definition noChangePost : Post :=
  {| title := lit "Gas prices no change this week"; selftext := Some [] |}.

End Examples.
Import Examples.

(** ** Escaping (src/index.js) *)

Module Html.

(** [s.replace(/c/g, rep)] for a pattern of one unit [c] and a replacement
    text without a dollar sign: every [c] becomes [rep]. *)
Definition replaceAll (c : ascii) (rep : jstr) (s : jstr) : jstr :=
  flat_map (fun a => if eqc c a then rep else [a]) s.

(** The double quote and the apostrophe. *)
Definition quot : ascii := ascii_of_N 34.
Definition apos : ascii := ascii_of_N 39.

Definition escapeHtml (str : jsval) : jstr :=
  match str with
  | VStr s =>
      replaceAll apos (lit "&#039;")
        (replaceAll quot (lit "&quot;")
           (replaceAll ">" (lit "&gt;")
              (replaceAll "<" (lit "&lt;")
                 (replaceAll "&" (lit "&amp;") s))))
  | _ => []
  end.

(** The five units the function rewrites, and the four of them that are
    markup by themselves. *)
Definition isSpecial (a : ascii) : bool :=
  eqc "&" a || eqc "<" a || eqc ">" a || eqc quot a || eqc apos a.
Definition isMarkup (a : ascii) : bool :=
  eqc "<" a || eqc ">" a || eqc quot a || eqc apos a.

(** The entity of a unit, or the unit itself. *)
Definition escapeUnit (a : ascii) : jstr :=
  if eqc "&" a then lit "&amp;"
  else if eqc "<" a then lit "&lt;"
  else if eqc ">" a then lit "&gt;"
  else if eqc quot a then lit "&quot;"
  else if eqc apos a then lit "&#039;"
  else [a].

(** What follows the ampersand in the five entities. *)
Definition entityTails : list jstr :=
  map lit ["amp;"; "lt;"; "gt;"; "quot;"; "#039;"]%string.

End Html.

(** ** Seasons (src/index.js) *)

Module Clock.

Inductive Season : Type := winter | spring | summer | fall.

(** A comparison of a number that may be NaN ([None]): false on NaN. *)
Definition holds (p : Z -> bool) (n : option Z) : bool :=
  match n with Some z => p z | None => false end.

(** The date is given by what [date.getUTCMonth()] yields: 0 to 11, or NaN
    for an invalid date. *)
Definition getSeason (getUTCMonth : option Z) : Season :=
  let month := option_map (fun m => m + 1)%Z getUTCMonth in
  if holds (fun m => 12 <=? m)%Z month || holds (fun m => m <=? 2)%Z month
  then winter
  else if holds (fun m => 3 <=? m)%Z month && holds (fun m => m <=? 5)%Z month
  then spring
  else if holds (fun m => 6 <=? m)%Z month && holds (fun m => m <=? 8)%Z month
  then summer
  else fall.

End Clock.

(** ** The image prompt (src/index.js) *)

Module Prompt.
Import Clock.

Definition weatherContexts (season : Season) : jstr :=
  match season with
  | winter => lit "Halifax winter blizzard, heavy snowfall, pothole season, Canadian drivers scraping windshields"
  | spring => lit "Halifax spring thaw, potholes everywhere, mud season, April showers"
  | summer => lit "Halifax summer road trip, beach vibes, lobster season, sunny Maritime highway"
  | fall => lit "Halifax fall foliage, East Coast rain and wind, pre-winter anxiety, foggy Nova Scotia"
  end.

(** [communityContext.slice(0, 20).map((t) => t.slice(0, 60).trim()).join('; ')] *)
Definition topics (communityContext : list jstr) : jstr :=
  join (lit "; ") (map (fun t => trim (slice0 60 t)) (firstn 20 communityContext)).

(** [communityContext] is an array of strings; [date] is given by its
    [getUTCMonth()]. *)
Definition buildImagePrompt (direction : jsval) (postId : jstr)
    (communityContext : list jstr) (date : option Z) : jstr :=
  let directionLabel :=
    if isStr "up" direction then lit "going UP" else lit "going DOWN" in
  let mood :=
    if isStr "up" direction
    then lit "suffering, despair, Canadians crying at the pump"
    else lit "celebration, relief, Canadians cheering" in
  let contextStr :=
    if 0 <? length communityContext
    then lit "This week in Halifax and Nova Scotia: " ++ topics communityContext
    else weatherContexts (getSeason date) in
  lit "Halifax Nova Scotia gas prices " ++ directionLabel ++ lit " this week. "
  ++ contextStr ++ lit ". "
  ++ mood ++ lit ". Funny editorial cartoon meme, work-safe, vibrant flat design colours, "
  ++ lit "bold text space at top, Canadian humour, no text in image. "
  ++ lit "Seed context: " ++ slice0 8 postId ++ lit ".".

End Prompt.

(** ** The Reddit scraper (src/index.js) *)

Module Reddit.

(** A post of a listing: the two properties the parser reads and the ones
    the scraper and the cron job read, with the types Reddit gives them. *)
Record Submission : Type :=
  { post : Post;
    id : jstr;
    author : jstr;
    created_utc : jsnum;
    permalink : jstr }.

(** What the fetch of a listing comes to: [fetch] or [res.json()] throws,
    the response is not ok, or the body has the children [data.children]
    (none when the body has no such array). *)
Inductive Fetched (A : Type) : Type :=
| Threw
| NotOk (status : nat)
| Listing (children : list A).

Arguments Threw {A}.
Arguments NotOk {A} status.
Arguments Listing {A} children.

(** [/gas|gasoline|diesel|fuel|price|interrupter/i] *)
Definition fuelKeywords : regex :=
  LI "gas" |+| LI "gasoline" |+| LI "diesel" |+| LI "fuel" |+| LI "price"
  |+| LI "interrupter".

(** [Date.now() / 1000 - 7 * 86400]: the quotient and the difference are
    rounded to binary64; [now] is an integer time value. *)
Definition sevenDaysAgo (now : Z) : jsnum :=
  match round64 (inject_Z now / 1000)%Q with
  | Fin s => round64 (s - 604800)%Q
  | other => other
  end.

(** The predicate of the [find]. *)
Definition isFuelPost (REDDIT_AUTHOR : jstr) (now : Z) (p : Submission) : bool :=
  jstr_eqb (toLowerCase (author p)) (toLowerCase REDDIT_AUTHOR)
  && test fuelKeywords (title (post p))
  && num_gt (created_utc p) (sevenDaysAgo now).

(** The outer [None] is an exception; the inner one is null. *)
Definition fetchBuckitPost (res : Fetched Submission) (REDDIT_AUTHOR : jstr)
    (now : Z) : option (option Submission) :=
  match res with
  | Threw => None
  | NotOk _ => Some None
  | Listing children => Some (find (isFuelPost REDDIT_AUTHOR now) children)
  end.

(** The words of [fuelKeywords]; the word gasoline adds nothing to gas. *)
Definition keywords : list jstr :=
  map lit ["gas"; "diesel"; "fuel"; "price"; "interrupter"]%string.

(** A post the scraper looks for: by the author, whatever the case of the
    letters; with one of the words in the title, in any case; and younger
    than seven days. *)
Definition qualifies (REDDIT_AUTHOR : jstr) (now : Z) (p : Submission) : Prop :=
  toLowerCase (author p) = toLowerCase REDDIT_AUTHOR
  /\ (exists w, In w keywords /\ occursIn w (map asciiLower (title (post p))))
  /\ num_gt (created_utc p) (sevenDaysAgo now) = true.

(** [filter(Boolean)] on strings. *)
Definition nonEmpty (s : jstr) : bool :=
  match s with [] => false | _ :: _ => true end.

(** The titles of one subreddit's listing: none when the fetch fails. *)
Definition titlesOf (r : Fetched jstr) : list jstr :=
  match r with
  | Listing titles => filter nonEmpty titles
  | _ => []
  end.

(** The two fetches are those of r/halifax and r/novascotia. *)
Definition fetchCommunityContext (halifax novascotia : Fetched jstr) : list jstr :=
  flat_map titlesOf [halifax; novascotia].

End Reddit.

(** ** The cron job (src/index.js) *)

Module Cron.
Import Reddit.

(** An object of the IMAGES bucket. *)
Record Image : Type :=
  { bytes : jstr;
    contentType : jstr;
    postId : jstr;
    imageDirection : jsval;
    generatedAt : jstr }.

(** The PREDICTIONS namespace with its four keys, and the IMAGES bucket:
    its puts, newest first. *)
Record Store : Type :=
  { kv : KV;
    latest_image_key : option jstr;
    last_processed_post_id : option jstr;
    IMAGES : list (jstr * Image) }.

(** [raw ? JSON.parse(raw) : []] for the text under [prediction_history]. *)
Definition historyOf (kv : KV) : list jsval :=
  match prediction_history kv with Some h => h | None => [] end.

(** [env.IMAGES.get(key)]: the newest object under the key. *)
Definition bucketGet (key : jstr) (images : list (jstr * Image)) : option Image :=
  option_map snd (find (fun o => jstr_eqb (fst o) key) images).

Record Config : Type :=
  { env : Env;
    REDDIT_AUTHOR : jstr;
    SITE_URL : option jstr }.

(** What a run of the job gets from outside: the three listings, the
    clock ([Date.now()] in the scraper, the month of [new Date()] in the
    prompt, and [new Date().toISOString()] for the image and for the
    prediction), and the image model.  [ai prompt] is the image decoded
    from base64, [None] when [env.AI.run] throws or yields no image or
    when decoding throws. *)
Record World : Type :=
  { listing : Fetched Submission;
    top_halifax : Fetched jstr;
    top_novascotia : Fetched jstr;
    now : Z;
    month : Z;
    imageTime : jstr;
    updated_at : jstr;
    ai : jstr -> option jstr }.

Definition generateAndStoreImage (w : World) (postId : jstr) (direction : jsval)
    (communityContext : list jstr) (images : list (jstr * Image))
  : option jstr * list (jstr * Image) :=
  let prompt :=
    Prompt.buildImagePrompt direction postId communityContext (Some (month w)) in
  let r2Key := lit "images/" ++ postId ++ lit ".png" in
  match ai w prompt with
  | None => (None, images)
  | Some imageBytes =>
      (Some r2Key,
       (r2Key, {| bytes := imageBytes;
                  contentType := lit "image/png";
                  postId := postId;
                  imageDirection := direction;
                  generatedAt := imageTime w |}) :: images)
  end.

(** [slot?.direction] *)
Definition directionOf (slot : option FuelSlot) : jsval :=
  match slot with Some s => direction s | None => VUndefined end.

(** [imageDirection === 'up' || imageDirection === 'down' ? imageDirection : null]
    for [parsed.gas?.direction ?? parsed.diesel?.direction] *)
Definition actionableDirection (parsed : Parsed) : jsval :=
  let imageDirection :=
    nullish_or (directionOf (gas parsed)) (directionOf (diesel parsed)) in
  if isStr "up" imageDirection || isStr "down" imageDirection
  then imageDirection else VNull.

Definition notesObj (n : option jstr) : jsval :=
  match n with Some s => VStr s | None => VNull end.

(** The object literal [prediction]. *)
Definition predictionOf (w : World) (p : Submission) (parsed : Parsed) : jsval :=
  VObj [(lit "gas", Webhook.slotObj (gas parsed));
        (lit "diesel", Webhook.slotObj (diesel parsed));
        (lit "notes", notesObj (notes parsed));
        (lit "source", S_ "reddit");
        (lit "post_id", VStr (id p));
        (lit "post_url", VStr (lit "https://www.reddit.com" ++ permalink p));
        (lit "reddit_title", VStr (title (post p)));
        (lit "updated_at", VStr (updated_at w))].

(** [prediction.image_key = imageKey] *)
Definition withImageKey (prediction : jsval) (imageKey : jstr) : jsval :=
  match prediction with
  | VObj props => VObj (props ++ [(lit "image_key", VStr imageKey)])
  | other => other
  end.

(** The job from [parseRedditPost] on, for a post that was not processed
    before. *)
Definition process (w : World) (cfg : Config) (p : Submission) (st : Store)
  : Store :=
  let communityContext :=
    fetchCommunityContext (top_halifax w) (top_novascotia w) in
  let parsed := parseRedditPost (post p) in
  let prediction := predictionOf w p parsed in
  let actionable := actionableDirection parsed in
  let '(imageKey, images) :=
    if truthy actionable
    then generateAndStoreImage w (id p) actionable communityContext (IMAGES st)
    else (None, IMAGES st) in
  let prediction :=
    match imageKey with
    | Some k => withImageKey prediction k
    | None => prediction
    end in
  {| kv := writePrediction prediction (env cfg) (kv st);
     latest_image_key :=
       match imageKey with Some k => Some k | None => latest_image_key st end;
     last_processed_post_id := Some (id p);
     IMAGES := images |}.

(** [lastId === post.id] *)
Definition alreadyProcessed (st : Store) (p : Submission) : bool :=
  match last_processed_post_id st with
  | Some lastId => jstr_eqb lastId (id p)
  | None => false
  end.

Definition scheduled (w : World) (cfg : Config) (st : Store) : Store :=
  match fetchBuckitPost (listing w) (REDDIT_AUTHOR cfg) (now w) with
  | None => st
  | Some None => st
  | Some (Some p) =>
      if alreadyProcessed st p then st else process w cfg p st
  end.

End Cron.

(** ** The read tools and the scan trigger (mcp/server.js) *)

Module McpTools.
Import Cron.

(** [raw ? JSON.parse(raw) : null] *)
Definition get_latest_prediction (st : Store) : jsval :=
  match latest_prediction (kv st) with Some v => v | None => VNull end.

(** [Math.min(x, y)] *)
Definition num_min (x y : jsnum) : jsnum :=
  match x, y with
  | NaN, _ | _, NaN => NaN
  | NegInf, _ | _, NegInf => NegInf
  | PosInf, other | other, PosInf => other
  | Fin a, Fin b => if Qle_bool a b then Fin a else Fin b
  end.

(** The end of [array.slice(0, end)] for an array of [len] items: [end] is
    truncated to an integer, NaN counting as 0; a negative one counts from
    the end of the array. *)
Definition sliceEnd (len : nat) (e : jsnum) : nat :=
  match e with
  | NaN => 0
  | NegInf => 0
  | PosInf => len
  | Fin q =>
      let k := Z.quot (Qnum q) (Zpos (Qden q)) in
      if (k <? 0)%Z then Z.to_nat (Z.max (Z.of_nat len + k) 0)
      else Nat.min (Z.to_nat k) len
  end.

(** [limit] is a number, or missing ([None]), which the default 10
    replaces. *)
Definition get_prediction_history (limit : option jsnum) (st : Store)
  : list jsval :=
  let limit := match limit with Some l => l | None => Fin 10%Q end in
  let history := historyOf (kv st) in
  firstn (sliceEnd (length history) (num_min limit (Fin 10%Q))) history.

Definition textOrNull (s : option jstr) : jsval :=
  match s with Some x => VStr x | None => VNull end.

Definition get_status (st : Store) : jsval :=
  let pred := get_latest_prediction st in
  VObj [(lit "ok", VBool true);
        (lit "last_updated", nullish_or (getProp pred "updated_at") VNull);
        (lit "last_post_id", textOrNull (last_processed_post_id st));
        (lit "latest_image_key", textOrNull (latest_image_key st));
        (lit "has_prediction",
         VBool (match pred with VNull => false | _ => true end))].

Inductive ScanOutcome : Type :=
| ScanFailed (error : string) (status : nat)  (** [{ error, status }] *)
| ScanDone (message : string)                 (** [{ ok: true, message }] *)
| ScanThrown.

Definition trigger_reddit_scan (args : jsval) (w : World) (cfg : Config)
    (st : Store) : ScanOutcome * Store :=
  if isNullish args then (ScanThrown, st)
  else if Mcp.secretRefused (getProp args "secret") (env cfg)
  then (ScanFailed "Unauthorized" 401, st)
  else (ScanDone "Reddit scan triggered", scheduled w cfg st).

End McpTools.

(** ** Responses, security headers and routes (src/index.js) *)

Module Http.
Import Cron.

(** The body of a response: a text, the JSON text of a value, the JSON
    text of a body of the webhook, or the bytes of a bucket object. *)
Inductive Payload : Type :=
| Text (s : jstr)
| JsonText (v : jsval)
| WebhookJson (b : Webhook.Body)
| Bytes (b : jstr).

(** A header list, the names in lower case.  Only the lines of one name
    among themselves have an order that can be observed. *)
Definition Headers := list (jstr * jstr).

Definition headerName (name : jstr) : jstr := map asciiLower name.

(** [headers.get(name)] *)
Definition headerGet (name : jstr) (hs : Headers) : option jstr :=
  option_map snd (find (fun h => jstr_eqb (fst h) (headerName name)) hs).

(** [headers.set(name, value)] *)
Definition headerSet (name value : jstr) (hs : Headers) : Headers :=
  filter (fun h => negb (jstr_eqb (fst h) (headerName name))) hs
  ++ [(headerName name, value)].

(** The lines of the name [name]. *)
Definition entries (name : jstr) (hs : Headers) : Headers :=
  filter (fun h => jstr_eqb (fst h) (headerName name)) hs.

Record Response : Type :=
  { status : nat;
    statusText : jstr;
    headers : Headers;
    body : Payload }.

(** [new Response(body, { status, headers })] for a string [body]: when the
    headers name no content type, the body brings its own. *)
Definition newResponse (body : Payload) (status : nat) (headers : Headers)
  : Response :=
  {| status := status;
     statusText := [];
     headers :=
       match headerGet (lit "content-type") headers with
       | Some _ => headers
       | None => headers ++ [(lit "content-type", lit "text/plain;charset=UTF-8")]
       end;
     body := body |}.

Definition contentSecurityPolicy : jstr :=
  join (lit "; ")
    (map lit ["default-src 'self'";
              "script-src 'self' 'unsafe-inline' https://cdn.jsdelivr.net";
              "style-src 'self' 'unsafe-inline'";
              "img-src 'self' data:";
              "connect-src 'self'";
              "frame-ancestors 'none'";
              "object-src 'none'";
              "base-uri 'self'"]%string).

(** The five headers in the order of the calls of [headers.set]. *)
Definition securityHeaders : list (jstr * jstr) :=
  [(lit "X-Content-Type-Options", lit "nosniff");
   (lit "X-Frame-Options", lit "DENY");
   (lit "Referrer-Policy", lit "strict-origin-when-cross-origin");
   (lit "Permissions-Policy",
    lit "geolocation=(), microphone=(), camera=(), payment=()");
   (lit "Content-Security-Policy", contentSecurityPolicy)].

Definition withSecurityHeaders (response : Response) : Response :=
  {| status := status response;
     statusText := statusText response;
     headers :=
       fold_left (fun hs h => headerSet (fst h) (snd h) hs)
                 securityHeaders (headers response);
     body := body response |}.

Definition jsonType : Headers := [(lit "content-type", lit "application/json")].

Definition handleApiLatest (st : Store) : Response :=
  match latest_prediction (kv st) with
  | None => newResponse (JsonText VNull) 200 jsonType
  | Some raw =>
      newResponse (JsonText raw) 200
        [(lit "content-type", lit "application/json");
         (lit "cache-control", lit "no-store")]
  end.

Definition handleImage (key : jstr) (st : Store) : Response :=
  match bucketGet (lit "images/" ++ key) (IMAGES st) with
  | None => newResponse (Text (lit "Not Found")) 404 []
  | Some obj =>
      {| status := 200;
         statusText := [];
         headers := [(lit "content-type", lit "image/png");
                     (lit "cache-control",
                      lit "public, max-age=31536000, immutable")];
         body := Bytes (bytes obj) |}
  end.

(** [env.SITE_URL ?? 'https://hfxgas.ca'] *)
Definition siteUrlOf (cfg : Config) : jstr :=
  match SITE_URL cfg with Some u => u | None => lit "https://hfxgas.ca" end.

Definition nl : jstr := ["010"%char].

Definition handleRobots (cfg : Config) : Response :=
  newResponse
    (Text (lit "User-agent: *" ++ nl ++ lit "Allow: /" ++ nl ++ nl
           ++ lit "Sitemap: " ++ siteUrlOf cfg ++ lit "/sitemap.xml" ++ nl))
    200 [(lit "content-type", lit "text/plain; charset=utf-8")].

(** [[a-zA-Z0-9_-]] *)
Definition isKeyChar (a : ascii) : bool :=
  between 97 122 a || between 65 90 a || isDigit a || eqc "_" a || eqc "-" a.

(** [/^\/images\/([a-zA-Z0-9_-]+\.png)$/] up to the [$] *)
Definition imageRe : regex :=
  Bol +++ L "/images/" +++ Grp 1 (Plus (Cls isKeyChar) +++ L ".png").

(** The [$] that ends an expression: the match is accepted only where
    the text ends. *)
Definition atEnd : cursor -> caps -> option result :=
  fun c cs => match snd c with [] => Some (c, cs) | _ :: _ => None end.

(** [pathname.match(re)] for [re] of the form [/^...$/]: the [^] confines
    the match to the start of the text, where the search begins. *)
Definition matchWhole (r : regex) (s : jstr) : option caps :=
  option_map snd (rmatch r atEnd ([], s) []).

Record HttpRequest : Type :=
  { pathname : jstr;
    method : jstr;
    request : Webhook.Request }.

(** The handler a request is routed to. *)
Inductive Route : Type :=
| RootPage
| ApiLatest
| ImageFile (key : jstr)
| Robots
| Sitemap
| LlmsTxt
| WebhookPost
| NotFound.

(** The chain of conditions of [fetch]. *)
Definition route (pathname method : jstr) : Route :=
  let GET := jstr_eqb method (lit "GET") in
  if jstr_eqb pathname (lit "/") && GET then RootPage
  else if jstr_eqb pathname (lit "/api/latest") && GET then ApiLatest
  else
    match (if GET then matchWhole imageRe pathname else None) with
    | Some imageMatch => ImageFile (group 1 imageMatch)
    | None =>
        if jstr_eqb pathname (lit "/robots.txt") && GET then Robots
        else if jstr_eqb pathname (lit "/sitemap.xml") && GET then Sitemap
        else if jstr_eqb pathname (lit "/llms.txt") && GET then LlmsTxt
        else if jstr_eqb pathname (lit "/webhook") && jstr_eqb method (lit "POST")
        then WebhookPost
        else NotFound
    end.

(** What [fetch] comes to: a response, or an exception. *)
Inductive Outcome : Type :=
| Sent (r : Response)
| Failed.

Definition webhookResponse (o : Webhook.Outcome) : Outcome :=
  match o with
  | Webhook.Response status b => Sent (newResponse (WebhookJson b) status jsonType)
  | Webhook.Thrown => Failed
  end.

Definition notFound : Response :=
  newResponse (JsonText (VObj [(lit "error", S_ "Not Found")])) 404 jsonType.

Section Fetch.

Variable numberToString : jsnum -> jstr.

(** The three pages whose texts are not modelled: [handleRoot],
    [handleSitemap] and [handleLlmsTxt] read the configuration and the
    store and write nothing. *)
Variable handleRoot handleSitemap handleLlmsTxt : Config -> Store -> Outcome.

(** [iso] is [new Date().toISOString()]. *)
Definition fetch (r : HttpRequest) (cfg : Config) (iso : jstr) (st : Store)
  : Outcome * Store :=
  let '(response, st') :=
    match route (pathname r) (method r) with
    | RootPage => (handleRoot cfg st, st)
    | ApiLatest => (Sent (handleApiLatest st), st)
    | ImageFile key => (Sent (handleImage key st), st)
    | Robots => (Sent (handleRobots cfg), st)
    | Sitemap => (handleSitemap cfg st, st)
    | LlmsTxt => (handleLlmsTxt cfg st, st)
    | WebhookPost =>
        let '(o, kv') :=
          Webhook.handleWebhook numberToString (request r) (env cfg) iso (kv st) in
        (webhookResponse o,
         {| kv := kv';
            latest_image_key := latest_image_key st;
            last_processed_post_id := last_processed_post_id st;
            IMAGES := IMAGES st |})
    | NotFound => (Sent notFound, st)
    end in
  (match response with
   | Sent resp => Sent (withSecurityHeaders resp)
   | Failed => Failed
   end, st').

End Fetch.

End Http.

(** ** More inputs of the examples *)

Module Scenes.

(** A post with the id [i], by [a], titled [t], created at [c]. *)
Definition submission (i a t : string) (body : option jstr) (c : Z)
  : Reddit.Submission :=
  {| Reddit.post := {| title := lit t; selftext := body |};
     Reddit.id := lit i;
     Reddit.author := lit a;
     Reddit.created_utc := Fin (inject_Z c);
     Reddit.permalink := lit "/r/halifax/comments/" ++ lit i |}.

(** A listing at the time 1000000000 (in milliseconds): a post by someone
    else, one without a keyword, one that is too old, and two that the
    scraper looks for. *)
Definition someListing : list Reddit.Submission :=
  [submission "a1" "someone" "Gas is up" None 1000000;
   submission "a2" "Buckit" "Weekend plans" None 1000000;
   submission "a3" "buckit" "Gas prices" None 100;
   submission "a4" "BUCKIT" "PRICE INTERRUPTER" None 1000000;
   submission "a5" "buckit" "Gas prices" None 1000000].

(** A post with a table, the newest of its listing. *)
Definition tablePost : Reddit.Submission :=
  submission "t3abc" "buckit" "Gas prices this week"
    (Some (lit "|Regular| UP 3.6 |162.1|")) 1000000.

(** A run at the time 1000000000, in January: the listing has the post,
    one of the two community listings fails, and the model yields an
    image. *)
Definition someWorld : Cron.World :=
  {| Cron.listing := Reddit.Listing [tablePost];
     Cron.top_halifax := Reddit.Listing [lit "Bridge traffic"; []];
     Cron.top_novascotia := Reddit.NotOk 429;
     Cron.now := 1000000000;
     Cron.month := 0;
     Cron.imageTime := someTime;
     Cron.updated_at := someTime;
     Cron.ai := fun _ => Some (lit "PNG") |}.

Definition someConfig : Cron.Config :=
  {| Cron.env := testEnv;
     Cron.REDDIT_AUTHOR := lit "Buckit";
     Cron.SITE_URL := None |}.

Definition emptyStore : Cron.Store :=
  {| Cron.kv := emptyKV;
     Cron.latest_image_key := None;
     Cron.last_processed_post_id := None;
     Cron.IMAGES := [] |}.

(** A request with the method [m] for the path [p]. *)
Definition requestFor (m p : string) (r : Webhook.Request) : Http.HttpRequest :=
  {| Http.pathname := lit p; Http.method := lit m; Http.request := r |}.

(** Pages that are one text. *)
Definition somePage : Cron.Config -> Cron.Store -> Http.Outcome :=
  fun _ _ => Http.Sent (Http.newResponse (Http.Text (lit "page")) 200 []).

End Scenes.

(** * Properties *)

Arguments Ascii.eqb : simpl never.
Arguments eqc : simpl never.
Arguments eqci : simpl never.

(** ** Strings *)

Lemma jstr_eqb_eq (x y : jstr) : jstr_eqb x y = true <-> x = y.
Proof.
  unfold jstr_eqb. destruct (list_eq_dec ascii_dec x y); split;
    intros; congruence.
Qed.

Lemma jstr_eqb_refl (x : jstr) : jstr_eqb x x = true.
Proof. apply jstr_eqb_eq. reflexivity. Qed.

(** ** The matcher *)

Module RegexFacts.

Ltac case_scrutinee H :=
  match type of H with
  | match ?m with _ => _ end = _ => destruct m eqn:E
  end.

Lemma advances_refl c : advances c c [].
Proof. split; reflexivity. Qed.

Lemma advances_trans c c1 c2 s1 s2 :
  advances c c1 s1 -> advances c1 c2 s2 -> advances c c2 (s1 ++ s2).
Proof.
  intros [H1 H2] [H3 H4]. split.
  - rewrite H3, H1, rev_app_distr, app_assoc. reflexivity.
  - rewrite H2, H4, app_assoc. reflexivity.
Qed.

Lemma advances_consumed c c' seg : advances c c' seg -> consumed c c' = seg.
Proof.
  intros [H _]. unfold consumed. rewrite H, length_app, length_rev.
  replace (length seg + length (fst c) - length (fst c)) with (length (rev seg))
    by (rewrite length_rev; lia).
  rewrite firstn_app, Nat.sub_diag, firstn_all. simpl.
  rewrite app_nil_r. apply rev_involutive.
Qed.

Lemma advances_length c c' seg :
  advances c c' seg -> length (snd c) = length seg + length (snd c').
Proof. intros [_ H]. rewrite H. apply length_app. Qed.

(** Every match moves the cursor forward inside the subject. *)
Lemma Sem_advances r c cs c' cs' :
  Sem r c cs c' cs' -> exists seg, advances c c' seg.
Proof.
  induction 1.
  - exists []. apply advances_refl.
  - exists [a]. split; reflexivity.
  - destruct IHSem1 as [s1 H1], IHSem2 as [s2 H2].
    exists (s1 ++ s2). eapply advances_trans; eauto.
  - assumption.
  - assumption.
  - exists []. apply advances_refl.
  - destruct IHSem1 as [s1 H1'], IHSem2 as [s2 H2'].
    exists (s1 ++ s2). eapply advances_trans; eauto.
  - assumption.
  - exists []. apply advances_refl.
  - exists []. apply advances_refl.
Qed.

Lemma Sem_consuming r c cs c' cs' :
  Sem r c cs c' cs' -> consuming r = true -> length (snd c') < length (snd c).
Proof.
  induction 1; simpl; intros Hc; try discriminate.
  - lia.
  - apply Sem_advances in H as [s1 A1]. apply Sem_advances in H0 as [s2 A2].
    apply advances_length in A1 as L1. apply advances_length in A2 as L2.
    apply orb_true_iff in Hc as [Hc | Hc].
    + specialize (IHSem1 Hc). lia.
    + specialize (IHSem2 Hc). lia.
  - apply andb_true_iff in Hc as [Hc _]. auto.
  - apply andb_true_iff in Hc as [_ Hc]. auto.
  - auto.
Qed.

(** The matcher finds only matches: what it returns, the continuation
    returned at the end of a match. *)
Lemma rmatch_sound r : forall k c cs x,
  rmatch r k c cs = Some x ->
  exists c' cs', Sem r c cs c' cs' /\ k c' cs' = Some x.
Proof.
  induction r; simpl; intros k c cs x H.
  - exists c, cs. split; [constructor | assumption].
  - destruct c as [b a]. simpl in H. destruct a as [|a t]; [discriminate|].
    destruct (p a) eqn:Hp; [|discriminate].
    exists (a :: b, t), cs. split; [constructor; assumption | assumption].
  - apply IHr1 in H as (c1 & cs1 & S1 & H).
    apply IHr2 in H as (c2 & cs2 & S2 & H).
    exists c2, cs2. split; [econstructor; eauto | assumption].
  - destruct (rmatch r1 k c cs) eqn:E1.
    + apply IHr1 in E1 as (c1 & cs1 & S1 & E1). inversion H; subst.
      exists c1, cs1. split; [apply SemAltL; assumption | assumption].
    + apply IHr2 in H as (c1 & cs1 & S1 & H).
      exists c1, cs1. split; [apply SemAltR; assumption | assumption].
  - remember (length (snd c)) as n eqn:Hn in H. clear Hn. revert c cs H.
    induction n as [|n IHn]; intros c cs H; simpl in H.
    + exists c, cs. split; [constructor | assumption].
    + match type of H with
      | match ?m with _ => _ end = _ => destruct m eqn:E
      end.
      * inversion H; subst. apply IHr in E as (c1 & cs1 & S1 & E).
        destruct (length (snd c1) <? length (snd c)) eqn:Hlt; [|discriminate].
        apply Nat.ltb_lt in Hlt.
        apply IHn in E as (c2 & cs2 & S2 & E).
        exists c2, cs2. split; [eapply SemStarS; eauto | assumption].
      * exists c, cs. split; [constructor | assumption].
  - apply IHr in H as (c1 & cs1 & S1 & H).
    exists c1, ((i, consumed c c1) :: cs1). split; [constructor; assumption | assumption].
  - destruct c as [b a]. simpl in H. destruct b; [|discriminate].
    exists ([], a), cs. split; [constructor | assumption].
  - destruct (atWordBoundary c) eqn:Hb; [|discriminate].
    exists c, cs. split; [constructor; assumption | assumption].
Qed.

(** The matcher misses no match: when the continuation accepts the end of
    some match, the matcher returns a result. *)
Lemma star_complete r
  (IH : forall c cs c' cs', Sem r c cs c' cs' ->
        forall k, k c' cs' <> None -> rmatch r k c cs <> None) :
  forall c cs c' cs', Sem (Star r) c cs c' cs' ->
  forall k n, length (snd c) <= n -> k c' cs' <> None ->
  starLoop (rmatch r) k n c cs <> None.
Proof.
  intros c cs c' cs' H. remember (Star r) as sr eqn:Hsr.
  induction H; inversion Hsr; subst; intros k n Hn Hk.
  - destruct n; simpl; [assumption|].
    match goal with
    | |- match ?m with _ => _ end <> _ => destruct m
    end; [discriminate | assumption].
  - destruct n as [|n]; [lia|]. simpl.
    match goal with
    | |- match ?m with _ => _ end <> _ => destruct m eqn:E
    end; [discriminate|].
    exfalso. revert E. apply (IH _ _ _ _ H).
    apply Nat.ltb_lt in H0 as Hlt. rewrite Hlt.
    apply IHSem2; [reflexivity | lia | assumption].
Qed.

Lemma rmatch_complete r : forall c cs c' cs',
  Sem r c cs c' cs' ->
  forall k, k c' cs' <> None -> rmatch r k c cs <> None.
Proof.
  induction r; intros c cs c' cs' H k Hk.
  - inversion H; subst. assumption.
  - inversion H; subst. simpl.
    match goal with Hp : p _ = true |- _ => rewrite Hp end. assumption.
  - inversion H; subst. simpl.
    match goal with
    | S1 : Sem r1 _ _ _ _, S2 : Sem r2 _ _ _ _ |- _ =>
        apply (IHr1 _ _ _ _ S1); apply (IHr2 _ _ _ _ S2); assumption
    end.
  - simpl. destruct (rmatch r1 k c cs) eqn:E; [discriminate|].
    inversion H; subst.
    + exfalso. revert E. eapply IHr1; eauto.
    + eapply IHr2; eauto.
  - simpl. eapply star_complete; eauto.
  - inversion H; subst. simpl.
    match goal with S1 : Sem r _ _ _ _ |- _ => apply (IHr _ _ _ _ S1) end.
    assumption.
  - inversion H; subst. assumption.
  - inversion H; subst. simpl.
    match goal with Hb : atWordBoundary _ = true |- _ => rewrite Hb end.
    assumption.
Qed.

(** A search returns a match that starts at or after the cursor, and no
    match starts before it. *)
Lemma search_sound r : forall a b c' cs',
  search r b a = Some (c', cs') ->
  exists pre a0, a = pre ++ a0 /\ Sem r (rev pre ++ b, a0) [] c' cs'
    /\ noMatchIn r b pre a0.
Proof.
  unfold noMatchIn.
  induction a as [|x a IH]; intros b c' cs' H; simpl in H.
  - case_scrutinee H; [|discriminate].
    inversion H; subst. apply rmatch_sound in E as (c1 & cs1 & S1 & E).
    inversion E; subst. exists [], []. repeat split; auto.
    intros p1 y p2 Hp. destruct p1; discriminate.
  - case_scrutinee H.
    + inversion H; subst. apply rmatch_sound in E as (c1 & cs1 & S1 & E).
      inversion E; subst. exists [], (x :: a). repeat split; auto.
      intros p1 y p2 Hp. destruct p1; discriminate.
    + apply IH in H as (pre & a0 & Ha & S1 & Hno). subst a.
      exists (x :: pre), a0. simpl. rewrite <- app_assoc. simpl.
      repeat split; auto.
      intros p1 y p2 Hp d ds Hd. destruct p1 as [|z p1]; simpl in *.
      * inversion Hp; subst. revert E.
        apply (rmatch_complete Hd). discriminate.
      * inversion Hp; subst. apply (Hno p1 y p2 eq_refl d ds).
        rewrite <- app_assoc in Hd. exact Hd.
Qed.

Lemma search_none r : forall a b,
  search r b a = None ->
  forall pre a0, a = pre ++ a0 ->
  forall d ds, ~ Sem r (rev pre ++ b, a0) [] d ds.
Proof.
  induction a as [|x a IH]; intros b H pre a0 Ha d ds Hd; simpl in H.
  - destruct pre; [|discriminate]. simpl in *. subst a0.
    case_scrutinee H; [discriminate|].
    revert E. apply (rmatch_complete Hd). discriminate.
  - case_scrutinee H; [discriminate|].
    destruct pre as [|y pre]; simpl in *.
    + subst a0. revert E. apply (rmatch_complete Hd). discriminate.
    + inversion Ha; subst. apply (IH (y :: b) H pre a0 eq_refl d ds).
      rewrite <- app_assoc in Hd. exact Hd.
Qed.

Lemma search_some r : forall a b pre a0 d ds,
  a = pre ++ a0 -> Sem r (rev pre ++ b, a0) [] d ds -> search r b a <> None.
Proof.
  intros a b pre a0 d ds Ha Hd E. eapply search_none; eauto.
Qed.

(** [test] decides whether the expression matches somewhere. *)
Lemma test_spec r s :
  test r s = true <->
  exists pre a0 d ds, s = pre ++ a0 /\ Sem r (rev pre, a0) [] d ds.
Proof.
  unfold test, exec. split.
  - destruct (search r [] s) as [[c' cs']|] eqn:E; [|discriminate]. intros _.
    apply search_sound in E as (pre & a0 & Ha & S1 & _).
    rewrite app_nil_r in S1. eauto 6.
  - intros (pre & a0 & d & ds & Ha & Hd).
    destruct (search r [] s) eqn:E; [reflexivity|].
    exfalso. eapply search_none; eauto. rewrite app_nil_r. eassumption.
Qed.

(** The loop of a consuming expression stops by itself: fuel beyond the
    length of the text ahead changes nothing. *)
Lemma execLoop_fuel r (Hr : consuming r = true) : forall n m (c : cursor),
  length (snd c) < n -> length (snd c) < m -> execLoop n r c = execLoop m r c.
Proof.
  induction n as [|n IH]; intros m c Hn Hm; [lia|].
  destruct m as [|m]; [lia|]. simpl.
  destruct (search r (fst c) (snd c)) as [[c' cs']|] eqn:E; [|reflexivity].
  f_equal. apply search_sound in E as (pre & a0 & Ha & S1 & _).
  apply Sem_consuming in S1; [|assumption]. simpl in S1.
  assert (length (snd c) = length pre + length a0)
    by (rewrite Ha; apply length_app).
  apply IH; lia.
Qed.

Lemma execLoop_Scan r (Hr : consuming r = true) : forall n (c : cursor),
  length (snd c) < n -> Scan r c (execLoop n r c).
Proof.
  induction n as [|n IH]; intros c Hn; [lia|]. simpl.
  destruct (search r (fst c) (snd c)) as [[c' cs']|] eqn:E.
  - apply search_sound in E as (pre & a0 & Ha & S1 & Hno).
    eapply ScanHit; eauto. apply IH.
    apply Sem_consuming in S1; [|assumption]. simpl in S1.
    assert (length (snd c) = length pre + length a0)
      by (rewrite Ha; apply length_app).
    lia.
  - apply ScanEnd. intros pre a0 d ds Ha. eapply search_none; eauto.
Qed.

Lemma execAll_Scan r s : consuming r = true -> Scan r ([], s) (execAll r s).
Proof. intros Hr. apply execLoop_Scan; [assumption | simpl; lia]. Qed.

Lemma execLoop_Forall r (P : caps -> Prop)
  (HP : forall c c' cs', Sem r c [] c' cs' -> P cs') :
  forall n (c : cursor), Forall P (execLoop n r c).
Proof.
  induction n as [|n IH]; intros c; simpl; [constructor|].
  destruct (search r (fst c) (snd c)) as [[c' cs']|] eqn:E; [|constructor].
  constructor; [|apply IH].
  apply search_sound in E as (pre & a0 & _ & S1 & _). eapply HP; eauto.
Qed.

Ltac inv H := inversion H; subst; clear H.

Lemma advances_step b y t c' seg :
  advances (y :: b, t) c' seg -> advances (b, y :: t) c' (y :: seg).
Proof.
  intros [H1 H2]. simpl in *. split; simpl.
  - rewrite H1, <- app_assoc. reflexivity.
  - rewrite H2. reflexivity.
Qed.

Lemma Sem_Lit w : forall c cs c' cs',
  Sem (Lit w) c cs c' cs' -> cs' = cs /\ advances c c' w.
Proof.
  induction w as [|a w IH]; simpl; intros c cs c' cs' H.
  - inv H. split; [reflexivity | apply advances_refl].
  - inv H. match goal with S1 : Sem (Cls _) _ _ _ _ |- _ => inv S1 end.
    match goal with S2 : Sem (Lit w) _ _ _ _ |- _ => apply IH in S2 as [-> A] end.
    match goal with Hq : eqc _ _ = true |- _ => apply Ascii.eqb_eq in Hq; subst end.
    split; [reflexivity|]. apply advances_step. exact A.
Qed.

Lemma Sem_Lit_intro w : forall b a cs, Sem (Lit w) (b, w ++ a) cs (rev w ++ b, a) cs.
Proof.
  induction w as [|x w IH]; simpl; intros b a cs.
  - constructor.
  - econstructor.
    + constructor. apply Ascii.eqb_refl.
    + rewrite <- app_assoc. simpl. apply IH.
Qed.

Lemma Sem_LitI w : forall c cs c' cs',
  Sem (LitI w) c cs c' cs' ->
  cs' = cs /\ exists seg, advances c c' seg /\ map asciiLower seg = w.
Proof.
  induction w as [|a w IH]; simpl; intros c cs c' cs' H.
  - inv H. split; [reflexivity|]. exists []. split; [apply advances_refl | reflexivity].
  - inv H. match goal with S1 : Sem (Cls _) _ _ _ _ |- _ => inv S1 end.
    match goal with
    | S2 : Sem (LitI w) _ _ _ _ |- _ => apply IH in S2 as [-> (seg & A & Hm)]
    end.
    split; [reflexivity|].
    match goal with
    | Hq : eqci _ ?y = true |- _ => apply Ascii.eqb_eq in Hq; exists (y :: seg)
    end.
    split.
    + apply advances_step. exact A.
    + simpl. congruence.
Qed.

Lemma Sem_StarCls p c cs c' cs' :
  Sem (Star (Cls p)) c cs c' cs' ->
  cs' = cs /\ exists seg, advances c c' seg /\ all p seg.
Proof.
  intros H. remember (Star (Cls p)) as r eqn:Hr.
  induction H; inversion Hr; subst.
  - split; [reflexivity|]. exists []. split; [apply advances_refl | constructor].
  - destruct (IHSem2 eq_refl) as [-> (seg & A & Hall)]. inv H.
    split; [reflexivity|]. exists (a :: seg). split.
    + apply advances_step. exact A.
    + constructor; assumption.
Qed.

Lemma Sem_PlusCls p c cs c' cs' :
  Sem (Plus (Cls p)) c cs c' cs' ->
  cs' = cs /\ exists seg, advances c c' seg /\ all p seg /\ seg <> [].
Proof.
  intros H. unfold Plus in H. inv H.
  match goal with S1 : Sem (Cls _) _ _ _ _ |- _ => inv S1 end.
  match goal with
  | S2 : Sem (Star _) _ _ _ _ |- _ =>
      apply Sem_StarCls in S2 as [-> (seg & A & Hall)]
  end.
  split; [reflexivity|]. exists (a :: seg). split; [|split].
  - apply advances_step. exact A.
  - constructor; assumption.
  - discriminate.
Qed.

Lemma Sem_StarCls_intro p seg : forall b a cs,
  all p seg -> Sem (Star (Cls p)) (b, seg ++ a) cs (rev seg ++ b, a) cs.
Proof.
  induction seg as [|x seg IH]; simpl; intros b a cs Hall.
  - constructor.
  - inv Hall. eapply SemStarS.
    + constructor. eassumption.
    + simpl. lia.
    + rewrite <- app_assoc. simpl. apply IH. assumption.
Qed.

Lemma Sem_PlusCls_intro p seg b a cs :
  all p seg -> seg <> [] ->
  Sem (Plus (Cls p)) (b, seg ++ a) cs (rev seg ++ b, a) cs.
Proof.
  intros Hall Hne. destruct seg as [|x seg]; [congruence|]. inv Hall.
  unfold Plus. simpl. econstructor.
  - constructor. eassumption.
  - rewrite <- app_assoc. simpl. apply Sem_StarCls_intro. assumption.
Qed.

(** On the letters a-z in either case [toLowerCase] is the ASCII folding
    of the i flag. *)
Lemma lowerChar_asciiLower a :
  between 97 122 (asciiLower a) = true -> lowerChar a = asciiLower a.
Proof.
  destruct a as [[] [] [] [] [] [] [] []]; vm_compute; intros; congruence.
Qed.

Lemma toLowerCase_asciiLower seg :
  all (between 97 122) (map asciiLower seg) ->
  toLowerCase seg = map asciiLower seg.
Proof.
  induction seg as [|a seg IH]; simpl; intros H; [reflexivity|].
  inv H. rewrite lowerChar_asciiLower by assumption. f_equal. auto.
Qed.

(** Priorities: a literal at the cursor is passed; a greedy run of a class
    takes all of the run when the rest of the expression accepts that. *)
Lemma rmatch_Lit w : forall k b a cs,
  rmatch (Lit w) k (b, w ++ a) cs = k (rev w ++ b, a) cs.
Proof.
  induction w as [|x w IH]; intros k b a cs; simpl; [reflexivity|].
  unfold eqc. rewrite Ascii.eqb_refl, IH, <- app_assoc. reflexivity.
Qed.

Lemma rmatch_Lit_other x w y a k b cs :
  x <> y -> rmatch (Lit (x :: w)) k (b, y :: a) cs = None.
Proof.
  intros Hne. simpl. unfold eqc.
  destruct (Ascii.eqb x y) eqn:E; [|reflexivity].
  apply Ascii.eqb_eq in E. congruence.
Qed.

Lemma starLoop_S body k n c cs :
  starLoop body k (S n) c cs
  = match body (fun c1 cs1 =>
                  if length (snd c1) <? length (snd c)
                  then starLoop body k n c1 cs1 else None) c cs with
    | Some x => Some x
    | None => k c cs
    end.
Proof. reflexivity. Qed.

Lemma rmatch_Cls_cons p k b a t cs :
  rmatch (Cls p) k (b, a :: t) cs = if p a then k (a :: b, t) cs else None.
Proof. reflexivity. Qed.

Lemma rmatch_Cls_nil p k b cs : rmatch (Cls p) k (b, []) cs = None.
Proof. reflexivity. Qed.

Lemma starLoop_greedy p k run : forall n b rest cs x,
  all p run -> headIs p rest = false -> length run <= n ->
  k (rev run ++ b, rest) cs = Some x ->
  starLoop (rmatch (Cls p)) k n (b, run ++ rest) cs = Some x.
Proof.
  induction run as [|a run IH]; intros n b rest cs x Hall Hrest Hn Hk.
  - simpl in Hk. simpl app. destruct n; [exact Hk|]. rewrite starLoop_S.
    destruct rest as [|y rest].
    + rewrite rmatch_Cls_nil. exact Hk.
    + rewrite rmatch_Cls_cons. simpl in Hrest. rewrite Hrest. exact Hk.
  - inv Hall. destruct n as [|n]; [simpl in Hn; lia|].
    rewrite starLoop_S. simpl app. rewrite rmatch_Cls_cons.
    match goal with Ha : p a = true |- _ => rewrite Ha end.
    cbn [snd].
    replace (length (run ++ rest) <? length (a :: run ++ rest)) with true
      by (symmetry; apply Nat.ltb_lt; simpl; lia).
    rewrite (IH n (a :: b) rest cs x); auto.
    + simpl in Hn. lia.
    + simpl in Hk. rewrite <- app_assoc in Hk. exact Hk.
Qed.

Lemma rmatch_PlusCls_greedy p k run b rest cs x :
  all p run -> run <> [] -> headIs p rest = false ->
  k (rev run ++ b, rest) cs = Some x ->
  rmatch (Plus (Cls p)) k (b, run ++ rest) cs = Some x.
Proof.
  intros Hall Hne Hrest Hk. destruct run as [|a run]; [congruence|]. inv Hall.
  unfold Plus. change (rmatch (Seq (Cls p) (Star (Cls p))) k (b, (a :: run) ++ rest) cs)
    with (rmatch (Cls p) (fun c1 cs1 => rmatch (Star (Cls p)) k c1 cs1)
            (b, a :: run ++ rest) cs).
  rewrite rmatch_Cls_cons.
  match goal with Ha : p a = true |- _ => rewrite Ha end.
  change (rmatch (Star (Cls p)) k (a :: b, run ++ rest) cs)
    with (starLoop (rmatch (Cls p)) k (length (run ++ rest)) (a :: b, run ++ rest) cs).
  apply starLoop_greedy; auto.
  - rewrite length_app. lia.
  - simpl in Hk. rewrite <- app_assoc in Hk. exact Hk.
Qed.

Lemma rmatch_Seq r1 r2 k c cs :
  rmatch (Seq r1 r2) k c cs = rmatch r1 (fun c1 cs1 => rmatch r2 k c1 cs1) c cs.
Proof. reflexivity. Qed.

Lemma rmatch_Alt r1 r2 k c cs :
  rmatch (Alt r1 r2) k c cs
  = match rmatch r1 k c cs with
    | Some x => Some x
    | None => rmatch r2 k c cs
    end.
Proof. reflexivity. Qed.

Lemma rmatch_Grp i r k c cs :
  rmatch (Grp i r) k c cs
  = rmatch r (fun c1 cs1 => k c1 ((i, consumed c c1) :: cs1)) c cs.
Proof. reflexivity. Qed.

Lemma rmatch_Bol_start k a cs : rmatch Bol k ([], a) cs = k ([], a) cs.
Proof. reflexivity. Qed.

Lemma search_here r b a x :
  rmatch r accept (b, a) [] = Some x -> search r b a = Some x.
Proof. intros H. destruct a; simpl; rewrite H; reflexivity. Qed.

Lemma consumed_run b run rest : consumed (b, run ++ rest) (rev run ++ b, rest) = run.
Proof. apply advances_consumed. split; reflexivity. Qed.

End RegexFacts.

(** ** Numbers *)

Module NumberFacts.
Import RegexFacts.

Lemma dropWhile_all p q s : all p s -> all p (dropWhile q s).
Proof.
  induction s as [|a s IH]; simpl; intros H; [constructor|].
  destruct (q a); [inv H; auto | assumption].
Qed.

Lemma takeWhile_all p s : all p (takeWhile p s).
Proof.
  induction s as [|a s IH]; simpl; [constructor|].
  destruct (p a) eqn:E; constructor; assumption.
Qed.

Lemma dropWhile_head p s : headIs p (dropWhile p s) = false.
Proof.
  induction s as [|a s IH]; simpl; [reflexivity|].
  destruct (p a) eqn:E; [assumption | simpl; assumption].
Qed.

Lemma takeWhile_app p run rest :
  all p run -> headIs p rest = false -> takeWhile p (run ++ rest) = run.
Proof.
  induction run as [|a run IH]; simpl; intros Hall Hrest.
  - destruct rest as [|b rest]; simpl in *; [reflexivity|]. rewrite Hrest. reflexivity.
  - inv Hall. match goal with Ha : p a = true |- _ => rewrite Ha end.
    f_equal. auto.
Qed.

Lemma dropWhile_app p run rest :
  all p run -> headIs p rest = false -> dropWhile p (run ++ rest) = rest.
Proof.
  induction run as [|a run IH]; simpl; intros Hall Hrest.
  - destruct rest as [|b rest]; simpl in *; [reflexivity|]. rewrite Hrest. reflexivity.
  - inv Hall. match goal with Ha : p a = true |- _ => rewrite Ha end. auto.
Qed.

Lemma digitVal_nonneg a : isDigit a = true -> (0 <= digitVal a)%Z.
Proof.
  unfold isDigit, between, digitVal. intros H.
  apply andb_true_iff in H as [H _]. apply N.leb_le in H. lia.
Qed.

Lemma digitsVal_nonneg ds : all isDigit ds -> (0 <= digitsVal ds)%Z.
Proof.
  unfold digitsVal. intros H.
  assert (G : forall acc, (0 <= acc)%Z ->
            (0 <= fold_left (fun acc a => 10 * acc + digitVal a) ds acc)%Z).
  { induction H as [|a ds Ha _ IH]; cbn [fold_left]; intros acc Hacc;
      [assumption|].
    apply IH. apply digitVal_nonneg in Ha. lia. }
  apply G. lia.
Qed.

Lemma scale10_nonneg m e : (0 <= m)%Z -> (0 <= scale10 m e)%Q.
Proof.
  intros Hm. unfold scale10. destruct (0 <=? e)%Z eqn:E.
  - apply Z.leb_le in E. unfold Qle. simpl.
    assert (0 <= 10 ^ e)%Z by (apply Z.pow_nonneg; lia). nia.
  - unfold Qle. simpl. lia.
Qed.

(** Rounding keeps the sign and always yields a number. *)
Lemma roundPos_sign a b :
  (0 < a)%Z -> (0 < b)%Z ->
  notNegative (roundPos a b) /\ roundPos a b <> NaN.
Proof.
  intros Ha Hb. unfold roundPos.
  set (e := if atLeastPow2 a b (Z.log2 a - Z.log2 b)
            then (Z.log2 a - Z.log2 b)%Z else (Z.log2 a - Z.log2 b - 1)%Z).
  set (k := (Z.max e (-1022) - 52)%Z).
  set (num := if (0 <=? k)%Z then a else (a * 2 ^ (- k))%Z).
  set (den := if (0 <=? k)%Z then (b * 2 ^ k)%Z else b).
  assert (Hnum : (0 <= num)%Z).
  { unfold num. destruct (0 <=? k)%Z; [lia|].
    apply Z.mul_nonneg_nonneg; [lia | apply Z.pow_nonneg; lia]. }
  assert (Hden : (0 < den)%Z).
  { unfold den. destruct (Z.leb_spec 0 k); [|lia].
    apply Z.mul_pos_pos; [lia | apply Z.pow_pos_nonneg; lia]. }
  set (m0 := (num / den)%Z).
  assert (Hm0 : (0 <= m0)%Z) by (apply Z.div_pos; assumption).
  set (m := if (2 * (num mod den) <? den)%Z then m0
            else if (den <? 2 * (num mod den))%Z then (m0 + 1)%Z
            else if Z.even m0 then m0 else (m0 + 1)%Z).
  assert (Hm : (0 <= m)%Z).
  { unfold m. destruct (2 * (num mod den) <? den)%Z; [lia|].
    destruct (den <? 2 * (num mod den))%Z; [lia|].
    destruct (Z.even m0); lia. }
  clearbody m. clear Hm0 Hnum Hden. clearbody num den k.
  destruct (Z.leb_spec 0 k) as [Hk|Hk].
  - destruct (Z.pow 2 1024 <=? m * 2 ^ k)%Z; split;
      try exact I; try discriminate.
    cbn [notNegative]. unfold Qle, inject_Z. cbn [Qnum Qden].
    assert (0 <= 2 ^ k)%Z by (apply Z.pow_nonneg; lia). nia.
  - split; [|discriminate]. cbn [notNegative]. rewrite Qred_correct.
    unfold Qle. cbn [Qnum Qden]. lia.
Qed.

Lemma round64_sign q :
  (0 <= q)%Q -> notNegative (round64 q) /\ round64 q <> NaN.
Proof.
  intros Hq. unfold round64. unfold Qle in Hq. cbn [Qnum Qden] in Hq.
  destruct (Qnum q) as [|a|a] eqn:E.
  - split; [cbn; apply Qle_refl | discriminate].
  - apply roundPos_sign; lia.
  - lia.
Qed.

Lemma round64_number q : round64 q <> NaN.
Proof.
  unfold round64. destruct (Qnum q) as [|a|a]; [discriminate| |].
  - apply roundPos_sign; lia.
  - destruct (roundPos_sign (a := Z.pos a) (b := Z.pos (Qden q))) as [_ H];
      [lia | lia |].
    destruct (roundPos (Z.pos a) (Z.pos (Qden q))); try discriminate.
    congruence.
Qed.

(** Values of [round64]: 0.1 and 162.1 are not binary64 values and move
    to the nearest one; an integer below [2^53] stays; [2^53 + 1] and
    [2^53 + 3] lie halfway and go to the even significand. *)
Example round64_values :
  round64 (1 # 10) = Fin (3602879701896397 # 36028797018963968)
  /\ round64 (1621 # 10) = Fin (5703386715599667 # 35184372088832)
  /\ round64 (- 7 # 10) = Fin (- 3152519739159347 # 4503599627370496)
  /\ round64 (15 # 10) = Fin (3 # 2)
  /\ round64 10 = Fin 10
  /\ round64 (inject_Z (2 ^ 53 + 1)) = Fin (inject_Z (2 ^ 53))
  /\ round64 (inject_Z (2 ^ 53 + 3)) = Fin (inject_Z (2 ^ 53 + 4)).
Proof. repeat split; vm_compute; reflexivity. Qed.

(** The largest value is [2^1024 - 2^971]; what lies halfway to [2^1024]
    or beyond is Infinity.  The least positive value is [2^-1074]; half of
    it is 0, and one and a half times it is [2^-1073]. *)
Example round64_range :
  round64 (inject_Z (2 ^ 1024 - 2 ^ 970 - 1)) = Fin (inject_Z (2 ^ 1024 - 2 ^ 971))
  /\ round64 (inject_Z (2 ^ 1024 - 2 ^ 970)) = PosInf
  /\ round64 (inject_Z (- 2 ^ 1024)) = NegInf
  /\ round64 (1 # 2 ^ 1074) = Fin (1 # 2 ^ 1074)
  /\ round64 (1 # 2 ^ 1075) = Fin 0
  /\ round64 (3 # 2 ^ 1075) = Fin (1 # 2 ^ 1073).
Proof. repeat split; vm_compute; reflexivity. Qed.

Lemma digitOrDot_cases a :
  isDigitOrDot a = true ->
  isSpace a = false /\ eqc "-" a = false /\ eqc "+" a = false
  /\ eqc "I" a = false /\ eqc "e" a = false /\ eqc "E" a = false
  /\ (isDigit a = false -> eqc "." a = true).
Proof.
  destruct a as [[] [] [] [] [] [] [] []]; vm_compute; intros H;
    try discriminate H; repeat split; intros; congruence.
Qed.

Lemma exponentPart_digdot s : all isDigitOrDot s -> exponentPart s = 0%Z.
Proof.
  intros H. destruct s as [|a s]; [reflexivity|]. inv H.
  match goal with Ha : isDigitOrDot a = true |- _ =>
    apply digitOrDot_cases in Ha as (_ & _ & _ & _ & He & HE & _) end.
  unfold exponentPart. rewrite He, HE. reflexivity.
Qed.

(** [parseFloat] of a text of digits and dots is never negative. *)
Lemma parseFloat_digdot tok :
  all isDigitOrDot tok -> notNegative (parseFloat tok).
Proof.
  intros Hall. destruct tok as [|a t]; [exact I|].
  pose proof Hall as Hall'. inv Hall'.
  match goal with Ha : isDigitOrDot a = true |- _ =>
    apply digitOrDot_cases in Ha as (Hs & Hm & Hp & Hi & _) end.
  unfold parseFloat, trimStart. simpl dropWhile. rewrite Hs, Hm, Hp.
  unfold unsignedLiteral.
  replace (startsWith (lit "Infinity") (a :: t)) with false
    by (simpl; fold (eqc "I" a); rewrite Hi; reflexivity).
  set (tok := a :: t) in *.
  pose proof (takeWhile_all isDigit tok) as Hip.
  pose proof (dropWhile_all isDigit Hall) as Hr1.
  pose proof (dropWhile_head isDigit tok) as Hh.
  destruct (dropWhile isDigit tok) as [|x r2].
  - destruct (takeWhile isDigit tok) eqn:E; [exact I|].
    apply round64_sign. unfold Qle. cbn [Qnum Qden].
    apply digitsVal_nonneg in Hip. lia.
  - inv Hr1. simpl in Hh.
    match goal with Hx : isDigitOrDot x = true |- _ =>
      apply digitOrDot_cases in Hx as (_ & _ & _ & _ & _ & _ & Hdot) end.
    rewrite (Hdot Hh).
    assert (Hq : notNegative
              (round64 (scale10 (digitsVal (takeWhile isDigit tok ++ takeWhile isDigit r2))
                                (exponentPart (dropWhile isDigit r2)
                                 - Z.of_nat (length (takeWhile isDigit r2)))))).
    { apply round64_sign. apply scale10_nonneg. apply digitsVal_nonneg.
      apply Forall_app. split; [assumption | apply takeWhile_all]. }
    destruct (takeWhile isDigit tok), (takeWhile isDigit r2); try exact Hq.
    exact I.
Qed.

End NumberFacts.

(** ** Rounding to binary64 *)

Module RoundingFacts.

Local Unset Implicit Arguments.
Local Open Scope Q_scope.

Lemma P_pos k : 0 < 2 ^ k.
Proof. apply Qpower_0_lt. reflexivity. Qed.

Lemma P_plus j k : 2 ^ (j + k) == 2 ^ j * 2 ^ k.
Proof. apply Qpower_plus. discriminate. Qed.

Lemma P_succ k : 2 ^ (k + 1) == 2 * 2 ^ k.
Proof. rewrite P_plus. change (2 ^ 1) with 2. ring. Qed.

Lemma P_inv k : 2 ^ (- k) * 2 ^ k == 1.
Proof. rewrite <- P_plus. replace (- k + k)%Z with 0%Z by lia. reflexivity. Qed.

Lemma P_inject n : (0 <= n)%Z -> inject_Z (2 ^ n) == 2 ^ n.
Proof. intros H. rewrite Zpower_Qpower by exact H. reflexivity. Qed.

Lemma P_le j k : (j <= k)%Z -> 2 ^ j <= 2 ^ k.
Proof. intros H. apply Qpower_le_compat_l; [exact H | discriminate]. Qed.

Lemma P_lt j k : (j < k)%Z -> 2 ^ j < 2 ^ k.
Proof. intros H. apply Qpower_lt_compat_l; [exact H | reflexivity]. Qed.

(** The exponent. *)
Lemma log2_bounds a :
  (0 < a)%Z -> 2 ^ Z.log2 a <= inject_Z a /\ inject_Z a < 2 ^ (Z.log2 a + 1).
Proof.
  intros Ha. destruct (Z.log2_spec a Ha) as [H1 H2].
  pose proof (Z.log2_nonneg a) as Hn.
  rewrite <- !P_inject by lia. rewrite <- Zle_Qle, <- Zlt_Qlt.
  replace (Z.log2 a + 1)%Z with (Z.succ (Z.log2 a)) by lia. split; assumption.
Qed.

Lemma atLeastPow2_spec a b e :
  atLeastPow2 a b e = true <-> 2 ^ e * inject_Z b <= inject_Z a.
Proof.
  unfold atLeastPow2. destruct (Z.leb_spec 0 e) as [He | He].
  - rewrite Z.leb_le, Zle_Qle, inject_Z_mult, P_inject by lia.
    rewrite (Qmult_comm (inject_Z b)). reflexivity.
  - rewrite Z.leb_le, Zle_Qle, inject_Z_mult, P_inject by lia.
    pose proof (P_inv e) as Hi. pose proof (P_pos e) as H1.
    pose proof (P_pos (- e)) as H2.
    set (p := 2 ^ e) in *. set (p' := 2 ^ (- e)) in *.
    set (A := inject_Z a). set (B := inject_Z b).
    split; intros H.
    + assert (H3 : p * B <= p * (A * p')) by (apply Qmult_le_l; assumption).
      setoid_replace (p * (A * p')) with (A * (p' * p)) in H3 by ring.
      rewrite Hi in H3. rewrite Qmult_1_r in H3. exact H3.
    + assert (H3 : p' * (p * B) <= p' * A) by (apply Qmult_le_l; assumption).
      setoid_replace (p' * (p * B)) with ((p' * p) * B) in H3 by ring.
      rewrite Hi, Qmult_1_l in H3. rewrite (Qmult_comm A). exact H3.
Qed.

(** [e] is the exponent of [a / b]: [2^e <= a / b < 2^(e+1)]. *)
Lemma exponent_spec a b :
  (0 < a)%Z -> (0 < b)%Z ->
  let e0 := (Z.log2 a - Z.log2 b)%Z in
  let e := if atLeastPow2 a b e0 then e0 else (e0 - 1)%Z in
  2 ^ e * inject_Z b <= inject_Z a /\ inject_Z a < 2 ^ (e + 1) * inject_Z b.
Proof.
  intros Ha Hb e0 e.
  destruct (log2_bounds a Ha) as [A1 A2]. destruct (log2_bounds b Hb) as [B1 B2].
  set (A := inject_Z a) in *. set (B := inject_Z b) in *.
  assert (HB : 0 < B) by (unfold B; rewrite <- (Zlt_Qlt 0); exact Hb).
  assert (Hup : A < 2 ^ (e0 + 1) * B).
  { apply Qlt_le_trans with (2 ^ (Z.log2 a + 1)); [exact A2|].
    replace (Z.log2 a + 1)%Z with ((e0 + 1) + Z.log2 b)%Z by (unfold e0; lia).
    rewrite P_plus. apply Qmult_le_l; [apply P_pos | exact B1]. }
  assert (Hlo : 2 ^ (e0 - 1) * B < A).
  { apply Qlt_le_trans with (2 ^ Z.log2 a); [|exact A1].
    replace (Z.log2 a) with ((e0 - 1) + (Z.log2 b + 1))%Z by (unfold e0; lia).
    rewrite P_plus. apply Qmult_lt_l; [apply P_pos | exact B2]. }
  unfold e. destruct (atLeastPow2 a b e0) eqn:E.
  - apply atLeastPow2_spec in E. split; assumption.
  - split; [apply Qlt_le_weak; exact Hlo|].
    replace (e0 - 1 + 1)%Z with e0 by lia.
    apply Qnot_le_lt. intros H. apply atLeastPow2_spec in H. congruence.
Qed.

(** The quotient rounded to the nearest integer, to the even one at a
    tie. *)
Lemma nearest_spec num den :
  (0 <= num)%Z -> (0 < den)%Z ->
  let m0 := (num / den)%Z in
  let r := (num mod den)%Z in
  let m := if (2 * r <? den)%Z then m0
           else if (den <? 2 * r)%Z then (m0 + 1)%Z
           else if Z.even m0 then m0 else (m0 + 1)%Z in
  (m0 <= m <= m0 + 1)%Z
  /\ (m0 * den <= num < (m0 + 1) * den)%Z
  /\ (2 * Z.abs (num - m * den) <= den)%Z
  /\ (forall j, Z.abs (num - m * den) <= Z.abs (num - j * den))%Z
  /\ (den <= 2 * (num - m0 * den) -> Z.odd m0 = true -> m = m0 + 1)%Z
  /\ ((2 * Z.abs (num - m * den))%Z = den -> Z.even m = true).
Proof.
  intros Hn Hd m0 r m.
  pose proof (Z.div_mod num den ltac:(lia)) as E.
  pose proof (Z.mod_pos_bound num den Hd) as Hr.
  fold m0 in E. fold r in E, Hr.
  assert (Hm : ((m = m0 /\ 2 * r <= den) \/ (m = m0 + 1 /\ den <= 2 * r))%Z).
  { unfold m. destruct (Z.ltb_spec (2 * r) den); [left; lia|].
    destruct (Z.ltb_spec den (2 * r)); [right; lia|].
    destruct (Z.even m0); [left | right]; lia. }
  split; [lia|]. split; [nia|]. split; [nia|]. split; [|].
  - intros j. destruct (Z_le_gt_dec j m0) as [Hj | Hj].
    + assert (0 <= m0 - j)%Z by lia.
      assert (num - j * den = (m0 - j) * den + r)%Z by nia.
      destruct Hm as [[-> H2] | [-> H2]]; nia.
    + assert (0 <= j - (m0 + 1))%Z by lia.
      assert (num - j * den = r - den - (j - (m0 + 1)) * den)%Z by nia.
      destruct Hm as [[-> H2] | [-> H2]]; nia.
  - split.
    + intros H Ho. unfold m.
      assert (Hr2 : (den <= 2 * r)%Z) by nia.
      destruct (Z.ltb_spec (2 * r) den); [lia|].
      destruct (Z.ltb_spec den (2 * r)); [reflexivity|].
      rewrite <- Z.negb_odd, Ho. reflexivity.
    + intros H. unfold m in *.
      destruct (Z.ltb_spec (2 * r) den); [nia|].
      destruct (Z.ltb_spec den (2 * r)); [nia|].
      destruct (Z.even m0) eqn:Ev; [exact Ev|].
      rewrite Z.even_add, Ev. reflexivity.
Qed.

Lemma bin_shift m j k : (0 <= j)%Z -> bin (m * 2 ^ j) k == bin m (k + j).
Proof.
  intros Hj. unfold bin. rewrite inject_Z_mult, P_inject by exact Hj.
  rewrite (Z.add_comm k j), P_plus. ring.
Qed.

(** The scaled quotient: [num / den] is [a / b] in units of [2^k]. *)
Lemma scaled_spec a b k :
  (0 < a)%Z -> (0 < b)%Z ->
  let num := if (0 <=? k)%Z then a else (a * 2 ^ (- k))%Z in
  let den := if (0 <=? k)%Z then (b * 2 ^ k)%Z else b in
  (0 < num)%Z /\ (0 < den)%Z
  /\ inject_Z num * inject_Z b * 2 ^ k == inject_Z a * inject_Z den.
Proof.
  intros Ha Hb num den. unfold num, den.
  destruct (Z.leb_spec 0 k) as [Hk | Hk].
  - assert (0 < 2 ^ k)%Z by (apply Z.pow_pos_nonneg; lia).
    split; [exact Ha|]. split; [nia|].
    rewrite inject_Z_mult, P_inject by exact Hk. ring.
  - assert (0 < 2 ^ (- k))%Z by (apply Z.pow_pos_nonneg; lia).
    split; [nia|]. split; [exact Hb|].
    rewrite inject_Z_mult, P_inject by lia.
    setoid_replace (inject_Z a * 2 ^ (- k) * inject_Z b * 2 ^ k)
      with (inject_Z a * inject_Z b * (2 ^ (- k) * 2 ^ k)) by ring.
    rewrite P_inv. ring.
Qed.

(** The distance of [a / b] from a multiple of [2^k]. *)
Lemma distance_spec (A B N D p : Q) (num den j : Z) :
  0 < B -> 0 < D -> 0 < p ->
  N == inject_Z num -> D == inject_Z den ->
  N * B * p == A * D ->
  Qabs (A / B - inject_Z j * p)
  == p / D * inject_Z (Z.abs (num - j * den)).
Proof.
  intros HB HD Hp HN HDd E.
  assert (E1 : A / B - inject_Z j * p
               == p / D * inject_Z (num - j * den)).
  { unfold Zminus. rewrite inject_Z_plus, inject_Z_opp, inject_Z_mult.
    rewrite <- HN, <- HDd.
    setoid_replace (A / B) with (N * p / D).
    - field. intros H. rewrite H in HD. discriminate.
    - apply Qmult_inj_r with (z := B * D).
      + intros H. assert (0 < B * D) by (apply Qmult_lt_0_compat; assumption).
        rewrite H in *. discriminate.
      + transitivity (A * D); [field | rewrite <- E; field];
          intros H; rewrite H in *; discriminate. }
  rewrite E1, Qabs_Qmult. rewrite (Qabs_pos (p / D)).
  - reflexivity.
  - apply Qlt_le_weak. apply Qlt_shift_div_l; [exact HD|].
    rewrite Qmult_0_l. exact Hp.
Qed.

Lemma quotient_bounds (A B N D p c : Q) :
  0 < B -> 0 < D -> 0 < p -> N * B * p == A * D ->
  (c * p * B <= A -> c * D <= N) /\ (A < c * p * B -> N < c * D).
Proof.
  intros HB HD Hp E.
  assert (HBp : 0 < B * p) by (apply Qmult_lt_0_compat; assumption).
  split; intros H.
  - apply Qnot_lt_le. intros Hlt.
    assert (H1 : N * (B * p) < c * D * (B * p))
      by (apply Qmult_lt_compat_r; assumption).
    assert (H2 : c * p * B * D <= A * D)
      by (apply Qmult_le_compat_r; [exact H | apply Qlt_le_weak; exact HD]).
    setoid_replace (N * (B * p)) with (A * D) in H1 by (rewrite <- E; ring).
    setoid_replace (c * D * (B * p)) with (c * p * B * D) in H1 by ring.
    exact (Qlt_not_le _ _ H1 H2).
  - apply Qnot_le_lt. intros Hle.
    assert (H1 : c * D * (B * p) <= N * (B * p))
      by (apply Qmult_le_compat_r; [exact Hle | apply Qlt_le_weak; exact HBp]).
    assert (H2 : A * D < c * p * B * D)
      by (apply Qmult_lt_compat_r; assumption).
    setoid_replace (N * (B * p)) with (A * D) in H1 by (rewrite <- E; ring).
    setoid_replace (c * D * (B * p)) with (c * p * B * D) in H1 by ring.
    exact (Qlt_not_le _ _ H2 H1).
Qed.

Lemma Qabs_inject z : Qabs (inject_Z z) == inject_Z (Z.abs z).
Proof. reflexivity. Qed.

Lemma pow2_le_inv j k : (0 <= j)%Z -> (0 <= k)%Z -> (2 ^ j <= 2 ^ k)%Z -> (j <= k)%Z.
Proof. intros Hj Hk H. apply (Z.pow_le_mono_r_iff 2); [lia | exact Hk | exact H]. Qed.

Lemma pow2_lt_inv j k : (0 <= j)%Z -> (0 <= k)%Z -> (2 ^ j < 2 ^ k)%Z -> (j < k)%Z.
Proof. intros Hj Hk H. apply (Z.pow_lt_mono_r_iff 2); [lia | exact Hk | exact H]. Qed.

Theorem roundPos_nearest a b :
  (0 < a)%Z -> (0 < b)%Z ->
  let x := inject_Z a / inject_Z b in
  match roundPos a b with
  | Fin r =>
      isBinary64 r /\ 0 <= r /\ x < 2 ^ 1024 - 2 ^ 970
      /\ (forall r', isBinary64 r' -> Qabs (x - r) <= Qabs (x - r'))
      /\ (forall r', isBinary64 r' -> Qabs (x - r) == Qabs (x - r') ->
                     r' == r \/ isEven64 r)
  | PosInf => 2 ^ 1024 - 2 ^ 970 <= x
  | _ => False
  end.
Proof.
  intros Ha Hb x.
  destruct (exponent_spec a b Ha Hb) as [He1 He2].
  unfold roundPos.
  set (e := if atLeastPow2 a b (Z.log2 a - Z.log2 b)
            then (Z.log2 a - Z.log2 b)%Z else (Z.log2 a - Z.log2 b - 1)%Z) in *.
  set (k := (Z.max e (-1022) - 52)%Z).
  destruct (scaled_spec a b k Ha Hb) as (Hnum & Hden & Hsc).
  set (num := if (0 <=? k)%Z then a else (a * 2 ^ (- k))%Z) in *.
  set (den := if (0 <=? k)%Z then (b * 2 ^ k)%Z else b) in *.
  destruct (nearest_spec num den ltac:(lia) Hden)
    as (Hm1 & Hm0 & Hhalf & Hnear & Htie & Heven).
  set (m0 := (num / den)%Z) in *.
  set (m := if (2 * (num mod den) <? den)%Z then m0
            else if (den <? 2 * (num mod den))%Z then (m0 + 1)%Z
            else if Z.even m0 then m0 else (m0 + 1)%Z) in *.
  clearbody m m0.
  set (A := inject_Z a) in *. set (B := inject_Z b) in *.
  set (N := inject_Z num) in *. set (D := inject_Z den) in *.
  assert (HB : 0 < B) by (unfold B; rewrite <- (Zlt_Qlt 0); exact Hb).
  assert (HD : 0 < D) by (unfold D; rewrite <- (Zlt_Qlt 0); exact Hden).
  pose proof (P_pos k) as Hp.
  assert (Hk : (-1074 <= k)%Z) by (unfold k; lia).
  (* the distance from the multiples of 2^k *)
  assert (Hdist : forall j, Qabs (x - bin j k)
                            == 2 ^ k / D * inject_Z (Z.abs (num - j * den))).
  { intros j. unfold x, bin.
    apply (distance_spec A B N D (2 ^ k) num den j); auto; reflexivity. }
  assert (Hc : 0 < 2 ^ k / D).
  { apply Qlt_shift_div_l; [exact HD|]. rewrite Qmult_0_l. exact Hp. }
  (* the bounds of the quotient *)
  assert (Hhi : (num < 2 ^ 53 * den)%Z).
  { assert (H : A < inject_Z (2 ^ 53) * 2 ^ k * B).
    { apply Qlt_le_trans with (2 ^ (e + 1) * B); [exact He2|].
      apply Qmult_le_compat_r; [|apply Qlt_le_weak; exact HB].
      rewrite P_inject by lia. rewrite <- P_plus. apply P_le. unfold k. lia. }
    apply (quotient_bounds A B N D (2 ^ k) (inject_Z (2 ^ 53)) HB HD Hp Hsc) in H.
    unfold N, D in H. rewrite <- inject_Z_mult, <- Zlt_Qlt in H. exact H. }
  assert (Hlo : (-1022 <= e)%Z -> (2 ^ 52 * den <= num)%Z).
  { intros Hn. assert (H : inject_Z (2 ^ 52) * 2 ^ k * B <= A).
    { apply Qle_trans with (2 ^ e * B); [|exact He1].
      apply Qmult_le_compat_r; [|apply Qlt_le_weak; exact HB].
      rewrite P_inject by lia. rewrite <- P_plus. apply P_le. unfold k. lia. }
    apply (quotient_bounds A B N D (2 ^ k) (inject_Z (2 ^ 52)) HB HD Hp Hsc) in H.
    unfold N, D in H. rewrite <- inject_Z_mult, <- Zle_Qle in H. exact H. }
  assert (Hsub : (e < -1022)%Z -> (num < 2 ^ 52 * den)%Z).
  { intros Hn. assert (H : A < inject_Z (2 ^ 52) * 2 ^ k * B).
    { apply Qlt_le_trans with (2 ^ (e + 1) * B); [exact He2|].
      apply Qmult_le_compat_r; [|apply Qlt_le_weak; exact HB].
      rewrite P_inject by lia. rewrite <- P_plus. apply P_le. unfold k. lia. }
    apply (quotient_bounds A B N D (2 ^ k) (inject_Z (2 ^ 52)) HB HD Hp Hsc) in H.
    unfold N, D in H. rewrite <- inject_Z_mult, <- Zlt_Qlt in H. exact H. }
  assert (Hmhi : (0 <= m <= 2 ^ 53)%Z) by nia.
  assert (Hmlo : (-1022 <= e)%Z -> (2 ^ 52 <= m)%Z).
  { intros Hn. specialize (Hlo Hn). nia. }
  assert (Hmsub : (e < -1022)%Z -> (m <= 2 ^ 52)%Z).
  { intros Hn. specialize (Hsub Hn). nia. }
  assert (Hx1 : 2 ^ e <= x) by (apply Qle_shift_div_l; assumption).
  assert (Hx2 : x < 2 ^ (e + 1)) by (apply Qlt_shift_div_r; assumption).
  assert (Hnonneg : 0 <= bin m k).
  { unfold bin. apply Qmult_le_0_compat; [|apply Qlt_le_weak; exact Hp].
    rewrite <- (Zle_Qle 0). lia. }
  assert (Hulp : Qabs (x - bin m k) <= 2 ^ k / 2).
  { rewrite Hdist.
    assert (H : inject_Z (Z.abs (num - m * den)) <= D / 2).
    { apply Qle_shift_div_l; [reflexivity|]. unfold D.
      rewrite <- (inject_Z_mult _ 2), <- Zle_Qle. lia. }
    apply Qle_trans with (2 ^ k / D * (D / 2)).
    - apply Qmult_le_l; assumption.
    - apply Qle_lteq. right. field. intros E0. rewrite E0 in HD. discriminate. }
  assert (Hnearest : forall r', isBinary64 r' ->
                                Qabs (x - bin m k) <= Qabs (x - r')).
  { intros r' (m' & k' & Hm' & Hk' & Er). rewrite Er.
    destruct (Z_le_gt_dec k k') as [Hkk | Hkk].
    - replace k' with (k + (k' - k))%Z by lia.
      rewrite <- bin_shift by lia. rewrite !Hdist.
      apply Qmult_le_l; [exact Hc|]. rewrite <- Zle_Qle. apply Hnear.
    - assert (Hn : (-1022 <= e)%Z) by (unfold k in Hkk; lia).
      assert (Ek : (k + 52)%Z = e) by (unfold k; lia).
      assert (Hr : bin m' k' < 2 ^ e).
      { unfold bin. apply Qle_lt_trans with (inject_Z (2 ^ 53 - 1) * 2 ^ k').
        - apply Qmult_le_compat_r; [|apply Qlt_le_weak; apply P_pos].
          rewrite <- Zle_Qle. lia.
        - apply Qlt_le_trans with (2 ^ 53 * 2 ^ k').
          + apply Qmult_lt_compat_r; [apply P_pos | reflexivity].
          + rewrite <- P_plus. apply P_le. lia. }
      assert (E52 : bin (2 ^ 52) k == 2 ^ e).
      { unfold bin. rewrite P_inject by lia. rewrite <- P_plus, <- Ek.
        rewrite (Z.add_comm 52 k). reflexivity. }
      apply Qle_trans with (Qabs (x - bin (2 ^ 52) k)).
      + rewrite !Hdist. apply Qmult_le_l; [exact Hc|].
        rewrite <- Zle_Qle. apply Hnear.
      + rewrite E52. rewrite !Qabs_pos by lra. lra. }
  assert (Hties : (k <= 971)%Z -> (m = 2 ^ 53 -> k <= 970)%Z ->
                  forall r', isBinary64 r' ->
                             Qabs (x - bin m k) == Qabs (x - r') ->
                             r' == bin m k \/ isEven64 (bin m k)).
  { intros H1 H2 r' (m' & k' & Hm' & Hk' & Er) Heq. rewrite Er in Heq.
    destruct (Z_le_gt_dec k k') as [Hkk | Hkk].
    - assert (Es : bin m' k' == bin (m' * 2 ^ (k' - k)) k).
      { rewrite bin_shift by lia. replace (k + (k' - k))%Z with k' by lia.
        reflexivity. }
      rewrite Es, !Hdist in Heq.
      apply Qmult_inj_l in Heq;
        [|intros E0; rewrite E0 in Hc; discriminate].
      rewrite inject_Z_injective in Heq.
      destruct (Z.eq_dec (m' * 2 ^ (k' - k)) m) as [Ej | Ej].
      + left. rewrite Er, Es, Ej. reflexivity.
      + right. assert (Hm2 : Z.even m = true).
        { apply Heven. set (j := (m' * 2 ^ (k' - k))%Z) in *. clearbody j.
          clear - Heq Ej Hhalf Hden.
          assert (Hw : (den <= Z.abs ((j - m) * den))%Z).
          { rewrite Z.abs_mul, (Z.abs_eq den) by lia.
            assert (1 <= Z.abs (j - m))%Z by lia. nia. }
          assert (Ew : (num - m * den - (num - j * den) = (j - m) * den)%Z)
            by ring.
          set (w := ((j - m) * den)%Z) in *. clearbody w. lia. }
        destruct (Z.eq_dec m (2 ^ 53)) as [Em | Em].
        * exists (2 ^ 52)%Z, (k + 1)%Z. split; [reflexivity|].
          split; [reflexivity|]. split; [specialize (H2 Em); lia|].
          split; [right; reflexivity|].
          rewrite Em. change (2 ^ 53)%Z with (2 ^ 52 * 2 ^ 1)%Z.
          apply bin_shift. lia.
        * exists m, k. split; [exact Hm2|]. split; [lia|]. split; [lia|].
          split; [|reflexivity].
          destruct (Z_le_gt_dec (-1022) e) as [Hn | Hn].
          -- right. specialize (Hmlo Hn). lia.
          -- left. unfold k. lia.
    - exfalso.
      assert (Hn : (-1022 <= e)%Z) by (unfold k in Hkk; lia).
      assert (Ek : (k + 52)%Z = e) by (unfold k; lia).
      assert (Hr : bin m' k' < 2 ^ e).
      { unfold bin. apply Qle_lt_trans with (inject_Z (2 ^ 53 - 1) * 2 ^ k').
        - apply Qmult_le_compat_r; [|apply Qlt_le_weak; apply P_pos].
          rewrite <- Zle_Qle. lia.
        - apply Qlt_le_trans with (2 ^ 53 * 2 ^ k').
          + apply Qmult_lt_compat_r; [apply P_pos | reflexivity].
          + rewrite <- P_plus. apply P_le. lia. }
      assert (E52 : bin (2 ^ 52) k == 2 ^ e).
      { unfold bin. rewrite P_inject by lia. rewrite <- P_plus, <- Ek.
        rewrite (Z.add_comm 52 k). reflexivity. }
      assert (Hle : Qabs (x - bin m k) <= Qabs (x - bin (2 ^ 52) k)).
      { rewrite !Hdist. apply Qmult_le_l; [exact Hc|].
        rewrite <- Zle_Qle. apply Hnear. }
      rewrite Heq, E52 in Hle. rewrite !Qabs_pos in Hle by lra. lra. }
  assert (Hrep : (k <= 971)%Z -> (m = 2 ^ 53 -> k <= 970)%Z ->
                 isBinary64 (bin m k)).
  { intros H1 H2. destruct (Z.eq_dec m (2 ^ 53)) as [Em | Em].
    - exists (2 ^ 52)%Z, (k + 1)%Z. split; [reflexivity|].
      split; [specialize (H2 Em); lia|].
      rewrite Em. change (2 ^ 53)%Z with (2 ^ 52 * 2 ^ 1)%Z.
      apply bin_shift. lia.
    - exists m, k. split; [lia|]. split; [lia | reflexivity]. }
  destruct (Z.leb_spec 0 k) as [Hk0 | Hk0].
  - assert (Hn : (-1022 <= e)%Z) by (unfold k in Hk0; lia).
    assert (Ek : (k + 52)%Z = e) by (unfold k; lia).
    specialize (Hmlo Hn).
    assert (Hpk : (0 < 2 ^ k)%Z) by (apply Z.pow_pos_nonneg; lia).
    assert (Ev : inject_Z (m * 2 ^ k) == bin m k).
    { unfold bin. rewrite inject_Z_mult, P_inject by exact Hk0. reflexivity. }
    destruct (Z.leb_spec (2 ^ 1024) (m * 2 ^ k)) as [Hov | Hov].
    + assert (Hk971 : (971 <= k)%Z).
      { assert (H : (2 ^ 1024 <= 2 ^ (53 + k))%Z).
        { rewrite Z.pow_add_r by lia. nia. }
        apply pow2_le_inv in H; lia. }
      destruct (Z.eq_dec k 971) as [E971 | E971].
      * assert (H1 : 2 ^ 1024 <= bin m k).
        { rewrite <- Ev. rewrite <- (P_inject 1024) by lia.
          rewrite <- Zle_Qle. exact Hov. }
        apply Qabs_Qle_condition in Hulp as [Hu _].
        rewrite E971 in *.
        assert (H970 : 2 ^ 971 / 2 == 2 ^ 970) by (vm_compute; reflexivity).
        rewrite H970 in Hu. clear - H1 Hu.
        set (p := 2 ^ 1024) in *. set (q := 2 ^ 970) in *.
        clearbody p q. lra.
      * assert (H1 : 2 ^ 1024 <= 2 ^ e) by (apply P_le; lia).
        assert (H2 : 0 < 2 ^ 970) by apply P_pos.
        clear - H1 H2 Hx1.
        set (p := 2 ^ 1024) in *. set (q := 2 ^ 970) in *.
        set (pe := 2 ^ e) in *. clearbody p q pe. lra.
    + assert (Hk971 : (k <= 971)%Z).
      { assert (H : (2 ^ (52 + k) < 2 ^ 1024)%Z).
        { rewrite Z.pow_add_r by lia. nia. }
        apply pow2_lt_inv in H; lia. }
      assert (H970 : (m = 2 ^ 53 -> k <= 970)%Z).
      { intros Em. assert (H : (2 ^ (53 + k) < 2 ^ 1024)%Z).
        { rewrite Z.pow_add_r by lia. rewrite <- Em. exact Hov. }
        apply pow2_lt_inv in H; lia. }
      split; [|split; [|split]].
      * destruct (Hrep Hk971 H970) as (m1 & k1 & Hm1' & Hk1 & E1).
        exists m1, k1. split; [exact Hm1'|]. split; [exact Hk1|].
        rewrite Ev. exact E1.
      * rewrite Ev. exact Hnonneg.
      * apply Qnot_le_lt. intros Hge.
        assert (Hc1 : 2 ^ 1023 <= 2 ^ 1024 - 2 ^ 970) by (vm_compute; discriminate).
        destruct (Z_le_gt_dec k 970) as [Hle | Hgt].
        -- assert (H1 : 2 ^ (e + 1) <= 2 ^ 1023) by (apply P_le; lia).
           clear - Hge Hc1 H1 Hx2.
           set (p := 2 ^ 1024 - 2 ^ 970) in *. set (q := 2 ^ 1023) in *.
           set (pe := 2 ^ (e + 1)) in *. clearbody p q pe. lra.
        -- assert (E971 : k = 971%Z) by lia.
           assert (Hq : (2 ^ 53 - (1 # 2)) * 2 ^ k * B <= A).
           { rewrite E971.
             setoid_replace ((2 ^ 53 - (1 # 2)) * 2 ^ 971)
               with (2 ^ 1024 - 2 ^ 970) by (vm_compute; reflexivity).
             apply Qle_trans with (x * B).
             - apply Qmult_le_compat_r; [exact Hge | apply Qlt_le_weak; exact HB].
             - apply Qle_lteq. right. unfold x. field.
               intros E0. rewrite E0 in HB. discriminate. }
           apply (quotient_bounds A B N D (2 ^ k) _ HB HD Hp Hsc) in Hq.
           assert (Hz : ((2 ^ 54 - 1) * den <= 2 * num)%Z).
           { rewrite Zle_Qle, !inject_Z_mult. fold N D.
             setoid_replace (inject_Z (2 ^ 54 - 1))
               with (2 * (2 ^ 53 - (1 # 2))) by (vm_compute; reflexivity).
             change (inject_Z 2) with 2.
             set (c := 2 ^ 53 - (1 # 2)) in *. clearbody c.
             set (cD := c * D) in *.
             setoid_replace (2 * c * D) with (2 * cD) by (unfold cD; ring).
             clearbody cD. lra. }
           assert (Em0 : (m0 = 2 ^ 53 - 1)%Z) by nia.
           assert (Em : (m = m0 + 1)%Z).
           { apply Htie; [|rewrite Em0; reflexivity]. rewrite Em0. lia. }
           rewrite Em, Em0, E971 in Hov. vm_compute in Hov. discriminate Hov.
      * split; [intros r' Hr'; rewrite Ev; apply Hnearest; exact Hr'|].
        intros r' Hr' Heq. rewrite Ev in Heq.
        destruct (Hties Hk971 H970 r' Hr' Heq) as [H | (m1 & k1 & H)].
        -- left. rewrite Ev. exact H.
        -- right. exists m1, k1. rewrite Ev. exact H.
  - assert (Ev : Qred (m # Z.to_pos (2 ^ (- k))) == bin m k).
    { rewrite Qred_correct, Qmake_Qdiv. unfold bin, Qdiv.
      assert (Hpk : (0 < 2 ^ (- k))%Z) by (apply Z.pow_pos_nonneg; lia).
      rewrite Z2Pos.id by exact Hpk. rewrite P_inject by lia.
      rewrite <- Qpower_opp. rewrite Z.opp_involutive. reflexivity. }
    split; [|split; [|split]].
    + destruct (Hrep ltac:(lia) ltac:(lia)) as (m1 & k1 & Hm1' & Hk1 & E1).
      exists m1, k1. split; [exact Hm1'|]. split; [exact Hk1|].
      rewrite Ev. exact E1.
    + rewrite Ev. exact Hnonneg.
    + assert (Hc1 : 2 ^ 52 < 2 ^ 1024 - 2 ^ 970) by (vm_compute; reflexivity).
      assert (H1 : 2 ^ (e + 1) <= 2 ^ 52) by (apply P_le; unfold k in Hk0; lia).
      clear - Hc1 H1 Hx2.
      set (p := 2 ^ 1024 - 2 ^ 970) in *. set (q := 2 ^ 52) in *.
      set (pe := 2 ^ (e + 1)) in *. clearbody p q pe. lra.
    + split; [intros r' Hr'; rewrite Ev; apply Hnearest; exact Hr'|].
      intros r' Hr' Heq. rewrite Ev in Heq.
      destruct (Hties ltac:(lia) ltac:(lia) r' Hr' Heq) as [H | (m1 & k1 & H)].
      * left. rewrite Ev. exact H.
      * right. exists m1, k1. rewrite Ev. exact H.
Qed.

Lemma bin_opp m k : bin (- m) k == - bin m k.
Proof. unfold bin. rewrite inject_Z_opp. ring. Qed.

Lemma isBinary64_opp r : isBinary64 r -> isBinary64 (- r).
Proof.
  intros (m & k & Hm & Hk & E). exists (- m)%Z, k.
  split; [lia|]. split; [exact Hk|]. rewrite bin_opp, E. reflexivity.
Qed.

Lemma isEven64_opp r : isEven64 r -> isEven64 (- r).
Proof.
  intros (m & k & He & Hm & Hk & Hc & E). exists (- m)%Z, k.
  split; [rewrite Z.even_opp; exact He|]. split; [lia|]. split; [exact Hk|].
  split; [rewrite Z.abs_opp; exact Hc|]. rewrite bin_opp, E. reflexivity.
Qed.

(** [round64 q] is the binary64 value nearest to [q], the one with the
    even significand when two are equally near, and an infinity from
    [2^1024 - 2^970] on, halfway between the largest value and [2^1024]. *)
Theorem round64_nearest q :
  match round64 q with
  | Fin r =>
      isBinary64 r
      /\ - (2 ^ 1024 - 2 ^ 970) < q /\ q < 2 ^ 1024 - 2 ^ 970
      /\ (forall r', isBinary64 r' -> Qabs (q - r) <= Qabs (q - r'))
      /\ (forall r', isBinary64 r' -> Qabs (q - r) == Qabs (q - r') ->
                     r' == r \/ isEven64 r)
  | PosInf => 2 ^ 1024 - 2 ^ 970 <= q
  | NegInf => q <= - (2 ^ 1024 - 2 ^ 970)
  | NaN => False
  end.
Proof.
  assert (Hbig : 0 < 2 ^ 1024 - 2 ^ 970) by (vm_compute; reflexivity).
  destruct q as [n d]. unfold round64. cbn [Qnum Qden].
  destruct n as [|p|p].
  - assert (E : 0 # d == 0) by reflexivity.
    set (big := 2 ^ 1024 - 2 ^ 970) in *. clearbody big.
    split; [exists 0%Z, 0%Z; split; [reflexivity|]; split; [lia | reflexivity]|].
    split; [rewrite E; lra|]. split; [rewrite E; lra|]. split.
    + intros r' _. assert (E0 : Qabs ((0 # d) - 0) == 0) by reflexivity.
      rewrite E0. apply Qabs_nonneg.
    + intros r' _ _. right. exists 0%Z, (-1074)%Z.
      split; [reflexivity|]. split; [reflexivity|]. split; [lia|].
      split; [left; reflexivity | reflexivity].
  - pose proof (roundPos_nearest (Z.pos p) (Z.pos d) eq_refl eq_refl) as H.
    cbv zeta in H. set (big := 2 ^ 1024 - 2 ^ 970) in *. clearbody big.
    pose proof (Qmake_Qdiv (Z.pos p) d) as Ex.
    set (x := inject_Z (Z.pos p) / inject_Z (Z.pos d)) in *. clearbody x.
    destruct (roundPos (Z.pos p) (Z.pos d)) as [| | |r];
      [exact H | rewrite Ex; exact H | destruct H |].
    destruct H as (H1 & H2 & H3 & H4 & H5).
    assert (Hq : 0 < Z.pos p # d) by reflexivity.
    split; [exact H1|]. split; [lra|]. split; [rewrite Ex; exact H3|]. split.
    + intros r' Hr'. rewrite Ex. apply H4. exact Hr'.
    + intros r' Hr' Heq. rewrite Ex in Heq. apply H5; assumption.
  - pose proof (roundPos_nearest (Z.pos p) (Z.pos d) eq_refl eq_refl) as H.
    cbv zeta in H. set (big := 2 ^ 1024 - 2 ^ 970) in *. clearbody big.
    pose proof (Qmake_Qdiv (Z.pos p) d) as Ex.
    set (x := inject_Z (Z.pos p) / inject_Z (Z.pos d)) in *. clearbody x.
    assert (E : Z.neg p # d == - x) by (rewrite <- Ex; reflexivity).
    assert (Hq : 0 < x) by (rewrite <- Ex; reflexivity).
    destruct (roundPos (Z.pos p) (Z.pos d)) as [| | |r]; cbn [num_neg];
      [exact H | rewrite E; lra | destruct H |].
    destruct H as (H1 & H2 & H3 & H4 & H5).
    split; [apply isBinary64_opp; exact H1|].
    split; [rewrite E; lra|]. split; [rewrite E; lra|]. split.
    + intros r' Hr'. apply isBinary64_opp in Hr'. specialize (H4 _ Hr').
      rewrite E.
      setoid_replace (- x - - r) with (- (x - r)) by ring.
      setoid_replace (- x - r') with (- (x - - r')) by ring.
      rewrite !Qabs_opp. exact H4.
    + intros r' Hr' Heq. apply isBinary64_opp in Hr'. rewrite E in Heq.
      setoid_replace (- x - - r) with (- (x - r)) in Heq by ring.
      setoid_replace (- x - r') with (- (x - - r')) in Heq by ring.
      rewrite !Qabs_opp in Heq.
      destruct (H5 _ Hr' Heq) as [H | H].
      * left. rewrite <- H. ring.
      * right. apply isEven64_opp. exact H.
Qed.

End RoundingFacts.

Set Implicit Arguments.

(** ** The parser *)

Module ParserFacts.
Import RegexFacts.

Lemma Sem_Cls p c cs c' cs' :
  Sem (Cls p) c cs c' cs' ->
  cs' = cs /\ exists a, advances c c' [a] /\ p a = true.
Proof.
  intros H. inv H. split; [reflexivity|]. exists a.
  split; [split; reflexivity | assumption].
Qed.

Ltac sem_step :=
  match goal with
  | H : Sem Eps _ _ _ _ |- _ => inv H
  | H : Sem Bol _ _ _ _ |- _ => inv H
  | H : Sem Wb _ _ _ _ |- _ => inv H
  | H : Sem (Cls _) _ _ _ _ |- _ =>
      apply Sem_Cls in H; destruct H as [? (? & ? & ?)]; subst
  | H : Sem (Seq _ _) _ _ _ _ |- _ => inv H
  | H : Sem (Grp _ _) _ _ _ _ |- _ => inv H
  | H : Sem (Alt _ _) _ _ _ _ |- _ => inv H
  | H : Sem (Opt _) _ _ _ _ |- _ => unfold Opt in H
  | H : Sem (L _) _ _ _ _ |- _ =>
      apply Sem_Lit in H; destruct H as [? ?]; subst
  | H : Sem (LI _) _ _ _ _ |- _ =>
      apply Sem_LitI in H; destruct H as [? (? & ? & ?)]; subst
  | H : Sem (Star (Cls _)) _ _ _ _ |- _ =>
      apply Sem_StarCls in H; destruct H as [? (? & ? & ?)]; subst
  | H : Sem (Plus (Cls _)) _ _ _ _ |- _ =>
      apply Sem_PlusCls in H; destruct H as [? (? & ? & ? & ?)]; subst
  end.

Ltac fuse_group :=
  match goal with
  | |- context [consumed ?a ?b] =>
      match goal with
      | A : advances a b _ |- _ => rewrite (advances_consumed A)
      | A : advances a ?m _, B : advances ?m b _ |- _ =>
          let N := fresh "N" in
          pose proof (advances_trans A B) as N; clear A B;
          rewrite (advances_consumed N)
      end
  end.

Lemma row_compose c c1 c2 c3 c4 c5 c6 c7 c8 c9 c10 c11 c'
    w1 ty w2 w3 adj w4 pr w5 :
  advances c c1 (lit "|") -> advances c1 c2 w1 -> advances c2 c3 ty ->
  advances c3 c4 w2 -> advances c4 c5 (lit "|") -> advances c5 c6 w3 ->
  advances c6 c7 adj -> advances c7 c8 (lit "|") -> advances c8 c9 w4 ->
  advances c9 c10 pr -> advances c10 c11 w5 -> advances c11 c' (lit "|") ->
  advances c c' (rowText w1 ty w2 w3 adj w4 pr w5).
Proof.
  intros. unfold rowText.
  repeat (eapply advances_trans; [eassumption|]). rewrite <- (app_nil_r (lit "|")).
  eapply advances_trans; [eassumption | apply advances_refl].
Qed.

Lemma lower_of_fold seg w :
  map asciiLower seg = w -> all (between 97 122) w -> toLowerCase seg = w.
Proof. intros <- H. apply toLowerCase_asciiLower. exact H. Qed.

(** A match of [tableRowRe] is a row: its groups are the three cells, the
    first one of the four names in some case, the second without a pipe,
    the third of digits and dots. *)
Lemma tableRow_shape c c' cs' :
  Sem tableRowRe c [] c' cs' ->
  exists w1 ty w2 w3 adj w4 pr w5,
    advances c c' (rowText w1 ty w2 w3 adj w4 pr w5)
    /\ cs' = [(3, pr); (2, adj); (1, ty)]
    /\ all isSpace w1 /\ all isSpace w2 /\ all isSpace w3
    /\ all isSpace w4 /\ all isSpace w5
    /\ In (toLowerCase ty) (gasNames ++ [lit "diesel"])
    /\ all notPipe adj /\ adj <> []
    /\ all isDigitOrDot pr /\ pr <> [].
Proof.
  unfold tableRowRe, sp, dg. intros H. repeat sem_step; repeat fuse_group;
    do 8 eexists;
    (split; [eapply row_compose; eassumption|]);
    (split; [reflexivity|]);
    repeat (split; [assumption|]);
    (split; [|repeat (split; [assumption|]); assumption]).
  all: (erewrite lower_of_fold;
        [| try rewrite map_app;
           repeat match goal with
                  | E : map asciiLower ?x = _ |- context [map asciiLower ?x] =>
                      rewrite E
                  end; reflexivity
         | repeat constructor]);
    simpl; auto 6.
Qed.


Lemma rows_captures fullText :
  Forall isRowCapture (execAll tableRowRe fullText).
Proof.
  apply execLoop_Forall. intros c c' cs' H.
  apply tableRow_shape in H
    as (w1 & ty & w2 & w3 & adj & w4 & pr & w5 & _ & -> & _ & _ & _ & _ & _ & H).
  exists ty, adj, pr. split; [reflexivity | exact H].
Qed.


Lemma rowCapture_names m :
  isRowCapture m -> namesDiesel m = negb (namesGas m).
Proof.
  intros (ty & adj & pr & -> & Hin & _). unfold namesDiesel, namesGas. simpl.
  destruct Hin as [<- | [<- | [<- | [<- | []]]]]; reflexivity.
Qed.

Lemma find_snoc {A : Type} (p : A -> bool) (l : list A) (x : A) :
  find p (l ++ [x]) =
  match find p l with
  | Some y => Some y
  | None => if p x then Some x else None
  end.
Proof.
  induction l as [|a l IH]; simpl; [reflexivity|].
  destruct (p a); [reflexivity | exact IH].
Qed.

Lemma lastWhere_cons {A : Type} (p : A -> bool) (x : A) (l : list A) :
  lastWhere p (x :: l) =
  match lastWhere p l with
  | Some y => Some y
  | None => if p x then Some x else None
  end.
Proof. unfold lastWhere. simpl. apply find_snoc. Qed.

(** The table loop keeps, for each slot, the last row that names it. *)
Lemma fold_tableStep rows : forall st,
  Forall (fun m => namesDiesel m = negb (namesGas m)) rows ->
  fold_left tableStep rows st =
  (orElse (option_map rowSlot (lastWhere namesGas rows)) (fst st),
   orElse (option_map rowSlot (lastWhere namesDiesel rows)) (snd st)).
Proof.
  induction rows as [|m rows IH]; intros [g d] Hall; simpl; [reflexivity|].
  inv Hall. rewrite IH by assumption. rewrite !lastWhere_cons.
  unfold tableStep. fold (namesDiesel m).
  match goal with Hm : namesDiesel m = _ |- _ => rewrite Hm end.
  destruct (lastWhere namesGas rows), (lastWhere namesDiesel rows),
    (namesGas m); reflexivity.
Qed.

Lemma tableStrategy_last fullText :
  tableStrategy fullText =
  (option_map rowSlot (lastWhere namesGas (execAll tableRowRe fullText)),
   option_map rowSlot (lastWhere namesDiesel (execAll tableRowRe fullText))).
Proof.
  unfold tableStrategy. rewrite fold_tableStep.
  - simpl. f_equal.
    + destruct (option_map _ _); reflexivity.
    + destruct (option_map _ _); reflexivity.
  - eapply Forall_impl; [|apply rows_captures]. apply rowCapture_names.
Qed.



Lemma tableStrategy_none fullText :
  tableStrategy fullText = (None, None) <-> execAll tableRowRe fullText = [].
Proof.
  rewrite tableStrategy_last. split.
  - intros H. destruct (execAll tableRowRe fullText) as [|m rows] eqn:E;
      [reflexivity|].
    exfalso. pose proof (rows_captures fullText) as Hc. rewrite E in Hc.
    inversion Hc as [|? ? Hm _]; subst. apply rowCapture_names in Hm.
    rewrite !lastWhere_cons in H.
    destruct (lastWhere namesGas rows); [discriminate|].
    destruct (lastWhere namesDiesel rows); [discriminate|].
    rewrite Hm in H. destruct (namesGas m); discriminate.
  - intros ->. reflexivity.
Qed.

Lemma advances_chain3 c c1 c2 c3 s1 s2 s3 :
  advances c c1 s1 -> advances c1 c2 s2 -> advances c2 c3 s3 ->
  advances c c3 (s1 ++ s2 ++ s3).
Proof. intros. repeat (eapply advances_trans; [eassumption|]). assumption. Qed.

(** A match of [re_updown_num]: the word at the start of the text, white
    space, and a text of digits and dots. *)
Lemma updown_shape c c' cs' :
  Sem re_updown_num c [] c' cs' ->
  exists d ws tok,
    cs' = [(2, tok); (1, d)]
    /\ fst c = []
    /\ advances c c' (d ++ ws ++ tok)
    /\ (d = lit "up" \/ d = lit "down")
    /\ all isSpace ws /\ ws <> []
    /\ all isDigitOrDot tok /\ tok <> [].
Proof.
  unfold re_updown_num, sp. intros H. repeat sem_step; repeat fuse_group;
    do 3 eexists; (split; [reflexivity|]); (split; [reflexivity|]);
    (split; [eapply advances_chain3; eassumption|]);
    auto 10.
Qed.

Lemma exec_updown_token s m :
  exec re_updown_num s = Some m -> all isDigitOrDot (group 2 m).
Proof.
  unfold exec. destruct (search re_updown_num [] s) as [[c' cs']|] eqn:E;
    [|discriminate].
  intros H. inv H. apply search_sound in E as (pre & a0 & _ & S1 & _).
  apply updown_shape in S1 as (d & ws & tok & -> & _ & _ & _ & _ & _ & Ht & _).
  exact Ht.
Qed.

(** What [parseAdjustment] returns: a known direction or null; a magnitude
    that is null or not negative; and 0 with no-change. *)
Lemma parseAdjustment_invariant adj :
  adjustmentOk (adj_adjustment (parseAdjustment adj))
  /\ (adj_direction (parseAdjustment adj) = S_ "no-change" ->
      adj_adjustment (parseAdjustment adj) = VNum (Fin 0%Q))
  /\ In (adj_direction (parseAdjustment adj))
        [S_ "up"; S_ "down"; S_ "no-change"; VNull].
Proof.
  unfold parseAdjustment.
  destruct (test re_nochange (toLowerCase (trim adj))).
  - simpl. repeat split; auto.
    right. exists (Fin 0%Q). split; [reflexivity | simpl; apply Qle_refl].
  - destruct (exec re_updown_num (toLowerCase (trim adj))) as [m|] eqn:E.
    + apply exec_updown_token in E. simpl. split; [|split].
      * right. eexists. split; [reflexivity|].
        apply NumberFacts.parseFloat_digdot. exact E.
      * destruct (jstr_eqb _ _); intros H; vm_compute in H; discriminate H.
      * destruct (jstr_eqb _ _); simpl; auto.
    + destruct (test re_up (toLowerCase (trim adj)));
        [|destruct (test re_down (toLowerCase (trim adj)))]; simpl;
        (split; [left; reflexivity
                | split; [intros H; vm_compute in H; discriminate H | auto 6]]).
Qed.

Lemma rowSlot_invariant m :
  adjustmentOk (adjustment (rowSlot m))
  /\ (direction (rowSlot m) = S_ "no-change" ->
      adjustment (rowSlot m) = VNum (Fin 0%Q)).
Proof.
  unfold rowSlot. simpl.
  destruct (parseAdjustment_invariant (group 2 m)) as (H1 & H2 & _).
  split; assumption.
Qed.

(** The price of a row: null when the third cell is no number. *)
Lemma rowSlot_price m :
  price (rowSlot m)
  = match parseFloat (group 3 m) with
    | NaN => VNull
    | raw => VNum (priceInDollars raw)
    end.
Proof.
  unfold rowSlot. cbn [price].
  destruct (parseFloat (group 3 m)) as [| | |v]; try reflexivity.
  unfold priceInDollars, num_div_pos.
  destruct (num_gt (Fin v) (Fin 10)); [|reflexivity].
  destruct (round64 (v / 100)) eqn:Er; try reflexivity.
  exfalso. exact (@NumberFacts.round64_number _ Er).
Qed.

Lemma parseRedditPost_table post :
  execAll tableRowRe (fullTextOf post) <> [] ->
  parseRedditPost post =
  {| gas := option_map rowSlot
              (lastWhere namesGas (execAll tableRowRe (fullTextOf post)));
     diesel := option_map rowSlot
                 (lastWhere namesDiesel (execAll tableRowRe (fullTextOf post)));
     notes := extractNotes (selftextOf post) |}.
Proof.
  intros Hne. unfold parseRedditPost.
  pose proof (tableStrategy_none (fullTextOf post)) as Hn.
  rewrite tableStrategy_last in *.
  destruct (option_map rowSlot (lastWhere namesGas _)) as [g|] eqn:Eg;
    [reflexivity|].
  destruct (option_map rowSlot (lastWhere namesDiesel _)) as [d|] eqn:Ed;
    [reflexivity|].
  exfalso. apply Hne. apply Hn. reflexivity.
Qed.

Lemma parseRedditPost_freeText post :
  execAll tableRowRe (fullTextOf post) = [] ->
  parseRedditPost post =
  {| gas := fst (freeTextStrategy (fullTextOf post));
     diesel := snd (freeTextStrategy (fullTextOf post));
     notes := extractNotes (selftextOf post) |}.
Proof.
  intros He. unfold parseRedditPost.
  apply tableStrategy_none in He. rewrite He.
  destruct (freeTextStrategy (fullTextOf post)); reflexivity.
Qed.

Lemma startsWith_spec w : forall s,
  startsWith w s = true <-> exists rest, s = w ++ rest.
Proof.
  induction w as [|a w IH]; intros s; simpl.
  - split; [intros _; exists s; reflexivity | reflexivity].
  - destruct s as [|b s].
    + split; [discriminate | intros [rest H]; discriminate].
    + rewrite andb_true_iff, Ascii.eqb_eq, IH. split.
      * intros [-> [rest ->]]. exists rest. reflexivity.
      * intros [rest H]. inv H. split; [reflexivity | exists rest; reflexivity].
Qed.


(** [/w/.test(s)] for a literal [w] is [s.includes(w)]. *)
Lemma test_Lit w s : test (Lit w) s = true <-> occursIn w s.
Proof.
  rewrite test_spec. split.
  - intros (pre & a0 & d & ds & -> & H). apply Sem_Lit in H as [_ [_ A]].
    simpl in A. exists pre, (snd d). rewrite A. reflexivity.
  - intros (pre & post & ->).
    exists pre, (w ++ post), (rev w ++ rev pre, post), [].
    split; [reflexivity | apply Sem_Lit_intro].
Qed.

Lemma advances_chain4 c c1 c2 c3 c4 s1 s2 s3 s4 :
  advances c c1 s1 -> advances c1 c2 s2 -> advances c2 c3 s3 ->
  advances c3 c4 s4 -> advances c c4 (s1 ++ s2 ++ s3 ++ s4).
Proof. intros. repeat (eapply advances_trans; [eassumption|]). assumption. Qed.

Lemma advances_chain5 c c1 c2 c3 c4 c5 s1 s2 s3 s4 s5 :
  advances c c1 s1 -> advances c1 c2 s2 -> advances c2 c3 s3 ->
  advances c3 c4 s4 -> advances c4 c5 s5 ->
  advances c c5 (s1 ++ s2 ++ s3 ++ s4 ++ s5).
Proof. intros. repeat (eapply advances_trans; [eassumption|]). assumption. Qed.

Lemma price_shape c c' cs' :
  Sem priceRe c [] c' cs' ->
  exists t, cs' = [(1, t)] /\ isAmount t /\ advances c c' (lit "$" ++ t).
Proof.
  unfold priceRe, dg. intros H. repeat sem_step.
  - match goal with
    | A1 : advances ?c1 ?c2 ?ip, A2 : advances ?c2 ?c3 (lit "."),
      A3 : advances ?c3 ?c4 [?d1], A4 : advances ?c4 ?c5 [?d2],
      A5 : advances ?c5 ?c6 [?d3] |- _ =>
        pose proof (advances_chain5 A1 A2 A3 A4 A5) as N;
        exists (ip ++ lit "." ++ [d1; d2; d3])
    end.
    rewrite (advances_consumed N). split; [reflexivity|]. split.
    + do 2 eexists. split; [reflexivity|].
      repeat split; auto. repeat constructor; assumption.
    + eapply advances_trans; eassumption.
  - match goal with
    | A1 : advances ?c1 ?c2 ?ip, A2 : advances ?c2 ?c3 (lit "."),
      A3 : advances ?c3 ?c4 [?d1], A4 : advances ?c4 ?c5 [?d2] |- _ =>
        pose proof (advances_chain4 A1 A2 A3 A4) as N;
        exists (ip ++ lit "." ++ [d1; d2])
    end.
    rewrite (advances_consumed N). split; [reflexivity|]. split.
    + do 2 eexists. split; [reflexivity|].
      repeat split; auto. repeat constructor; assumption.
    + eapply advances_trans; eassumption.
Qed.

Lemma priceRe_consuming : consuming priceRe = true.
Proof. reflexivity. Qed.

Lemma price_tokens fullText :
  Forall isAmount (map (group 1) (execAll priceRe fullText)).
Proof.
  apply Forall_map. apply execLoop_Forall. intros c c' cs' H.
  apply price_shape in H as (t & -> & Ht & _). simpl. exact Ht.
Qed.

Lemma parseFloat_amount ip fp :
  all isDigit ip -> ip <> [] -> all isDigit fp -> fp <> [] ->
  parseFloat (ip ++ lit "." ++ fp)
  = round64 (scale10 (digitsVal (ip ++ fp)) (- Z.of_nat (length fp))).
Proof.
  intros Hip Hne Hfp Hnf.
  change (ip ++ lit "." ++ fp) with (ip ++ "."%char :: fp).
  set (s := ip ++ "."%char :: fp).
  assert (Htw : takeWhile isDigit s = ip)
    by (apply NumberFacts.takeWhile_app; [assumption | reflexivity]).
  assert (Hdw : dropWhile isDigit s = "."%char :: fp)
    by (apply NumberFacts.dropWhile_app; [assumption | reflexivity]).
  assert (Hfw : takeWhile isDigit fp = fp).
  { rewrite <- (app_nil_r fp) at 1.
    apply NumberFacts.takeWhile_app; [assumption | reflexivity]. }
  assert (Hfd : dropWhile isDigit fp = []).
  { rewrite <- (app_nil_r fp) at 1.
    apply NumberFacts.dropWhile_app; [assumption | reflexivity]. }
  assert (Hhead : exists a t, s = a :: t /\ isDigitOrDot a = true).
  { subst s. destruct ip as [|a ip]; [congruence|]. inv Hip.
    exists a, (ip ++ "."%char :: fp). split; [reflexivity|].
    unfold isDigitOrDot.
    match goal with Hd : isDigit a = true |- _ => rewrite Hd end. reflexivity. }
  destruct Hhead as (a & t & Hs & Ha).
  apply NumberFacts.digitOrDot_cases in Ha as (Hsp & Hm & Hp & Hi & _).
  assert (Hpf : parseFloat s = unsignedLiteral s).
  { unfold parseFloat, trimStart. rewrite Hs. simpl dropWhile.
    rewrite Hsp, Hm, Hp. reflexivity. }
  assert (Hinf : startsWith (lit "Infinity") s = false).
  { rewrite Hs. simpl. fold (eqc "I" a). rewrite Hi. reflexivity. }
  rewrite Hpf. unfold unsignedLiteral. rewrite Hinf, Htw, Hdw.
  change (eqc "." ".") with true. cbv iota. rewrite Hfw, Hfd.
  destruct ip; [congruence|]. reflexivity.
Qed.

Lemma parseFloat_digits ip :
  all isDigit ip -> ip <> [] -> parseFloat ip = round64 (digitsVal ip # 1)%Q.
Proof.
  intros Hip Hne.
  assert (Htw : takeWhile isDigit ip = ip).
  { rewrite <- (app_nil_r ip) at 1.
    apply NumberFacts.takeWhile_app; [assumption | reflexivity]. }
  assert (Hdw : dropWhile isDigit ip = []).
  { rewrite <- (app_nil_r ip) at 1.
    apply NumberFacts.dropWhile_app; [assumption | reflexivity]. }
  destruct ip as [|a t] eqn:Eip; [congruence|]. rewrite <- Eip in *.
  assert (Ha : isDigitOrDot a = true).
  { rewrite Eip in Hip. inv Hip. unfold isDigitOrDot.
    match goal with Hd : isDigit a = true |- _ => rewrite Hd end. reflexivity. }
  apply NumberFacts.digitOrDot_cases in Ha as (Hsp & Hm & Hp & Hi & _).
  assert (Hpf : parseFloat ip = unsignedLiteral ip).
  { unfold parseFloat, trimStart. rewrite Eip. simpl dropWhile.
    rewrite Hsp, Hm, Hp. reflexivity. }
  assert (Hinf : startsWith (lit "Infinity") ip = false).
  { rewrite Eip. simpl. fold (eqc "I" a). rewrite Hi. reflexivity. }
  rewrite Hpf. unfold unsignedLiteral. rewrite Hinf, Htw, Hdw.
  rewrite Eip. reflexivity.
Qed.

Lemma pickPrice_cases prices :
  pickPrice prices =
  match prices with
  | [] => VNull
  | [p] => VNum p
  | _ :: p :: _ => VNum p
  end.
Proof. destruct prices as [|p [|q r]]; reflexivity. Qed.


Lemma split_nonempty sep s : split sep s <> [].
Proof.
  destruct s as [|a s]; simpl; [discriminate|].
  destruct (Ascii.eqb a sep); [discriminate|].
  destruct (split sep s); discriminate.
Qed.

(** [s.split(sep).join(sep)] is [s]. *)
Lemma join_split sep s : join [sep] (split sep s) = s.
Proof.
  induction s as [|a s IH]; [reflexivity|]. simpl.
  pose proof (split_nonempty sep s) as Hne.
  destruct (Ascii.eqb a sep) eqn:E.
  - apply Ascii.eqb_eq in E. subst a.
    destruct (split sep s) eqn:Es; [congruence|].
    simpl in *. rewrite IH. reflexivity.
  - destruct (split sep s) as [|l ls] eqn:Es; [congruence|].
    destruct ls; simpl in *; congruence.
Qed.





(** White space at the ends. *)
Lemma dropWhile_pad p : forall ws s,
  all p ws -> dropWhile p (ws ++ s) = dropWhile p s.
Proof.
  induction ws as [|a ws IH]; intros s H; [reflexivity|].
  inversion H as [|? ? Ha Hws]; subst.
  cbn [app dropWhile]. rewrite Ha. apply IH. exact Hws.
Qed.

Lemma dropWhile_keep p : forall s t,
  dropWhile p s <> [] -> dropWhile p (s ++ t) = dropWhile p s ++ t.
Proof.
  induction s as [|a s IH]; intros t H; [contradiction H; reflexivity|].
  cbn [app dropWhile] in *. destruct (p a); [apply IH; exact H | reflexivity].
Qed.

Lemma dropWhile_none p : forall s, dropWhile p s = [] -> all p s.
Proof.
  induction s as [|a s IH]; intros H; [constructor|].
  cbn [dropWhile] in H. destruct (p a) eqn:E; [|discriminate H].
  constructor; [exact E | apply IH; exact H].
Qed.


Lemma all_rev p (s : jstr) : all p s -> all p (rev s).
Proof. unfold all. apply Forall_rev. Qed.

Lemma trimEnd_pad s ws : all isSpace ws -> trimEnd (s ++ ws) = trimEnd s.
Proof.
  intros H. unfold trimEnd. rewrite rev_app_distr.
  rewrite dropWhile_pad by (apply all_rev; exact H). reflexivity.
Qed.

Lemma trimEnd_spaces s : all isSpace s -> trimEnd s = [].
Proof.
  intros H. rewrite <- (app_nil_l s). rewrite trimEnd_pad by exact H. reflexivity.
Qed.

Lemma trim_pad ws1 s ws2 :
  all isSpace ws1 -> all isSpace ws2 -> trim (ws1 ++ s ++ ws2) = trim s.
Proof.
  intros H1 H2. unfold trim, trimStart.
  rewrite dropWhile_pad by exact H1.
  destruct (dropWhile isSpace s) as [|a r] eqn:E.
  - apply dropWhile_none in E.
    assert (Hall : all isSpace (s ++ ws2)) by (apply Forall_app; split; assumption).
    rewrite trimEnd_spaces; [reflexivity|].
    apply NumberFacts.dropWhile_all. exact Hall.
  - rewrite dropWhile_keep by (rewrite E; discriminate).
    rewrite E. apply trimEnd_pad. exact H2.
Qed.












(** [re_nochange] is the no-change pattern. *)
Lemma nochange_spec s : test re_nochange s = true <-> hasNoChange s.
Proof.
  rewrite test_spec. unfold hasNoChange. split.
  - intros (pre & a0 & d & ds & -> & H). unfold re_nochange in H.
    repeat sem_step.
    + match goal with
      | A1 : advances _ ?c1 (lit "no"), A2 : advances ?c1 ?c2 [?x],
        A3 : advances ?c2 _ (lit "change") |- _ =>
          pose proof (advances_chain3 A1 A2 A3) as [_ N]; exists pre, [x], (snd d)
      end.
      simpl in N. rewrite N. split; [reflexivity | right; eauto].
    + match goal with
      | A1 : advances _ ?c1 (lit "no"), A3 : advances ?c1 _ (lit "change") |- _ =>
          pose proof (advances_trans A1 A3) as [_ N]; exists pre, [], (snd d)
      end.
      simpl in N. rewrite N. split; [reflexivity | left; reflexivity].
  - intros (pre & sep & post & -> & Hsep).
    exists pre, (lit "no" ++ sep ++ lit "change" ++ post).
    exists (rev (lit "change") ++ rev sep ++ rev (lit "no") ++ rev pre, post), [].
    split; [reflexivity|]. unfold re_nochange, L.
    econstructor; [apply Sem_Lit_intro|].
    econstructor; [|apply Sem_Lit_intro].
    destruct Hsep as [-> | (x & -> & Hx)].
    + apply SemAltR. constructor.
    + apply SemAltL. simpl. constructor. exact Hx.
Qed.

Lemma standsAlone_spec w s :
  headIs isWordChar w = true -> headIs isWordChar (rev w) = true ->
  test (Wb +++ Lit w +++ Wb) s = true <-> standsAlone w s.
Proof.
  intros Hw Hr. rewrite test_spec. unfold standsAlone.
  assert (Hhead : forall post, headIs isWordChar (w ++ post) = true).
  { intros post. destruct w; [discriminate | exact Hw]. }
  assert (Hlast : forall pre, headIs isWordChar (rev w ++ pre) = true).
  { intros pre. destruct (rev w); [discriminate | exact Hr]. }
  split.
  - intros (pre & a0 & d & ds & -> & H). repeat sem_step.
    match goal with
    | S1 : Sem (Lit w) _ _ _ _ |- _ => apply Sem_Lit in S1 as [_ [A1 A2]]
    end.
    simpl in A1, A2. destruct d as [b a]. simpl in *. subst.
    exists pre, a. split; [reflexivity|].
    repeat match goal with
           | Hb : atWordBoundary _ = true |- _ =>
               unfold atWordBoundary in Hb; simpl in Hb;
               rewrite ?Hhead, ?Hlast in Hb
           end.
    split.
    + destruct (headIs isWordChar (rev pre)); [discriminate | reflexivity].
    + destruct (headIs isWordChar a);
        [destruct (headIs isWordChar (rev pre)); discriminate | reflexivity].
  - intros (pre & post & -> & Hb & Ha).
    exists pre, (w ++ post), (rev w ++ rev pre, post), [].
    split; [reflexivity|].
    econstructor; [constructor|econstructor; [apply Sem_Lit_intro|constructor]];
      unfold atWordBoundary; simpl; rewrite ?Hhead, ?Hlast, ?Hb, ?Ha; reflexivity.
Qed.

(** On the word, white space and a text of digits and dots the expression
    captures the word and all of the text. *)
Lemma updown_exec d tok s :
  d = lit "up" \/ d = lit "down" -> wordThenToken d tok s ->
  exec re_updown_num s = Some [(2, tok); (1, d)].
Proof.
  intros Hd (ws & rest & -> & Hws & Hwne & Htok & Htne & Hrest).
  assert (Hsp : headIs isSpace (tok ++ rest) = false).
  { destruct tok as [|t0 tok]; [congruence|]. inv Htok. simpl.
    match goal with Ht : isDigitOrDot t0 = true |- _ =>
      apply NumberFacts.digitOrDot_cases in Ht as (Hs & _) end.
    exact Hs. }
  assert (Hrun : forall b cs,
            rmatch (Plus sp +++ Grp 2 (Plus (Cls isDigitOrDot))) accept
              (b, ws ++ tok ++ rest) cs
            = Some ((rev tok ++ rev ws ++ b, rest), (2, tok) :: cs)).
  { intros b cs. rewrite rmatch_Seq. unfold sp.
    apply rmatch_PlusCls_greedy; auto.
    rewrite rmatch_Grp. apply rmatch_PlusCls_greedy; auto.
    unfold accept. rewrite consumed_run. reflexivity. }
  assert (Hm : rmatch re_updown_num accept ([], d ++ ws ++ tok ++ rest) []
               = Some ((rev tok ++ rev ws ++ rev d ++ [], rest),
                       [(2, tok); (1, d)])).
  { unfold re_updown_num.
    rewrite rmatch_Seq, rmatch_Bol_start, rmatch_Seq, rmatch_Grp, rmatch_Alt.
    destruct Hd as [-> | ->]; unfold L.
    - rewrite rmatch_Lit, Hrun, consumed_run. reflexivity.
    - assert (Hup : forall K a cs,
                rmatch (Lit (lit "up")) K ([], lit "down" ++ a) cs = None).
      { intros K a cs.
        apply (@rmatch_Lit_other "u" (lit "p") "d" (lit "own" ++ a)).
        discriminate. }
      rewrite Hup, rmatch_Lit, Hrun, consumed_run. reflexivity. }
  unfold exec. rewrite (search_here _ _ _ Hm). reflexivity.
Qed.

(** A text of digits and dots that begins with a numeral (digits, or
    digits, a point and digits, not both empty) reads as a number that is
    not negative; one that begins with a point and no digit reads as NaN. *)
Lemma parseFloat_no_numeral tok :
  headIs isDigit tok = false -> all isDigitOrDot tok ->
  (forall t, tok = "."%char :: t -> headIs isDigit t = false) ->
  parseFloat tok = NaN.
Proof.
  intros Hd Hall Hdot. destruct tok as [|a t]; [reflexivity|].
  simpl in Hd. pose proof Hall as Hall'. inv Hall'.
  match goal with Ha : isDigitOrDot a = true |- _ =>
    apply NumberFacts.digitOrDot_cases in Ha as (_ & _ & _ & _ & _ & _ & Hpt) end.
  specialize (Hpt Hd). apply Ascii.eqb_eq in Hpt. subst a.
  specialize (Hdot t eq_refl).
  destruct t as [|b t]; [reflexivity|]. simpl in Hdot.
  change (parseFloat ("."%char :: b :: t))
    with (unsignedLiteral ("."%char :: b :: t)).
  unfold unsignedLiteral.
  change (startsWith (lit "Infinity") ("."%char :: b :: t)) with false.
  change (takeWhile isDigit ("."%char :: b :: t)) with (@nil ascii).
  change (dropWhile isDigit ("."%char :: b :: t)) with ("."%char :: b :: t).
  change (eqc "." ".") with true. cbv iota.
  change (takeWhile isDigit (b :: t)) with (if isDigit b then b :: takeWhile isDigit t else []).
  rewrite Hdot. reflexivity.
Qed.

Lemma takeWhile_dropWhile p s : takeWhile p s ++ dropWhile p s = s.
Proof.
  induction s as [|a s IH]; simpl; [reflexivity|].
  destruct (p a); simpl; [rewrite IH|]; reflexivity.
Qed.

(** A match of [re_updown_num] is at the start of a text of that form. *)
Lemma updown_matched s m :
  exec re_updown_num s = Some m ->
  exists d tok, (d = lit "up" \/ d = lit "down") /\ wordThenToken d tok s.
Proof.
  unfold exec. destruct (search re_updown_num [] s) as [[c' cs']|] eqn:E;
    [|discriminate].
  intros _. apply search_sound in E as (pre & a0 & -> & S1 & _).
  apply updown_shape in S1
    as (d & ws & tok & _ & Hb & [_ A] & Hd & Hws & Hwne & Htok & Htne).
  simpl in Hb, A. rewrite app_nil_r in Hb.
  apply (f_equal (@rev ascii)) in Hb. rewrite rev_involutive in Hb.
  simpl in Hb. subst pre. simpl.
  exists d, (tok ++ takeWhile isDigitOrDot (snd c')). split; [exact Hd|].
  exists ws, (dropWhile isDigitOrDot (snd c')). split; [|split; [|split; [|split; [|split]]]].
  - rewrite A, <- !app_assoc, takeWhile_dropWhile. reflexivity.
  - exact Hws.
  - exact Hwne.
  - apply Forall_app. split; [exact Htok | apply NumberFacts.takeWhile_all].
  - destruct tok; [congruence | discriminate].
  - apply NumberFacts.dropWhile_head.
Qed.

(** The four cases of [parseAdjustment] on the lower-cased, trimmed
    phrase: the no-change pattern; else the word up or down, white space
    and a text of digits and dots, which [parseFloat] reads; else the word
    up, else the word down, standing alone; else nothing. *)
Lemma parseAdjustment_spec adj :
  let s := toLowerCase (trim adj) in
  (hasNoChange s ->
   parseAdjustment adj
   = {| adj_direction := S_ "no-change"; adj_adjustment := VNum (Fin 0%Q) |})
  /\ (~ hasNoChange s ->
      forall d tok, d = lit "up" \/ d = lit "down" -> wordThenToken d tok s ->
      parseAdjustment adj
      = {| adj_direction := VStr d; adj_adjustment := VNum (parseFloat tok) |})
  /\ (~ hasNoChange s ->
      (forall d tok, d = lit "up" \/ d = lit "down" -> ~ wordThenToken d tok s) ->
      (standsAlone (lit "up") s ->
       parseAdjustment adj
       = {| adj_direction := S_ "up"; adj_adjustment := VNull |})
      /\ (~ standsAlone (lit "up") s -> standsAlone (lit "down") s ->
          parseAdjustment adj
          = {| adj_direction := S_ "down"; adj_adjustment := VNull |})
      /\ (~ standsAlone (lit "up") s -> ~ standsAlone (lit "down") s ->
          parseAdjustment adj
          = {| adj_direction := VNull; adj_adjustment := VNull |})).
Proof.
  intros s. unfold parseAdjustment. fold s.
  pose proof (nochange_spec s) as Hnc.
  pose proof (@standsAlone_spec (lit "up") s eq_refl eq_refl) as Hup.
  pose proof (@standsAlone_spec (lit "down") s eq_refl eq_refl) as Hdown.
  fold (L "up") in Hup. fold re_up in Hup.
  fold (L "down") in Hdown. fold re_down in Hdown.
  split; [|split].
  - intros H. apply Hnc in H. rewrite H. reflexivity.
  - intros Hn d tok Hd Hw.
    destruct (test re_nochange s); [exfalso; apply Hn, Hnc; reflexivity|].
    rewrite (updown_exec Hd Hw). simpl group.
    destruct Hd as [-> | ->]; reflexivity.
  - intros Hn Hnone.
    destruct (test re_nochange s); [exfalso; apply Hn, Hnc; reflexivity|].
    destruct (exec re_updown_num s) as [m|] eqn:E.
    { exfalso. apply updown_matched in E as (d & tok & Hd & Hw).
      exact (Hnone d tok Hd Hw). }
    split; [|split].
    + intros H. apply Hup in H. rewrite H. reflexivity.
    + intros H1 H2. apply Hdown in H2. rewrite H2.
      destruct (test re_up s); [exfalso; apply H1, Hup; reflexivity|].
      reflexivity.
    + intros H1 H2.
      destruct (test re_up s); [exfalso; apply H1, Hup; reflexivity|].
      destruct (test re_down s); [exfalso; apply H2, Hdown; reflexivity|].
      reflexivity.
Qed.

End ParserFacts.

Import RegexFacts NumberFacts ParserFacts.

(** ** The claims about the parser *)

(** C3 (the code departs from the claim): the phrase [up .] holds no
    no-change pattern and no number, and the word up stands alone in it, so
    the claim has the direction up with the adjustment null; but the phrase
    is also the word up, white space and the text [.] of digits and dots,
    which [parseFloat] reads as NaN, and [parseAdjustment] returns the
    direction up with the adjustment NaN. *)
Theorem C3_parseAdjustment_up_dot :
  let s := toLowerCase (trim (lit "up .")) in
  ~ hasNoChange s
  /\ standsAlone (lit "up") s
  /\ wordThenToken (lit "up") (lit ".") s
  /\ parseFloat (lit ".") = NaN
  /\ parseAdjustment (lit "up .")
     = {| adj_direction := S_ "up"; adj_adjustment := VNum NaN |}.
Proof.
  intros s. split; [|split; [|split; [|split]]].
  - intros H. apply nochange_spec in H. vm_compute in H. discriminate H.
  - exists [], (lit " ."). repeat split.
  - exists (lit " "), []. repeat split; try discriminate; repeat constructor.
  - reflexivity.
  - vm_compute. reflexivity.
Qed.

Example parseAdjustment_UP_3_6 :
  parseAdjustment (lit "UP 3.6")
  = {| adj_direction := S_ "up"; adj_adjustment := VNum (round64 (36 # 10)) |}.
Proof. vm_compute. reflexivity. Qed.

Example parseAdjustment_NO_CHANGE :
  parseAdjustment (lit "NO CHANGE")
  = {| adj_direction := S_ "no-change"; adj_adjustment := VNum (Fin 0%Q) |}
  /\ parseAdjustment (lit "NO-CHANGE") = parseAdjustment (lit "NO CHANGE").
Proof. split; vm_compute; reflexivity. Qed.

Example parseAdjustment_bare :
  parseAdjustment (lit "up")
  = {| adj_direction := S_ "up"; adj_adjustment := VNull |}
  /\ parseAdjustment (lit "xyz")
     = {| adj_direction := VNull; adj_adjustment := VNull |}.
Proof. split; vm_compute; reflexivity. Qed.




Example parseRedditPost_table_example :
  parseRedditPost
    {| title := lit "Gas prices this week";
       selftext := Some (lit "|Regular| UP 3.6 |162.1|" ++ ["010"%char]
                         ++ lit "|Diesel| DOWN 0.7 |154.4|") |}
  = {| gas := Some {| direction := S_ "up";
                      adjustment := VNum (round64 (36 # 10));
                      price := VNum (round64 (1621 # 1000)) |};
       diesel := Some {| direction := S_ "down";
                         adjustment := VNum (round64 (7 # 10));
                         price := VNum (round64 (1544 # 1000)) |};
       notes := None |}.
Proof. vm_compute. reflexivity. Qed.

(** C5: when the table expression matches no row, the slot of the result
    comes from the free text: the dollar amounts are the matches of the
    price expression read from left to right, each of digits, a point and two
    or three digits; the price is the second amount when there are two or
    more, the only amount when there is one, null when there is none; the
    adjustment is null. *)
Theorem C5_free_text_price (post : Post) :
  execAll tableRowRe (fullTextOf post) = [] ->
  let tokens := map (group 1) (execAll priceRe (fullTextOf post)) in
  Scan priceRe ([], fullTextOf post) (execAll priceRe (fullTextOf post))
  /\ Forall isAmount tokens
  /\ exists slot,
       ((gas (parseRedditPost post) = Some slot
         /\ diesel (parseRedditPost post) = None)
        \/ (gas (parseRedditPost post) = None
            /\ diesel (parseRedditPost post) = Some slot))
       /\ adjustment slot = VNull
       /\ price slot = match tokens with
                       | [] => VNull
                       | [t] => VNum (parseFloat t)
                       | _ :: t :: _ => VNum (parseFloat t)
                       end.
Proof.
  intros He tokens. split; [|split].
  - apply execAll_Scan. reflexivity.
  - apply price_tokens.
  - rewrite (parseRedditPost_freeText post He).
    exists (freeTextSlot (fullTextOf post)). split; [|split].
    + unfold freeTextStrategy.
      destruct (test re_diesel (toLowerCase (fullTextOf post))); simpl; auto.
    + reflexivity.
    + simpl. rewrite pickPrice_cases. unfold freeTextPrices. subst tokens.
      destruct (execAll priceRe (fullTextOf post)) as [|m1 [|m2 ms]];
        reflexivity.
Qed.

Lemma C5_witness :
  let post := {| title := lit "Gas: $1.659/L to $1.719/L"; selftext := Some [] |} in
  execAll tableRowRe (fullTextOf post) = []
  /\ exists slot,
       gas (parseRedditPost post) = Some slot
       /\ adjustment slot = VNull
       /\ price slot = VNum (round64 (1719 # 1000)).
Proof.
  intros post.
  assert (He : execAll tableRowRe (fullTextOf post) = [])
    by (vm_compute; reflexivity).
  split; [exact He|].
  destruct (C5_free_text_price post He) as (_ & _ & slot & Hs & Ha & Hp).
  exists slot. destruct Hs as [[Hg _] | [Hg _]].
  - split; [exact Hg|]. split; [exact Ha|]. rewrite Hp. vm_compute. reflexivity.
  - exfalso. vm_compute in Hg. discriminate Hg.
Defined.

(** The value of a dollar amount: [parseFloat] reads all of it, as the
    binary64 value nearest to the decimal text. *)
Lemma amount_value t :
  isAmount t ->
  exists ip fp,
    t = ip ++ lit "." ++ fp
    /\ parseFloat t
       = round64 (scale10 (digitsVal (ip ++ fp)) (- Z.of_nat (length fp)))
    /\ notNegative (parseFloat t) /\ parseFloat t <> NaN.
Proof.
  intros (ip & fp & -> & Hip & Hne & Hfp & Hlen). exists ip, fp.
  split; [reflexivity|].
  assert (Hf : fp <> []) by (destruct fp; [simpl in Hlen; lia | discriminate]).
  rewrite parseFloat_amount by auto.
  split; [reflexivity|]. apply round64_sign. apply scale10_nonneg.
  apply digitsVal_nonneg. apply Forall_app. split; assumption.
Qed.

(** A binary64 value is below [2^1024]. *)
Lemma binary64_bound v : isBinary64 v -> (v < 2 ^ 1024)%Q.
Proof.
  intros (m & k & Hm & Hk & E). rewrite E. unfold bin.
  destruct (Z_le_gt_dec m 0) as [Hneg | Hpos].
  - apply Qle_lt_trans with 0%Q; [|reflexivity].
    setoid_replace 0%Q with (0 * 2 ^ k)%Q by ring.
    apply Qmult_le_compat_r;
      [change 0%Q with (inject_Z 0); rewrite <- Zle_Qle; exact Hneg
      | apply Qlt_le_weak; apply RoundingFacts.P_pos].
  - apply Qlt_le_trans with (2 ^ 53 * 2 ^ k)%Q.
    + apply Qmult_lt_compat_r; [apply RoundingFacts.P_pos|].
      rewrite <- (RoundingFacts.P_inject 53) by lia. rewrite <- Zlt_Qlt. lia.
    + rewrite <- RoundingFacts.P_plus. apply RoundingFacts.P_le. lia.
Qed.

(** C6: the price of a table row is the number divided by 100 when it is
    greater than 10 and the number itself when it is at most 10.  The
    quotient is the binary64 one: the binary64 value nearest to the exact
    quotient, the one with the even significand when two are equally near;
    a finite binary64 number stays finite.  This holds of every number the
    third cell can give: of a finite one, and of Infinity, which is
    greater than 10 and is its own hundredth; NaN, which is neither greater
    than 10 nor at most 10, stays NaN and yields the price null. *)
Theorem C6_price_normalization :
  (forall v : Q,
      ((10 < v)%Q -> priceInDollars (Fin v) = round64 (v / 100)%Q)
      /\ ((v <= 10)%Q -> priceInDollars (Fin v) = Fin v))
  /\ (forall v : Q, (10 < v)%Q ->
        match priceInDollars (Fin v) with
        | Fin r =>
            isBinary64 r
            /\ (forall r', isBinary64 r' ->
                           (Qabs (v / 100 - r) <= Qabs (v / 100 - r'))%Q)
            /\ (forall r', isBinary64 r' ->
                           (Qabs (v / 100 - r) == Qabs (v / 100 - r'))%Q ->
                           (r' == r)%Q \/ isEven64 r)
        | PosInf => (2 ^ 1024 - 2 ^ 970 <= v / 100)%Q
        | _ => False
        end)
  /\ (forall v : Q, isBinary64 v -> exists r, priceInDollars (Fin v) = Fin r)
  /\ priceInDollars PosInf = PosInf
  /\ priceInDollars NegInf = NegInf
  /\ priceInDollars NaN = NaN
  /\ (forall m, isRowCapture m ->
        notNegative (parseFloat (group 3 m))
        /\ price (rowSlot m)
           = match parseFloat (group 3 m) with
             | NaN => VNull
             | raw => VNum (priceInDollars raw)
             end).
Proof.
  assert (Hfin : forall v : Q,
             ((10 < v)%Q -> priceInDollars (Fin v) = round64 (v / 100)%Q)
             /\ ((v <= 10)%Q -> priceInDollars (Fin v) = Fin v)).
  { intros v. unfold priceInDollars, num_gt, num_div_pos. split; intros H.
    - destruct (Qle_bool v 10) eqn:E; [|reflexivity].
      apply Qle_bool_iff in E. exfalso. exact (Qlt_not_le _ _ H E).
    - apply Qle_bool_iff in H. rewrite H. reflexivity. }
  assert (Hnear : forall v : Q, (10 < v)%Q ->
            match priceInDollars (Fin v) with
            | Fin r =>
                isBinary64 r
                /\ (forall r', isBinary64 r' ->
                               (Qabs (v / 100 - r) <= Qabs (v / 100 - r'))%Q)
                /\ (forall r', isBinary64 r' ->
                               (Qabs (v / 100 - r) == Qabs (v / 100 - r'))%Q ->
                               (r' == r)%Q \/ isEven64 r)
            | PosInf => (2 ^ 1024 - 2 ^ 970 <= v / 100)%Q
            | _ => False
            end).
  { intros v Hv. rewrite (proj1 (Hfin v) Hv).
    pose proof (RoundingFacts.round64_nearest (v / 100)%Q) as H.
    destruct (round64 (v / 100)) as [| | |r]; try exact H.
    - assert (H0 : (0 < v / 100)%Q).
      { apply Qlt_shift_div_l; [reflexivity|]. rewrite Qmult_0_l.
        apply Qlt_trans with 10%Q; [reflexivity | exact Hv]. }
      assert (Hbig : (0 < 2 ^ 1024 - 2 ^ 970)%Q) by (vm_compute; reflexivity).
      set (big := (2 ^ 1024 - 2 ^ 970)%Q) in *. clearbody big. lra.
    - destruct H as (H1 & _ & _ & H4 & H5). split; [exact H1|].
      split; assumption. }
  split; [exact Hfin|]. split; [exact Hnear|]. split.
  { intros v Hb. destruct (Qlt_le_dec 10 v) as [Hv | Hv].
    - specialize (Hnear v Hv).
      destruct (priceInDollars (Fin v)) as [| | |r];
        [destruct Hnear | | destruct Hnear | exists r; reflexivity].
      exfalso. apply binary64_bound in Hb.
      assert (Hc : (2 ^ 1024 / 100 < 2 ^ 1024 - 2 ^ 970)%Q)
        by (vm_compute; reflexivity).
      assert (Hd : (v / 100 < 2 ^ 1024 / 100)%Q).
      { apply Qmult_lt_compat_r; [reflexivity | exact Hb]. }
      set (big := (2 ^ 1024 - 2 ^ 970)%Q) in *.
      set (top := (2 ^ 1024 / 100)%Q) in *.
      set (q := (v / 100)%Q) in *. clearbody big top q. lra.
    - exists v. apply (proj2 (Hfin v) Hv). }
  do 3 (split; [reflexivity|]).
  intros m (ty & adj & pr & -> & _ & _ & _ & Hpr & _).
  split; [apply parseFloat_digdot; exact Hpr | apply rowSlot_price].
Qed.

(** 162.1 cents are 1.621 dollars: the binary64 value nearest to 162.1,
    divided by 100, is the binary64 value nearest to 1.621; and 10 stays. *)
Lemma C6_witness :
  parseFloat (lit "162.1") = Fin (5703386715599667 # 35184372088832)
  /\ priceInDollars (parseFloat (lit "162.1"))
     = Fin (3650167497983787 # 2251799813685248)
  /\ parseFloat (lit "1.621") = Fin (3650167497983787 # 2251799813685248)
  /\ parseFloat (lit "10") = Fin 10%Q
  /\ priceInDollars (parseFloat (lit "10")) = Fin 10%Q.
Proof.
  assert (H1 : parseFloat (lit "162.1") = Fin (5703386715599667 # 35184372088832))
    by (vm_compute; reflexivity).
  assert (H2 : parseFloat (lit "10") = Fin 10%Q) by (vm_compute; reflexivity).
  split; [exact H1|]. split; [|split; [vm_compute; reflexivity|]].
  - rewrite H1.
    rewrite (proj1 (proj1 C6_price_normalization
                      (5703386715599667 # 35184372088832)%Q) eq_refl).
    vm_compute. reflexivity.
  - split; [exact H2|]. rewrite H2.
    apply (proj2 (proj1 C6_price_normalization 10%Q)). discriminate.
Defined.

(** 162.3 cents are 1.6230000000000002 dollars: the quotient of the
    binary64 value of 162.3 by 100, rounded, is the value next above that of
    1.623.  A third cell that is 10 to binary64 stays, and one too large for
    binary64 is Infinity and stays so. *)
Example price_rounded :
  priceInDollars (parseFloat (lit "162.3"))
  = Fin (1827335548805579 # 1125899906842624)
  /\ parseFloat (lit "1.6230000000000002")
     = Fin (1827335548805579 # 1125899906842624)
  /\ parseFloat (lit "1.623") = Fin (7309342195222315 # 4503599627370496)
  /\ priceInDollars (parseFloat (lit "10.000000000000000001")) = Fin 10%Q
  /\ parseFloat (repeat "9"%char 310) = PosInf
  /\ priceInDollars (parseFloat (repeat "9"%char 310)) = PosInf.
Proof.
  repeat split; vm_compute; reflexivity.
Qed.



Example notes_truncated :
  option_map (@length ascii) (extractNotes (repeat "a"%char 600)) = Some 500.
Proof. vm_compute. reflexivity. Qed.

(** C10: the result always has a slot: when no row matches, the free
    text fills the diesel slot alone if the lower-cased text holds the word
    diesel and the gas slot alone otherwise, whatever the fields of the slot
    are. *)
Theorem C10_one_slot_assigned (post : Post) :
  (gas (parseRedditPost post) <> None \/ diesel (parseRedditPost post) <> None)
  /\ (execAll tableRowRe (fullTextOf post) = [] ->
      (occursIn (lit "diesel") (toLowerCase (fullTextOf post)) ->
       gas (parseRedditPost post) = None
       /\ diesel (parseRedditPost post) = Some (freeTextSlot (fullTextOf post)))
      /\ (~ occursIn (lit "diesel") (toLowerCase (fullTextOf post)) ->
          gas (parseRedditPost post) = Some (freeTextSlot (fullTextOf post))
          /\ diesel (parseRedditPost post) = None)).
Proof.
  assert (Hfree : execAll tableRowRe (fullTextOf post) = [] ->
    (occursIn (lit "diesel") (toLowerCase (fullTextOf post)) ->
     gas (parseRedditPost post) = None
     /\ diesel (parseRedditPost post) = Some (freeTextSlot (fullTextOf post)))
    /\ (~ occursIn (lit "diesel") (toLowerCase (fullTextOf post)) ->
        gas (parseRedditPost post) = Some (freeTextSlot (fullTextOf post))
        /\ diesel (parseRedditPost post) = None)).
  { intros He. rewrite (parseRedditPost_freeText post He).
    unfold freeTextStrategy, re_diesel, L.
    destruct (test (Lit (lit "diesel")) (toLowerCase (fullTextOf post))) eqn:E;
      cbn [fst snd gas diesel]; split; intros H; auto.
    - exfalso. apply H. apply test_Lit. exact E.
    - apply test_Lit in H. congruence. }
  split; [|exact Hfree].
  destruct (execAll tableRowRe (fullTextOf post)) as [|m rows] eqn:E.
  - destruct (Hfree eq_refl) as [H1 H2].
    destruct (test (Lit (lit "diesel")) (toLowerCase (fullTextOf post))) eqn:Et.
    + right. apply test_Lit in Et. destruct (H1 Et) as [_ ->]. discriminate.
    + left. assert (Hn : ~ occursIn (lit "diesel") (toLowerCase (fullTextOf post)))
        by (intros Ho; apply test_Lit in Ho; congruence).
      destruct (H2 Hn) as [-> _]. discriminate.
  - assert (Hne : execAll tableRowRe (fullTextOf post) <> [])
      by (rewrite E; discriminate).
    pose proof (rows_captures (fullTextOf post)) as Hc.
    rewrite (parseRedditPost_table post Hne). cbn [gas diesel].
    rewrite E in *. inversion Hc as [|? ? Hm _]; subst.
    apply rowCapture_names in Hm. rewrite !lastWhere_cons, Hm.
    destruct (namesGas m).
    + left. destruct (lastWhere namesGas rows); discriminate.
    + right. destruct (lastWhere namesDiesel rows); discriminate.
Qed.

Lemma C10_witness :
  let post := {| title := lit "Weekly thread"; selftext := None |} in
  execAll tableRowRe (fullTextOf post) = []
  /\ ~ occursIn (lit "diesel") (toLowerCase (fullTextOf post))
  /\ gas (parseRedditPost post)
     = Some {| direction := VNull; adjustment := VNull; price := VNull |}
  /\ diesel (parseRedditPost post) = None.
Proof.
  intros post.
  assert (He : execAll tableRowRe (fullTextOf post) = [])
    by (vm_compute; reflexivity).
  assert (Hn : ~ occursIn (lit "diesel") (toLowerCase (fullTextOf post))).
  { intros Ho. apply test_Lit in Ho. vm_compute in Ho. discriminate Ho. }
  split; [exact He|]. split; [exact Hn|].
  destruct (proj2 (proj2 (C10_one_slot_assigned post) He) Hn) as [Hg Hd].
  split; [rewrite Hg; vm_compute; reflexivity | exact Hd].
Defined.

(** ** The webhook and the MCP tool *)

Arguments includes : simpl never.
Arguments getProp : simpl never.
Arguments propOr : simpl never.
Arguments isStr : simpl never.
Arguments notANumber : simpl never.
Arguments presentNotANumber : simpl never.
Arguments isNullish : simpl never.
Arguments truthy : simpl never.
Arguments toJSON : simpl never.

Module WebhookFacts.
Import Webhook.

Lemma handle_reject nts req env now kv st e :
  checks req env = Reject st e ->
  handleWebhook nts req env now kv = (Response st (ErrorBody e), kv).
Proof. intros H. unfold handleWebhook. rewrite H. reflexivity. Qed.

Lemma checks_query_secret req env :
  hasParam "secret" (searchParams req) = true ->
  checks req env = Reject 400 UseBearerHeader.
Proof. intros H. unfold checks. rewrite H. reflexivity. Qed.

Lemma checks_unauthorized req env :
  hasParam "secret" (searchParams req) = false ->
  tokenRefused (bearerToken req) env = true ->
  checks req env = Reject 401 Unauthorized.
Proof. intros H1 H2. unfold checks. rewrite H1, H2. reflexivity. Qed.

Lemma checks_authorized req env body :
  hasParam "secret" (searchParams req) = false ->
  tokenRefused (bearerToken req) env = false ->
  json req = Some body ->
  checks req env = checkBody body.
Proof. intros H1 H2 H3. unfold checks. rewrite H1, H2, H3. reflexivity. Qed.

Lemma checkBody_legacy body :
  isNullish body = false ->
  getProp body "gas" = VUndefined -> getProp body "diesel" = VUndefined ->
  checkBody body = checkLegacy body (propOr body "notes" VNull).
Proof. intros H0 H1 H2. unfold checkBody. rewrite H0, H1, H2. reflexivity. Qed.

Lemma checkBody_dual body :
  isNullish body = false ->
  (getProp body "gas" <> VUndefined \/ getProp body "diesel" <> VUndefined) ->
  checkBody body
  = checkDual (getProp body "gas") (getProp body "diesel")
              (propOr body "notes" VNull).
Proof.
  intros H0 H. unfold checkBody. rewrite H0.
  destruct (getProp body "gas") eqn:Eg; try reflexivity.
  destruct (getProp body "diesel") eqn:Ed; try reflexivity.
  destruct H; congruence.
Qed.

Lemma truthy_defined v : truthy v = true -> v <> VUndefined.
Proof. intros H E. subst v. discriminate H. Qed.

(** A wrong or missing bearer token. *)
Lemma token_missing req env :
  authorization req = None -> tokenRefused (bearerToken req) env = true.
Proof. intros H. unfold bearerToken. rewrite H. reflexivity. Qed.

Lemma token_wrong req env t s :
  authorization req = Some (lit "Bearer " ++ t) ->
  WEBHOOK_SECRET env = Some s -> t <> s ->
  tokenRefused (bearerToken req) env = true.
Proof.
  intros H Hs Hne. unfold bearerToken. rewrite H.
  replace (startsWith (lit "Bearer ") (lit "Bearer " ++ t)) with true
    by (symmetry; apply ParserFacts.startsWith_spec; eauto).
  change (sliceFrom 7 (lit "Bearer " ++ t)) with t.
  unfold tokenRefused. destruct t; [reflexivity|]. rewrite Hs.
  destruct (jstr_eqb (a :: t) s) eqn:E; [|reflexivity].
  apply jstr_eqb_eq in E. congruence.
Qed.

Lemma validate_ok_no_fault slot name :
  validateFuelSlot slot name = None -> slotPriceFault slot = false.
Proof.
  unfold validateFuelSlot, slotPriceFault. destruct (truthy slot); [|reflexivity].
  simpl. destruct (includes VALID_DIRECTIONS (getProp slot "direction"));
    simpl; [|discriminate].
  destruct (negb (isNullish (getProp slot "price")) && notANumber (getProp slot "price"));
    [discriminate | reflexivity].
Qed.

Lemma validate_ok_direction slot name :
  validateFuelSlot slot name = None -> truthy slot = true ->
  includes VALID_DIRECTIONS (getProp slot "direction") = true.
Proof.
  unfold validateFuelSlot. intros H Ht. rewrite Ht in H. simpl in H.
  destruct (includes VALID_DIRECTIONS (getProp slot "direction"));
    [reflexivity | discriminate].
Qed.

(** What the checks have established when they pass. *)
Lemma checks_pass req env c :
  checks req env = Go c ->
  hasParam "secret" (searchParams req) = false
  /\ tokenRefused (bearerToken req) env = false
  /\ exists body, json req = Some body /\ isNullish body = false
       /\ checkBody body = Go c.
Proof.
  unfold checks. destruct (hasParam "secret" (searchParams req)); [discriminate|].
  destruct (tokenRefused (bearerToken req) env); [discriminate|]. simpl.
  destruct (json req) as [body|]; [|discriminate]. intros H.
  repeat split. exists body. repeat split; [|assumption].
  unfold checkBody in H. destruct (isNullish body); [discriminate | reflexivity].
Qed.

Lemma checkLegacy_pass body notes c :
  checkLegacy body notes = Go c ->
  includes VALID_DIRECTIONS (getProp body "direction") = true
  /\ includes ["gas"; "diesel"]%string (propOr body "fuel_type" (S_ "gas")) = true
  /\ notANumber (getProp body "predicted_price") = false
  /\ c = (let slot := {| direction := getProp body "direction";
                         adjustment := VNull;
                         price := getProp body "predicted_price" |} in
          if isStr "diesel" (propOr body "fuel_type" (S_ "gas"))
          then {| gas := None; diesel := Some slot; notes := notes |}
          else {| gas := Some slot; diesel := None; notes := notes |}).
Proof.
  unfold checkLegacy.
  destruct (includes VALID_DIRECTIONS (getProp body "direction")); [|discriminate].
  destruct (includes ["gas"; "diesel"]%string (propOr body "fuel_type" (S_ "gas")));
    [|discriminate].
  destruct (notANumber (getProp body "predicted_price")); [discriminate|].
  destruct (presentNotANumber (getProp body "current_price")); [discriminate|].
  simpl. intros H. repeat split.
  destruct (isStr "diesel" (propOr body "fuel_type" (S_ "gas"))); congruence.
Qed.

Lemma checkDual_pass g d notes c :
  checkDual g d notes = Go c ->
  validateFuelSlot g "gas" = None /\ validateFuelSlot d "diesel" = None
  /\ c = {| gas := slotOf g; diesel := slotOf d; notes := notes |}.
Proof.
  unfold checkDual. destruct (validateFuelSlot g "gas"); [discriminate|].
  destruct (validateFuelSlot d "diesel"); [discriminate|]. simpl.
  intros H. inversion H. repeat split.
Qed.

Lemma checkBody_cases body :
  isNullish body = false ->
  (getProp body "gas" = VUndefined /\ getProp body "diesel" = VUndefined
   /\ checkBody body = checkLegacy body (propOr body "notes" VNull))
  \/ ((getProp body "gas" <> VUndefined \/ getProp body "diesel" <> VUndefined)
      /\ checkBody body
         = checkDual (getProp body "gas") (getProp body "diesel")
                     (propOr body "notes" VNull)).
Proof.
  intros H0.
  destruct (getProp body "gas") eqn:Eg;
    try (right; split; [left; discriminate|];
         rewrite checkBody_dual, Eg; [reflexivity | assumption |];
         left; rewrite Eg; discriminate).
  destruct (getProp body "diesel") eqn:Ed;
    try (right; split; [right; discriminate|];
         rewrite checkBody_dual, Eg, Ed; [reflexivity | assumption |];
         right; rewrite Ed; discriminate).
  left. repeat split. apply checkBody_legacy; assumption.
Qed.

Lemma slotOf_some src slot :
  slotOf src = Some slot ->
  truthy src = true
  /\ slot = {| direction := getProp src "direction";
               adjustment := nullish_or (getProp src "adjustment") VNull;
               price := nullish_or (getProp src "price") VNull |}.
Proof.
  unfold slotOf. destruct (truthy src); [|discriminate].
  intros H. inversion H. split; reflexivity.
Qed.

(** A slot of an accepted submission. *)
Lemma accepted_slot req env c slot :
  checks req env = Go c ->
  gas c = Some slot \/ diesel c = Some slot ->
  includes VALID_DIRECTIONS (direction slot) = true
  /\ exists body,
       json req = Some body
       /\ ((getProp body "gas" = VUndefined
            /\ getProp body "diesel" = VUndefined
            /\ adjustment slot = VNull)
           \/ (exists src,
                 (src = getProp body "gas" \/ src = getProp body "diesel")
                 /\ truthy src = true
                 /\ adjustment slot
                    = nullish_or (getProp src "adjustment") VNull)).
Proof.
  intros Hc Hslot.
  apply checks_pass in Hc as (_ & _ & body & Hj & H0 & Hb).
  destruct (checkBody_cases body H0) as [(Hg & Hd & Hl) | (Hgd & Hdual)].
  - rewrite Hl in Hb. apply checkLegacy_pass in Hb as (Hdir & _ & _ & ->).
    assert (Hs : slot = {| direction := getProp body "direction";
                           adjustment := VNull;
                           price := getProp body "predicted_price" |}).
    { simpl in Hslot.
      destruct (isStr "diesel" (propOr body "fuel_type" (S_ "gas")));
        simpl in Hslot; destruct Hslot; congruence. }
    subst slot. split; [exact Hdir|]. exists body. split; [exact Hj|].
    left. repeat split; assumption.
  - rewrite Hdual in Hb. apply checkDual_pass in Hb as (Vg & Vd & ->).
    simpl in Hslot. destruct Hslot as [Hs | Hs];
      apply slotOf_some in Hs as [Ht ->]; simpl.
    + split; [eapply validate_ok_direction; eassumption|].
      exists body. split; [exact Hj|]. right. eauto.
    + split; [eapply validate_ok_direction; eassumption|].
      exists body. split; [exact Hj|]. right. eauto.
Qed.

Lemma getProp_here k v rest : getProp (VObj ((lit k, v) :: rest)) k = v.
Proof. unfold getProp. simpl. rewrite jstr_eqb_refl. reflexivity. Qed.

Lemma getProp_skip k k' v rest :
  jstr_eqb (lit k) k' = false ->
  getProp (VObj ((k', v) :: rest)) k = getProp (VObj rest) k.
Proof. intros H. unfold getProp. simpl. rewrite H. reflexivity. Qed.

Lemma propOr_defined body k d v :
  propOr body k d = v -> d <> VUndefined -> v <> VUndefined.
Proof.
  unfold propOr. intros H Hd. destruct (getProp body k); congruence.
Qed.

Lemma number_defined v : notANumber v = false -> nullish_or v VNull = v.
Proof. destruct v; try discriminate. reflexivity. Qed.

Lemma number_present v :
  notANumber v = false -> negb (isNullish v) && notANumber v = false.
Proof. intros ->. apply andb_false_r. Qed.

Lemma propOr_here k n rest d :
  n <> VUndefined -> propOr (VObj ((lit k, n) :: rest)) k d = n.
Proof.
  intros Hn. unfold propOr. rewrite getProp_here. destruct n; congruence.
Qed.

Lemma propOr_skip k k' v rest d :
  jstr_eqb (lit k) k' = false ->
  propOr (VObj ((k', v) :: rest)) k d = propOr (VObj rest) k d.
Proof. intros H. unfold propOr. rewrite getProp_skip by exact H. reflexivity. Qed.

(** The new-format body made of a legacy body passes the checks with the
    same slots and notes. *)
Lemma dual_of_legacy body c :
  checkLegacy body (propOr body "notes" VNull) = Go c ->
  checkBody (dualOf body) = Go c.
Proof.
  intros H. apply checkLegacy_pass in H as (Hdir & _ & Hnum & ->).
  unfold dualOf.
  set (d := getProp body "direction") in *.
  set (p := getProp body "predicted_price") in *.
  set (slot := VObj [(lit "direction", d); (lit "price", p)]).
  set (n := propOr body "notes" VNull).
  assert (Hn : forall k, jstr_eqb (lit "notes") k = false ->
               propOr (VObj [(k, slot); (lit "notes", n)]) "notes" VNull = n).
  { intros k Hk. rewrite propOr_skip by exact Hk. apply propOr_here.
    eapply propOr_defined; [reflexivity | discriminate]. }
  assert (Hv : forall name, validateFuelSlot slot name = None).
  { intros name. unfold validateFuelSlot. change (truthy slot) with true.
    change (getProp slot "direction") with d.
    change (getProp slot "price") with p.
    cbn [negb]. rewrite Hdir. cbn [negb].
    rewrite number_present by exact Hnum. reflexivity. }
  assert (Hs : slotOf slot
               = Some {| direction := d; adjustment := VNull; price := p |}).
  { unfold slotOf. change (truthy slot) with true.
    change (getProp slot "direction") with d.
    change (getProp slot "price") with p.
    change (getProp slot "adjustment") with VUndefined.
    rewrite (number_defined p Hnum). reflexivity. }
  unfold checkBody. change (isNullish (VObj _)) with false. cbv iota.
  destruct (isStr "diesel" (propOr body "fuel_type" (S_ "gas"))).
  - change (getProp (VObj [(lit "diesel", slot); (lit "notes", n)]) "gas")
      with VUndefined.
    change (getProp (VObj [(lit "diesel", slot); (lit "notes", n)]) "diesel")
      with slot.
    rewrite Hn by reflexivity. unfold slot at 1. cbv iota. fold slot.
    unfold checkDual. rewrite Hv.
    change (validateFuelSlot VUndefined "gas") with (@None ErrorText).
    simpl. rewrite Hs. reflexivity.
  - change (getProp (VObj [(lit "gas", slot); (lit "notes", n)]) "gas")
      with slot.
    change (getProp (VObj [(lit "gas", slot); (lit "notes", n)]) "diesel")
      with VUndefined.
    rewrite Hn by reflexivity. unfold slot at 1. cbv iota. fold slot.
    unfold checkDual. rewrite Hv.
    change (validateFuelSlot VUndefined "diesel") with (@None ErrorText).
    simpl. rewrite Hs. reflexivity.
Qed.

End WebhookFacts.
Import WebhookFacts.

(** C2 (as the code has it): a request with a [secret] query parameter is
    answered 400 before the token is looked at; any other request with a
    wrong or missing bearer token is answered 401 Unauthorized whatever its
    body; an authorized request in the legacy format whose direction is
    outside up, down, no-change is answered 400 with the text on the
    direction, and one in the new format with such a direction in a present
    slot is answered 400 with the text that names the slot. *)
Theorem C2_auth_before_schema nts req env now kv :
  (Webhook.hasParam "secret" (Webhook.searchParams req) = true ->
   Webhook.handleWebhook nts req env now kv
   = (Webhook.Response 400 (Webhook.ErrorBody Webhook.UseBearerHeader), kv))
  /\ (Webhook.hasParam "secret" (Webhook.searchParams req) = false ->
      Webhook.tokenRefused (Webhook.bearerToken req) env = true ->
      Webhook.handleWebhook nts req env now kv
      = (Webhook.Response 401 (Webhook.ErrorBody Webhook.Unauthorized), kv))
  /\ (Webhook.hasParam "secret" (Webhook.searchParams req) = false ->
      Webhook.tokenRefused (Webhook.bearerToken req) env = false ->
      forall body, Webhook.json req = Some body -> isNullish body = false ->
      (getProp body "gas" = VUndefined -> getProp body "diesel" = VUndefined ->
       includes Webhook.VALID_DIRECTIONS (getProp body "direction") = false ->
       Webhook.handleWebhook nts req env now kv
       = (Webhook.Response 400 (Webhook.ErrorBody Webhook.InvalidDirection), kv))
      /\ (truthy (getProp body "gas") = true ->
          includes Webhook.VALID_DIRECTIONS
            (getProp (getProp body "gas") "direction") = false ->
          Webhook.handleWebhook nts req env now kv
          = (Webhook.Response 400
               (Webhook.ErrorBody (Webhook.SlotDirection "gas")), kv))
      /\ (truthy (getProp body "diesel") = true ->
          includes Webhook.VALID_DIRECTIONS
            (getProp (getProp body "diesel") "direction") = false ->
          exists e,
            Webhook.handleWebhook nts req env now kv
            = (Webhook.Response 400 (Webhook.ErrorBody e), kv)
            /\ (Webhook.validateFuelSlot (getProp body "gas") "gas" = None ->
                e = Webhook.SlotDirection "diesel"))).
Proof.
  split; [|split].
  - intros H. apply handle_reject. apply checks_query_secret. exact H.
  - intros H1 H2. apply handle_reject. apply checks_unauthorized; assumption.
  - intros H1 H2 body Hj H0. split; [|split].
    + intros Hg Hd Hdir. apply handle_reject.
      rewrite (checks_authorized _ _ H1 H2 Hj), checkBody_legacy by assumption.
      unfold Webhook.checkLegacy. rewrite Hdir. reflexivity.
    + intros Hg Hdir. apply handle_reject.
      rewrite (checks_authorized _ _ H1 H2 Hj), checkBody_dual;
        [|assumption | left; apply truthy_defined; assumption].
      unfold Webhook.checkDual, Webhook.validateFuelSlot.
      rewrite Hg, Hdir. reflexivity.
    + intros Hd Hdir.
      assert (Hc : Webhook.checks req env
                   = Webhook.checkDual (getProp body "gas") (getProp body "diesel")
                       (propOr body "notes" VNull)).
      { rewrite (checks_authorized _ _ H1 H2 Hj), checkBody_dual;
          [reflexivity | assumption | right; apply truthy_defined; assumption]. }
      unfold Webhook.checkDual in Hc.
      destruct (Webhook.validateFuelSlot (getProp body "gas") "gas") as [e|] eqn:Eg.
      * exists e. split; [|discriminate]. apply handle_reject. exact Hc.
      * exists (Webhook.SlotDirection "diesel"). split; [|reflexivity].
        apply handle_reject. rewrite Hc. simpl.
        unfold Webhook.validateFuelSlot. rewrite Hd, Hdir. reflexivity.
Qed.

Lemma C2_witness :
  (Webhook.hasParam "secret" (Webhook.searchParams (bearer "wrong" sidewaysLegacy)) = false
   /\ Webhook.tokenRefused (Webhook.bearerToken (bearer "wrong" sidewaysLegacy)) testEnv = true
   /\ Webhook.handleWebhook noNumberText (bearer "wrong" sidewaysLegacy) testEnv someTime emptyKV
      = (Webhook.Response 401 (Webhook.ErrorBody Webhook.Unauthorized), emptyKV))
  /\ (Webhook.tokenRefused (Webhook.bearerToken (bearer "test-secret" sidewaysGas)) testEnv = false
      /\ Webhook.handleWebhook noNumberText (bearer "test-secret" sidewaysGas) testEnv someTime emptyKV
         = (Webhook.Response 400 (Webhook.ErrorBody (Webhook.SlotDirection "gas")), emptyKV)).
Proof.
  split.
  - split; [reflexivity|]. split; [reflexivity|].
    apply (proj1 (proj2 (C2_auth_before_schema noNumberText
             (bearer "wrong" sidewaysLegacy) testEnv someTime emptyKV)));
      reflexivity.
  - split; [reflexivity|].
    apply (proj1 (proj2 (proj2 (proj2 (C2_auth_before_schema noNumberText
             (bearer "test-secret" sidewaysGas) testEnv someTime emptyKV))
             eq_refl eq_refl sidewaysGas eq_refl eq_refl)));
      reflexivity.
Defined.

(** C2 as stated fails: a request without a bearer token that carries
    the secret as a query parameter is answered 400, not 401. *)
Lemma C2_counterexample :
  Webhook.tokenRefused (Webhook.bearerToken querySecretRequest) testEnv = true
  /\ fst (Webhook.handleWebhook noNumberText querySecretRequest testEnv someTime emptyKV)
     = Webhook.Response 400 (Webhook.ErrorBody Webhook.UseBearerHeader)
  /\ fst (Webhook.handleWebhook noNumberText querySecretRequest testEnv someTime emptyKV)
     <> Webhook.Response 401 (Webhook.ErrorBody Webhook.Unauthorized).
Proof. repeat split; try reflexivity. vm_compute. discriminate. Qed.

(** C9 (as the code has it): an authorized submission one of whose price
    fields is not a number, or is NaN, is answered 400 and nothing is
    written: in the new format the price of a present slot when it is
    neither missing nor null; in the legacy format [predicted_price], and
    [current_price] when it is present.  (The test is [typeof] and [isNaN];
    an infinite price passes it.) *)
Theorem C9_price_must_be_number nts req env now kv body :
  Webhook.hasParam "secret" (Webhook.searchParams req) = false ->
  Webhook.tokenRefused (Webhook.bearerToken req) env = false ->
  Webhook.json req = Some body -> isNullish body = false ->
  Webhook.priceFault body = true ->
  exists e,
    Webhook.handleWebhook nts req env now kv
    = (Webhook.Response 400 (Webhook.ErrorBody e), kv).
Proof.
  intros H1 H2 Hj H0 Hf.
  assert (Hr : exists e, Webhook.checks req env = Reject 400 e).
  { rewrite (checks_authorized _ _ H1 H2 Hj).
    unfold Webhook.checkBody, Webhook.priceFault in *. rewrite H0.
    assert (Hdual : forall g d,
              Webhook.slotPriceFault g || Webhook.slotPriceFault d = true ->
              exists e, Webhook.checkDual g d (propOr body "notes" VNull)
                        = Reject 400 e).
    { intros g d Hgd. unfold Webhook.checkDual.
      destruct (Webhook.validateFuelSlot g "gas") as [e|] eqn:Eg;
        [exists e; reflexivity|].
      destruct (Webhook.validateFuelSlot d "diesel") as [e|] eqn:Ed;
        [exists e; reflexivity|].
      apply validate_ok_no_fault in Eg, Ed. rewrite Eg, Ed in Hgd.
      discriminate. }
    destruct (getProp body "gas") eqn:Eg; try (apply Hdual; exact Hf).
    destruct (getProp body "diesel") eqn:Ed; try (apply Hdual; exact Hf).
    unfold Webhook.checkLegacy.
    destruct (includes Webhook.VALID_DIRECTIONS (getProp body "direction"));
      [|eexists; reflexivity].
    destruct (includes ["gas"; "diesel"]%string (propOr body "fuel_type" (S_ "gas")));
      [|eexists; reflexivity].
    destruct (notANumber (getProp body "predicted_price"));
      [eexists; reflexivity|].
    simpl in Hf. simpl. rewrite Hf. eexists; reflexivity. }
  destruct Hr as [e Hr]. exists e. apply handle_reject. exact Hr.
Qed.

Lemma C9_witness :
  Webhook.priceFault textPrice = true
  /\ exists e,
       Webhook.handleWebhook noNumberText (bearer "test-secret" textPrice)
         testEnv someTime emptyKV
       = (Webhook.Response 400 (Webhook.ErrorBody e), emptyKV).
Proof.
  split; [reflexivity|].
  apply (C9_price_must_be_number noNumberText (bearer "test-secret" textPrice)
           testEnv someTime emptyKV (body := textPrice)); reflexivity.
Defined.

(** C9 as stated fails: the price Infinity, which is a number but not a
    finite one, is accepted, answered 200 and written (as null). *)
Lemma C9_counterexample :
  Webhook.checks (bearer "test-secret" infinitePrice) testEnv
  = Go {| Webhook.gas := Some {| direction := S_ "up"; adjustment := VNull;
                                 price := VNum PosInf |};
          Webhook.diesel := None;
          Webhook.notes := VNull |}
  /\ fst (Webhook.handleWebhook noNumberText (bearer "test-secret" infinitePrice)
            testEnv someTime emptyKV)
     = Webhook.Response 200
         (Webhook.OkBody
            (VObj [(lit "gas", VObj [(lit "direction", S_ "up");
                                     (lit "adjustment", VNull);
                                     (lit "price", VNull)]);
                   (lit "diesel", VNull);
                   (lit "notes", VNull);
                   (lit "source", S_ "webhook");
                   (lit "updated_at", VStr someTime);
                   (lit "post_id", VNull)])).
Proof. split; vm_compute; reflexivity. Qed.

(** C8 (as the code has it): the adjustment of a slot of the parser is
    null or a number that is not negative; it is 0 when a table row reads
    no-change and null on every slot of the free-text path, whatever the
    direction.  A slot the webhook accepts has a direction among up, down
    and no-change; its adjustment is null in the legacy format and, in the
    new format, the value submitted, unchecked (null when missing). *)
Theorem C8_slot_adjustments :
  (forall post slot,
     gas (parseRedditPost post) = Some slot
     \/ diesel (parseRedditPost post) = Some slot ->
     adjustmentOk (adjustment slot)
     /\ (execAll tableRowRe (fullTextOf post) <> [] ->
         direction slot = S_ "no-change" -> adjustment slot = VNum (Fin 0%Q))
     /\ (execAll tableRowRe (fullTextOf post) = [] -> adjustment slot = VNull))
  /\ (forall req env c slot,
        Webhook.checks req env = Go c ->
        Webhook.gas c = Some slot \/ Webhook.diesel c = Some slot ->
        includes Webhook.VALID_DIRECTIONS (direction slot) = true
        /\ exists body,
             Webhook.json req = Some body
             /\ ((getProp body "gas" = VUndefined
                  /\ getProp body "diesel" = VUndefined
                  /\ adjustment slot = VNull)
                 \/ (exists src,
                       (src = getProp body "gas" \/ src = getProp body "diesel")
                       /\ truthy src = true
                       /\ adjustment slot
                          = nullish_or (getProp src "adjustment") VNull))).
Proof.
  split.
  - intros post slot Hslot.
    destruct (execAll tableRowRe (fullTextOf post)) as [|m0 rows0] eqn:E.
    + rewrite (parseRedditPost_freeText post E) in Hslot.
      assert (Hs : slot = freeTextSlot (fullTextOf post)).
      { unfold freeTextStrategy in Hslot.
        destruct (test re_diesel (toLowerCase (fullTextOf post)));
          simpl in Hslot; destruct Hslot; congruence. }
      subst slot. split; [left; reflexivity|]. split; [congruence | reflexivity].
    + assert (Hne : execAll tableRowRe (fullTextOf post) <> [])
        by (rewrite E; discriminate).
      rewrite (parseRedditPost_table post Hne) in Hslot. simpl in Hslot.
      assert (Hm : exists m, slot = rowSlot m).
      { destruct Hslot as [H | H];
          match type of H with
          | option_map _ ?o = _ => destruct o as [m|]; [|discriminate]
          end; exists m; simpl in H; congruence. }
      destruct Hm as [m ->]. destruct (rowSlot_invariant m) as [H1 H2].
      split; [exact H1|]. split; [intros _; exact H2 | congruence].
  - intros req env c slot Hc Hslot. eapply accepted_slot; eassumption.
Qed.

Lemma C8_witness :
  let post := {| title := lit "Prices";
                 selftext := Some (lit "|Regular| NO CHANGE |127.5|") |} in
  let slot := {| direction := S_ "no-change"; adjustment := VNum (Fin 0%Q);
                 price := VNum (round64 (1275 # 1000)) |} in
  gas (parseRedditPost post) = Some slot
  /\ execAll tableRowRe (fullTextOf post) <> []
  /\ adjustmentOk (adjustment slot)
  /\ adjustment slot = VNum (Fin 0%Q).
Proof.
  intros post slot.
  assert (Hg : gas (parseRedditPost post) = Some slot) by (vm_compute; reflexivity).
  assert (Hne : execAll tableRowRe (fullTextOf post) <> [])
    by (vm_compute; discriminate).
  destruct (proj1 C8_slot_adjustments post slot (or_introl Hg)) as (H1 & H2 & _).
  split; [exact Hg|]. split; [exact Hne|]. split; [exact H1|].
  apply H2; [exact Hne | reflexivity].
Defined.

(** C8 as stated fails: the free-text path gives the direction
    no-change with a null adjustment, and the webhook accepts a negative
    adjustment. *)
Lemma C8_counterexample :
  gas (parseRedditPost noChangePost)
  = Some {| direction := S_ "no-change"; adjustment := VNull; price := VNull |}
  /\ Webhook.checks (bearer "test-secret" negativeAdjustment) testEnv
     = Go {| Webhook.gas := Some {| direction := S_ "up";
                                    adjustment := VNum (Fin (- 5 # 1));
                                    price := VNum (Fin (15 # 10)) |};
             Webhook.diesel := None;
             Webhook.notes := VNull |}.
Proof. split; vm_compute; reflexivity. Qed.

Module McpFacts.

(** What the tool has established when it posts. *)
Lemma posted nts args env now kv p kv' :
  Mcp.post_prediction nts args env now kv = (Mcp.Posted p, kv') ->
  Mcp.checks args env = Go tt
  /\ Mcp.predictionOf nts args now = Go p
  /\ kv' = writePrediction p env kv.
Proof.
  unfold Mcp.post_prediction.
  destruct (Mcp.checks args env) as [[]| |] eqn:Ec; simpl; try discriminate.
  destruct (Mcp.predictionOf nts args now) as [q| |] eqn:Ep; try discriminate.
  intros H. inversion H; subst. repeat split.
Qed.

Lemma mcp_checks_pass args env :
  Mcp.checks args env = Go tt ->
  isNullish args = false
  /\ Mcp.secretRefused (getProp args "secret") env = false
  /\ includes ["up"; "down"]%string (getProp args "direction") = true
  /\ includes ["gas"; "diesel"]%string (propOr args "fuel_type" (S_ "gas")) = true
  /\ notANumber (getProp args "predicted_price") = false.
Proof.
  unfold Mcp.checks. destruct (isNullish args); [discriminate|].
  destruct (Mcp.secretRefused (getProp args "secret") env); [discriminate|].
  destruct (includes ["up"; "down"]%string (getProp args "direction"));
    [|discriminate].
  destruct (includes ["gas"; "diesel"]%string (propOr args "fuel_type" (S_ "gas")));
    [|discriminate].
  destruct (notANumber (getProp args "predicted_price")); [discriminate|].
  intros _. repeat split.
Qed.

End McpFacts.

Lemma toJSON_cons k v rest :
  v <> VUndefined ->
  toJSON (VObj ((k, v) :: rest))
  = VObj ((k, toJSON v)
          :: match toJSON (VObj rest) with VObj r => r | _ => [] end).
Proof. intros Hv. destruct v; try congruence; reflexivity. Qed.

Lemma slotObj_defined s : Webhook.slotObj s <> VUndefined.
Proof. destruct s; discriminate. Qed.

Lemma handle_accepted nts req env now kv p kv' :
  Webhook.handleWebhook nts req env now kv
  = (Webhook.Response 200 (Webhook.OkBody p), kv') ->
  exists c n,
    Webhook.checks req env = Go c
    /\ notesField nts (Webhook.notes c) = Some n
    /\ p = VObj [(lit "gas", toJSON (Webhook.slotObj (Webhook.gas c)));
                 (lit "diesel", toJSON (Webhook.slotObj (Webhook.diesel c)));
                 (lit "notes", n);
                 (lit "source", S_ "webhook");
                 (lit "updated_at", VStr now);
                 (lit "post_id", VNull)]
    /\ latest_prediction kv' = Some p.
Proof.
  unfold Webhook.handleWebhook.
  destruct (Webhook.checks req env) as [c| |] eqn:Ec; cbn [bind];
    try discriminate.
  unfold Webhook.predictionOf.
  destruct (notesField nts (Webhook.notes c)) as [n|] eqn:En;
    cbn [bind orRaise]; try discriminate.
  intros H. injection H as <- <-. exists c, n.
  assert (Hn : n = VNull \/ exists t, n = VStr t).
  { unfold notesField in En. destruct (truthy (Webhook.notes c)).
    - destruct (js_String nts (Webhook.notes c)); [|discriminate].
      inversion En. eauto.
    - inversion En. auto. }
  split; [reflexivity|]. split; [exact En|].
  assert (Hj : toJSON
                 (VObj [(lit "gas", Webhook.slotObj (Webhook.gas c));
                        (lit "diesel", Webhook.slotObj (Webhook.diesel c));
                        (lit "notes", n);
                        (lit "source", S_ "webhook");
                        (lit "updated_at", VStr now);
                        (lit "post_id", VNull)])
               = VObj [(lit "gas", toJSON (Webhook.slotObj (Webhook.gas c)));
                       (lit "diesel", toJSON (Webhook.slotObj (Webhook.diesel c)));
                       (lit "notes", n);
                       (lit "source", S_ "webhook");
                       (lit "updated_at", VStr now);
                       (lit "post_id", VNull)]).
  { rewrite toJSON_cons by apply slotObj_defined.
    rewrite toJSON_cons by apply slotObj_defined.
    destruct Hn as [-> | [t ->]]; reflexivity. }
  split; [exact Hj | reflexivity].
Qed.

(** What is written for a slot with a valid direction: null, or an
    object with that direction. *)
Lemma slot_written s :
  (forall slot, s = Some slot ->
                includes Webhook.VALID_DIRECTIONS (direction slot) = true) ->
  (s = None /\ toJSON (Webhook.slotObj s) = VNull)
  \/ (exists slot,
        s = Some slot
        /\ getProp (toJSON (Webhook.slotObj s)) "direction" = direction slot
        /\ includes Webhook.VALID_DIRECTIONS
             (getProp (toJSON (Webhook.slotObj s)) "direction") = true).
Proof.
  intros H. destruct s as [slot|]; [right | left; split; reflexivity].
  specialize (H slot eq_refl). exists slot. split; [reflexivity|].
  assert (Hd : exists t, direction slot = VStr t).
  { unfold includes in H. apply existsb_exists in H as (x & _ & Hx).
    unfold isStr in Hx. destruct (direction slot); try discriminate. eauto. }
  destruct Hd as [t Hd]. unfold Webhook.slotObj.
  rewrite toJSON_cons by (rewrite Hd; discriminate).
  rewrite getProp_here. rewrite Hd in *. split; [reflexivity | exact H].
Qed.

(** C1 (as the code has it): a legacy submission the webhook accepts and
    the new-format submission with the same content yield the same checked
    slots, the same response and the same store; every record the webhook
    writes has the properties gas, diesel, notes, source, updated_at and
    post_id, and each of its gas and diesel properties is null or an object
    whose direction is one of up, down and no-change, the direction of the
    checked slot.  The MCP tool has rules of its own: it posts only the
    directions up and down and writes the flat record direction,
    currentPrice, predictedPrice, fuelType, notes, source, updated_at,
    post_id, which has no gas and no diesel property; the notes are made
    by the same expression in both. *)
Theorem C1_formats_converge nts env now kv :
  (forall req body c,
     Webhook.json req = Some body ->
     getProp body "gas" = VUndefined -> getProp body "diesel" = VUndefined ->
     Webhook.checks req env = Go c ->
     Webhook.checks (Webhook.withJson req (Webhook.dualOf body)) env = Go c
     /\ Webhook.handleWebhook nts (Webhook.withJson req (Webhook.dualOf body))
          env now kv
        = Webhook.handleWebhook nts req env now kv)
  /\ (forall req p kv',
        Webhook.handleWebhook nts req env now kv
        = (Webhook.Response 200 (Webhook.OkBody p), kv') ->
        exists c n,
          Webhook.checks req env = Go c
          /\ notesField nts (Webhook.notes c) = Some n
          /\ p = VObj [(lit "gas", toJSON (Webhook.slotObj (Webhook.gas c)));
                       (lit "diesel", toJSON (Webhook.slotObj (Webhook.diesel c)));
                       (lit "notes", n);
                       (lit "source", S_ "webhook");
                       (lit "updated_at", VStr now);
                       (lit "post_id", VNull)]
          /\ latest_prediction kv' = Some p
          /\ (forall slot,
                Webhook.gas c = Some slot \/ Webhook.diesel c = Some slot ->
                includes Webhook.VALID_DIRECTIONS (direction slot) = true)
          /\ ((Webhook.gas c = None /\ getProp p "gas" = VNull)
              \/ (exists slot,
                    Webhook.gas c = Some slot
                    /\ getProp (getProp p "gas") "direction" = direction slot
                    /\ includes Webhook.VALID_DIRECTIONS
                         (getProp (getProp p "gas") "direction") = true))
          /\ ((Webhook.diesel c = None /\ getProp p "diesel" = VNull)
              \/ (exists slot,
                    Webhook.diesel c = Some slot
                    /\ getProp (getProp p "diesel") "direction"
                       = direction slot
                    /\ includes Webhook.VALID_DIRECTIONS
                         (getProp (getProp p "diesel") "direction") = true)))
  /\ (forall args p kv',
        Mcp.post_prediction nts args env now kv = (Mcp.Posted p, kv') ->
        includes ["up"; "down"]%string (getProp args "direction") = true
        /\ (exists n,
              notesField nts (propOr args "notes" VNull) = Some n
              /\ p = VObj [(lit "direction", getProp args "direction");
                           (lit "currentPrice",
                            nullish_or (getProp args "current_price") VNull);
                           (lit "predictedPrice", getProp args "predicted_price");
                           (lit "fuelType", propOr args "fuel_type" (S_ "gas"));
                           (lit "notes", n);
                           (lit "source", S_ "mcp");
                           (lit "updated_at", VStr now);
                           (lit "post_id", VNull)])
        /\ getProp p "gas" = VUndefined /\ getProp p "diesel" = VUndefined
        /\ latest_prediction kv' = Some (toJSON p)).
Proof.
  split; [|split].
  - intros req body c Hj Hg Hd Hc.
    assert (Hc' : Webhook.checks (Webhook.withJson req (Webhook.dualOf body)) env
                  = Go c).
    { pose proof Hc as Hp.
      apply checks_pass in Hp as (H1 & H2 & body' & Hj' & H0 & Hb).
      rewrite Hj in Hj'. inversion Hj'; subst body'.
      rewrite checkBody_legacy in Hb by assumption.
      rewrite (checks_authorized (Webhook.withJson req (Webhook.dualOf body))
                 env (body := Webhook.dualOf body)); try assumption;
        [|reflexivity].
      apply dual_of_legacy. exact Hb. }
    split; [exact Hc'|]. unfold Webhook.handleWebhook. rewrite Hc, Hc'.
    reflexivity.
  - intros req p kv' H.
    apply handle_accepted in H as (c & n & Hc & Hn & Hp & Hkv).
    exists c, n. do 4 (split; [assumption|]).
    assert (Hdir : forall slot,
               Webhook.gas c = Some slot \/ Webhook.diesel c = Some slot ->
               includes Webhook.VALID_DIRECTIONS (direction slot) = true).
    { intros slot Hslot.
      exact (proj1 (WebhookFacts.accepted_slot req env Hc Hslot)). }
    split; [exact Hdir|]. subst p. split.
    + rewrite (getProp_here "gas"). apply slot_written. auto.
    + change (getProp (VObj ((lit "gas", ?g) :: (lit "diesel", ?d) :: ?r))
                "diesel") with d.
      apply slot_written. auto.
  - intros args p kv' H.
    apply McpFacts.posted in H as (Hc & Hp & ->).
    apply McpFacts.mcp_checks_pass in Hc as (_ & _ & Hdir & _ & _).
    split; [exact Hdir|].
    unfold Mcp.predictionOf in Hp.
    destruct (notesField nts (propOr args "notes" VNull)) as [n|] eqn:En;
      simpl in Hp; [|discriminate].
    inversion Hp; subst p.
    split; [exists n; split; reflexivity|].
    repeat split.
Qed.

Lemma C1_witness :
  let req := bearer "test-secret" upDieselLegacy in
  let c := {| Webhook.gas := None;
              Webhook.diesel := Some {| direction := S_ "up";
                                        adjustment := VNull;
                                        price := VNum (round64 (172 # 100)) |};
              Webhook.notes := S_ "Fill up." |} in
  Webhook.checks req testEnv = Go c
  /\ Webhook.checks (Webhook.withJson req (Webhook.dualOf upDieselLegacy)) testEnv
     = Go c
  /\ (exists p kv',
        Webhook.handleWebhook noNumberText req testEnv someTime emptyKV
        = (Webhook.Response 200 (Webhook.OkBody p), kv')
        /\ getProp p "gas" = VNull
        /\ getProp (getProp p "diesel") "direction" = S_ "up"
        /\ includes Webhook.VALID_DIRECTIONS
             (getProp (getProp p "diesel") "direction") = true).
Proof.
  intros req c.
  assert (Hc : Webhook.checks req testEnv = Go c) by (vm_compute; reflexivity).
  split; [exact Hc|]. split.
  - apply (proj1 (C1_formats_converge noNumberText testEnv someTime emptyKV)
             req upDieselLegacy c); reflexivity || exact Hc.
  - assert (E : exists p kv',
               Webhook.handleWebhook noNumberText req testEnv someTime emptyKV
               = (Webhook.Response 200 (Webhook.OkBody p), kv'))
      by (do 2 eexists; vm_compute; reflexivity).
    destruct E as (p & kv' & E). exists p, kv'. split; [exact E|].
    destruct (proj1 (proj2 (C1_formats_converge noNumberText testEnv someTime
                              emptyKV)) req p kv' E)
      as (c' & n & Hc' & _ & _ & _ & _ & Hg & Hd).
    rewrite Hc in Hc'. injection Hc' as <-.
    destruct Hg as [[_ Hg] | (slot & Hs & _)]; [|discriminate Hs].
    destruct Hd as [[Hs _] | (slot & Hs & Hdir & Hin)]; [discriminate Hs|].
    injection Hs as <-. split; [exact Hg|]. split; [exact Hdir | exact Hin].
Defined.

(** C1 as stated fails: the webhook accepts the direction no-change, which
    the MCP tool refuses with status 400; and what the tool writes for a
    submission it accepts has neither a gas nor a diesel property, where the
    webhook writes the diesel slot. *)
Lemma C1_counterexample :
  (exists c, Webhook.checks (bearer "test-secret" noChangeLegacy) testEnv = Go c)
  /\ Mcp.post_prediction noNumberText (withSecret "test-secret" noChangeLegacy)
       testEnv someTime emptyKV
     = (Mcp.Failed "Invalid direction" 400, emptyKV)
  /\ (exists p kv',
        Mcp.post_prediction noNumberText (withSecret "test-secret" upDieselLegacy)
          testEnv someTime emptyKV = (Mcp.Posted p, kv')
        /\ getProp p "gas" = VUndefined /\ getProp p "diesel" = VUndefined
        /\ getProp p "direction" = S_ "up")
  /\ (exists p kv',
        Webhook.handleWebhook noNumberText (bearer "test-secret" upDieselLegacy)
          testEnv someTime emptyKV
        = (Webhook.Response 200 (Webhook.OkBody p), kv')
        /\ getProp p "gas" = VNull
        /\ getProp p "diesel"
           = VObj [(lit "direction", S_ "up"); (lit "adjustment", VNull);
                   (lit "price", VNum (round64 (172 # 100)))]
        /\ getProp p "direction" = VUndefined).
Proof.
  split; [eexists; vm_compute; reflexivity|].
  split; [vm_compute; reflexivity|].
  split; do 2 eexists; (split; [vm_compute; reflexivity|]);
    repeat split; vm_compute; reflexivity.
Qed.

(** * The rest of the worker *)

Import WebhookFacts Scenes.

(** ** Escaping *)

Module HtmlFacts.
Import Html.

Lemma replaceAll_single c rep a :
  replaceAll c rep [a] = if eqc c a then rep else [a].
Proof.
  unfold replaceAll. cbn [flat_map]. rewrite app_nil_r. reflexivity.
Qed.

Lemma replaceAll_app c rep s t :
  replaceAll c rep (s ++ t) = replaceAll c rep s ++ replaceAll c rep t.
Proof. apply flat_map_app. Qed.

Lemma replaceAll_flat_map c rep (f : ascii -> jstr) s :
  replaceAll c rep (flat_map f s) = flat_map (fun a => replaceAll c rep (f a)) s.
Proof.
  induction s as [|a s IH]; [reflexivity|].
  cbn [flat_map]. rewrite replaceAll_app, IH. reflexivity.
Qed.

Lemma eqc_true x a : eqc x a = true -> a = x.
Proof. unfold eqc. intros H. apply Ascii.eqb_eq in H. congruence. Qed.

(** The five cases of a unit, and the text it becomes. *)
Lemma escapeUnit_cases a :
  (a = "&"%char /\ escapeUnit a = lit "&amp;")
  \/ (a = "<"%char /\ escapeUnit a = lit "&lt;")
  \/ (a = ">"%char /\ escapeUnit a = lit "&gt;")
  \/ (a = quot /\ escapeUnit a = lit "&quot;")
  \/ (a = apos /\ escapeUnit a = lit "&#039;")
  \/ (isSpecial a = false /\ escapeUnit a = [a]).
Proof.
  unfold escapeUnit, isSpecial.
  destruct (eqc "&" a) eqn:E1;
    [left; split; [apply eqc_true; exact E1 | reflexivity]|].
  destruct (eqc "<" a) eqn:E2;
    [right; left; split; [apply eqc_true; exact E2 | reflexivity]|].
  destruct (eqc ">" a) eqn:E3;
    [right; right; left; split; [apply eqc_true; exact E3 | reflexivity]|].
  destruct (eqc quot a) eqn:E4;
    [right; right; right; left; split; [apply eqc_true; exact E4 | reflexivity]|].
  destruct (eqc apos a) eqn:E5;
    [right; right; right; right; left; split;
     [apply eqc_true; exact E5 | reflexivity]|].
  right; right; right; right; right. split; reflexivity.
Qed.

Lemma chain_unit a :
  replaceAll apos (lit "&#039;")
    (replaceAll quot (lit "&quot;")
       (replaceAll ">" (lit "&gt;")
          (replaceAll "<" (lit "&lt;")
             (replaceAll "&" (lit "&amp;") [a]))))
  = escapeUnit a.
Proof.
  unfold escapeUnit. rewrite replaceAll_single.
  destruct (eqc "&" a) eqn:E1; [reflexivity|].
  rewrite replaceAll_single.
  destruct (eqc "<" a) eqn:E2; [reflexivity|].
  rewrite replaceAll_single.
  destruct (eqc ">" a) eqn:E3; [reflexivity|].
  rewrite replaceAll_single.
  destruct (eqc quot a) eqn:E4; [reflexivity|].
  rewrite replaceAll_single.
  destruct (eqc apos a) eqn:E5; reflexivity.
Qed.

Lemma flat_map_unit (s : jstr) : flat_map (fun a => [a]) s = s.
Proof. induction s as [|a s IH]; [reflexivity|]. cbn [flat_map app]. rewrite IH. reflexivity. Qed.

(** The five replacements come to one pass over the text. *)
Lemma escapeHtml_flat s : escapeHtml (VStr s) = flat_map escapeUnit s.
Proof.
  unfold escapeHtml.
  rewrite <- (flat_map_unit s) at 1.
  rewrite !replaceAll_flat_map.
  apply flat_map_ext. intros a. apply chain_unit.
Qed.

Lemma escapeUnit_length a : 1 <= length (escapeUnit a).
Proof.
  destruct (escapeUnit_cases a) as [[_ ->]|[[_ ->]|[[_ ->]|[[_ ->]|[[_ ->]|[_ ->]]]]]];
    cbn; lia.
Qed.

Lemma flat_length s : length s <= length (flat_map escapeUnit s).
Proof.
  induction s as [|a s IH]; [reflexivity|].
  cbn [flat_map]. rewrite length_app. pose proof (escapeUnit_length a).
  cbn [length]. lia.
Qed.

Lemma escapeUnit_markup a : Forall (fun x => isMarkup x = false) (escapeUnit a).
Proof.
  destruct (escapeUnit_cases a) as [[_ ->]|[[_ ->]|[[_ ->]|[[_ ->]|[[_ ->]|[H ->]]]]]];
    try (repeat constructor).
  unfold isSpecial in H. unfold isMarkup.
  destruct (eqc "&" a); [discriminate H|]. exact H.
Qed.

(** An ampersand of the text a unit becomes is its first unit, and one of
    the five tails follows it. *)
Lemma escapeUnit_amp a pre post :
  escapeUnit a = pre ++ "&"%char :: post -> pre = [] /\ In post entityTails.
Proof.
  destruct (escapeUnit_cases a) as [[_ ->]|[[_ ->]|[[_ ->]|[[_ ->]|[[_ ->]|[H ->]]]]]];
    intros E.
  1-5: destruct pre as [|x pre];
    [ injection E as <-; split; [reflexivity|]; cbn; tauto
    | exfalso; injection E as _ E;
      assert (Hin : In "&"%char (pre ++ "&"%char :: post)) by (apply in_elt);
      rewrite <- E in Hin; cbn in Hin;
      repeat (destruct Hin as [Hin|Hin]; [discriminate Hin|]); exact Hin ].
  destruct pre as [|x pre].
  - injection E as -> _. discriminate H.
  - injection E as _ E. destruct pre; discriminate E.
Qed.

Lemma flat_amp : forall s pre post,
  flat_map escapeUnit s = pre ++ "&"%char :: post ->
  exists tail rest, In tail entityTails /\ post = tail ++ rest.
Proof.
  induction s as [|a s IH]; intros pre post E.
  - destruct pre; discriminate E.
  - cbn [flat_map] in E. apply app_eq_app in E.
    destruct E as [l [[E1 E2]|[E1 E2]]].
    + destruct l as [|x l].
      * cbn in E2. apply (IH [] post). symmetry. exact E2.
      * injection E2 as <- E2. apply escapeUnit_amp in E1.
        destruct E1 as [_ Hin]. exists l, (flat_map escapeUnit s).
        split; assumption.
    + apply (IH l post). exact E2.
Qed.

Lemma escapeUnit_inj a b r1 r2 :
  escapeUnit a ++ r1 = escapeUnit b ++ r2 -> a = b /\ r1 = r2.
Proof.
  destruct (escapeUnit_cases a) as [[-> ->]|[[-> ->]|[[-> ->]|[[-> ->]|[[-> ->]|[Ha ->]]]]]];
  destruct (escapeUnit_cases b) as [[-> ->]|[[-> ->]|[[-> ->]|[[-> ->]|[[-> ->]|[Hb ->]]]]]];
    intros E; cbn in E;
    try (injection E; intros; subst; split; reflexivity);
    try discriminate E;
    try (exfalso; injection E; intros; subst; discriminate).
Qed.

Lemma flat_inj : forall s t,
  flat_map escapeUnit s = flat_map escapeUnit t -> s = t.
Proof.
  induction s as [|a s IH]; intros [|b t] E.
  - reflexivity.
  - exfalso. cbn [flat_map] in E. pose proof (escapeUnit_length b) as Hl.
    apply (f_equal (@length ascii)) in E. rewrite length_app in E.
    cbn [flat_map length] in E. lia.
  - exfalso. cbn [flat_map] in E. pose proof (escapeUnit_length a) as Hl.
    apply (f_equal (@length ascii)) in E. rewrite length_app in E.
    cbn [flat_map length] in E. lia.
  - cbn [flat_map] in E. apply escapeUnit_inj in E. destruct E as [-> E].
    f_equal. apply IH. exact E.
Qed.

Lemma flat_fixed : forall s,
  flat_map escapeUnit s = s <-> Forall (fun a => isSpecial a = false) s.
Proof.
  induction s as [|a s IH]; [split; [constructor | reflexivity]|].
  cbn [flat_map]. split.
  - intros E. pose proof (flat_length s) as Hl.
    assert (El := f_equal (@length ascii) E).
    rewrite length_app in El.
    destruct (escapeUnit_cases a) as [[-> Hu]|[[-> Hu]|[[-> Hu]|[[-> Hu]|[[-> Hu]|[Ha Hu]]]]]];
      rewrite Hu in E, El; try (exfalso; cbn in El; lia).
    constructor; [exact Ha|]. apply IH.
    injection E as E. exact E.
  - intros H. inversion H as [|? ? Ha Hs]; subst.
    destruct (escapeUnit_cases a) as [[-> Hu]|[[-> Hu]|[[-> Hu]|[[-> Hu]|[[-> Hu]|[_ Hu]]]]]];
      try discriminate Ha.
    rewrite Hu. cbn [app]. f_equal. apply IH. exact Hs.
Qed.

End HtmlFacts.
Import HtmlFacts.

(** X1: the five replacements of [escapeHtml], run one after the other,
    rewrite each unit of the text once: the ampersands of the entities the
    first steps write are not escaped again.  So the function distributes
    over concatenation. *)
Theorem escapeHtml_one_pass (s t : jstr) :
  Html.escapeHtml (VStr s) = flat_map Html.escapeUnit s
  /\ Html.escapeHtml (VStr (s ++ t))
     = Html.escapeHtml (VStr s) ++ Html.escapeHtml (VStr t).
Proof.
  split; [apply escapeHtml_flat|].
  rewrite !escapeHtml_flat. apply flat_map_app.
Qed.

(** X2: the text [escapeHtml] returns, for any value, holds no angle
    bracket, double quote or apostrophe, and each of its ampersands begins
    one of the five entities. *)
Theorem escapeHtml_no_markup (v : jsval) :
  Forall (fun a => Html.isMarkup a = false) (Html.escapeHtml v)
  /\ forall pre post,
       Html.escapeHtml v = pre ++ "&"%char :: post ->
       exists tail rest, In tail Html.entityTails /\ post = tail ++ rest.
Proof.
  destruct v as [| |b|n|s|items|props];
    try (split; [constructor | intros [|? ?] ? E; discriminate E]).
  rewrite escapeHtml_flat. split.
  - induction s as [|a s IH]; [constructor|].
    cbn [flat_map]. apply Forall_app. split; [apply escapeUnit_markup | exact IH].
  - apply flat_amp.
Qed.

(** X3: [escapeHtml] loses nothing: two different texts have different
    escapes. *)
Theorem escapeHtml_injective (s t : jstr) :
  s <> t -> Html.escapeHtml (VStr s) <> Html.escapeHtml (VStr t).
Proof.
  intros Hne E. apply Hne. rewrite !escapeHtml_flat in E.
  apply flat_inj. exact E.
Qed.

Lemma escapeHtml_injective_witness :
  lit "<" <> lit "&lt;"
  /\ Html.escapeHtml (S_ "<") <> Html.escapeHtml (S_ "&lt;").
Proof.
  split; [discriminate|].
  apply (@escapeHtml_injective (lit "<") (lit "&lt;")). discriminate.
Defined.

(** X4: [escapeHtml] returns a text as it is exactly when the text holds
    none of the five units. *)
Theorem escapeHtml_unchanged (s : jstr) :
  Html.escapeHtml (VStr s) = s
  <-> Forall (fun a => Html.isSpecial a = false) s.
Proof. rewrite escapeHtml_flat. apply flat_fixed. Qed.

Example escapeHtml_script :
  Html.escapeHtml (S_ "<a href='x'>Tom & Jerry</a>")
  = lit "&lt;a href=&#039;x&#039;&gt;Tom &amp; Jerry&lt;/a&gt;"
  /\ Html.escapeHtml (VNum (Fin 1%Q)) = [].
Proof. split; vm_compute; reflexivity. Qed.

(** ** The image prompt *)

Module PromptFacts.
Import Prompt.

Lemma dropWhile_length p s : length (dropWhile p s) <= length s.
Proof.
  induction s as [|a s IH]; [reflexivity|].
  cbn [dropWhile]. destruct (p a); cbn [length]; lia.
Qed.

Lemma trim_length s : length (trim s) <= length s.
Proof.
  unfold trim, trimEnd, trimStart. rewrite length_rev.
  etransitivity; [apply dropWhile_length|]. rewrite length_rev.
  apply dropWhile_length.
Qed.

Lemma join_length sep m : forall l,
  Forall (fun t => length t <= m) l ->
  length (join sep l) <= length l * m + (length l - 1) * length sep.
Proof.
  induction l as [|p ps IH]; intros H; [reflexivity|].
  inversion H as [|? ? Hp Hps]; subst. specialize (IH Hps).
  destruct ps as [|q r].
  - cbn [join length]. lia.
  - change (join sep (p :: q :: r)) with (p ++ sep ++ join sep (q :: r)).
    rewrite !length_app. cbn [length] in *. nia.
Qed.

Lemma topics_length communityContext : length (topics communityContext) <= 1238.
Proof.
  unfold topics.
  set (l := map (fun t => trim (slice0 60 t)) (firstn 20 communityContext)).
  assert (Hl : length l <= 20).
  { unfold l. rewrite length_map. apply firstn_le_length. }
  assert (Hm : Forall (fun t => length t <= 60) l).
  { unfold l. apply Forall_map. apply Forall_forall. intros t _.
    etransitivity; [apply trim_length|]. apply firstn_le_length. }
  pose proof (join_length (lit "; ") Hm) as H.
  change (length (lit "; ")) with 2 in H. clearbody l. unfold jstr in *. lia.
Qed.

End PromptFacts.
Import PromptFacts.

(** X5: whatever the titles and the post id, the prompt [buildImagePrompt]
    builds has at most 1531 units: 20 topics of 60 units and 8 units of
    the id are all it takes from them.  Without a community context it has
    at most 349. *)
Theorem buildImagePrompt_bounded
    (direction : jsval) (postId : jstr) (communityContext : list jstr)
    (date : option Z) :
  length (Prompt.buildImagePrompt direction postId communityContext date) <= 1531
  /\ length (Prompt.buildImagePrompt direction postId [] date) <= 349.
Proof.
  pose proof (topics_length communityContext) as Ht.
  pose proof (firstn_le_length 8 postId) as Hi.
  unfold Prompt.buildImagePrompt, slice0.
  set (seed := firstn 8 postId) in *. clearbody seed.
  set (tp := Prompt.topics communityContext) in *. clearbody tp.
  split.
  - destruct (isStr "up" direction), (0 <? length communityContext),
      (Clock.getSeason date);
      rewrite !length_app; cbn [length lit list_ascii_of_string Prompt.weatherContexts];
      lia.
  - destruct (isStr "up" direction), (Clock.getSeason date);
      cbn [length Nat.ltb Nat.leb]; rewrite !length_app;
      cbn [length lit list_ascii_of_string Prompt.weatherContexts]; lia.
Qed.

Example buildImagePrompt_longest :
  length (Prompt.buildImagePrompt (S_ "up") (repeat "a"%char 9)
            (repeat (repeat "a"%char 61) 21) None) = 1531
  /\ Prompt.buildImagePrompt (S_ "up") (repeat "a"%char 9)
       (repeat (repeat "a"%char 61) 21) None
     = Prompt.buildImagePrompt (S_ "up") (repeat "a"%char 8)
         (repeat (repeat "a"%char 60) 20) (Some 5%Z).
Proof. split; vm_compute; reflexivity. Qed.

(** ** The stored values and the history *)

Module StoreFacts.

(** Induction on a value with its items and properties. *)
Lemma jsval_induction (P : jsval -> Prop) :
  P VUndefined -> P VNull -> (forall b, P (VBool b)) -> (forall n, P (VNum n)) ->
  (forall s, P (VStr s)) ->
  (forall items, Forall P items -> P (VArr items)) ->
  (forall props, Forall (fun kv => P (snd kv)) props -> P (VObj props)) ->
  forall v, P v.
Proof.
  intros H1 H2 H3 H4 H5 H6 H7. fix IH 1.
  intros [| |b|n|s|items|props];
    [exact H1 | exact H2 | apply H3 | apply H4 | apply H5 | | ].
  - apply H6. induction items as [|x t IHt]; constructor; [apply IH | exact IHt].
  - apply H7. induction props as [|[k x] t IHt]; constructor; [apply IH | exact IHt].
Qed.

Lemma toJSON_defined v : v <> VUndefined -> toJSON v <> VUndefined.
Proof.
  destruct v as [| |b|n|s|items|props]; intros H; try congruence;
    try discriminate.
  destruct n; discriminate.
Qed.

Lemma toJSON_obj props : exists r, toJSON (VObj props) = VObj r.
Proof. eexists. reflexivity. Qed.

Lemma toJSON_skip k rest : toJSON (VObj ((k, VUndefined) :: rest)) = toJSON (VObj rest).
Proof. reflexivity. Qed.

(** What [JSON.stringify] leaves is left as it is by a second pass. *)
Lemma toJSON_idem : forall v, toJSON (toJSON v) = toJSON v.
Proof.
  apply jsval_induction; try reflexivity.
  - intros [| | |q]; reflexivity.
  - intros items H.
    change (toJSON (VArr items))
      with (VArr (map (fun x => match x with
                                | VUndefined => VNull
                                | _ => toJSON x
                                end) items)).
    set (f := fun x => match x with VUndefined => VNull | _ => toJSON x end).
    change (toJSON (VArr (map f items))) with (VArr (map f (map f items))).
    f_equal. rewrite map_map. apply map_ext_in. intros x Hx.
    rewrite Forall_forall in H. specialize (H x Hx).
    destruct x as [| |b|n|s|its|ps]; try reflexivity.
    + destruct n; reflexivity.
    + unfold f. pose proof (@toJSON_defined (VArr its) ltac:(discriminate)) as Hd.
      destruct (toJSON (VArr its)) eqn:E; try congruence.
    + unfold f. pose proof (@toJSON_defined (VObj ps) ltac:(discriminate)) as Hd.
      destruct (toJSON (VObj ps)) eqn:E; try congruence.
  - induction props as [|[k x] t IHt]; intros H; [reflexivity|].
    inversion H as [|? ? Hx Ht]; subst. cbn [snd] in Hx. specialize (IHt Ht).
    destruct (toJSON_obj t) as [r Er].
    assert (Hr : toJSON (VObj r) = VObj r) by (rewrite <- Er; exact IHt).
    destruct x as [| |b|n|s|its|ps].
    + rewrite toJSON_skip. exact IHt.
    + rewrite toJSON_cons by discriminate. rewrite Er.
      rewrite toJSON_cons by discriminate. rewrite Hr. reflexivity.
    + rewrite toJSON_cons by discriminate. rewrite Er.
      rewrite toJSON_cons by discriminate. rewrite Hr. reflexivity.
    + rewrite toJSON_cons by discriminate. rewrite Er.
      rewrite toJSON_cons by (apply toJSON_defined; discriminate).
      rewrite Hr, Hx. reflexivity.
    + rewrite toJSON_cons by discriminate. rewrite Er.
      rewrite toJSON_cons by discriminate. rewrite Hr. reflexivity.
    + rewrite toJSON_cons by discriminate. rewrite Er.
      rewrite toJSON_cons by (apply toJSON_defined; discriminate).
      rewrite Hr, Hx. reflexivity.
    + rewrite toJSON_cons by discriminate. rewrite Er.
      rewrite toJSON_cons by (apply toJSON_defined; discriminate).
      rewrite Hr, Hx. reflexivity.
Qed.

Lemma firstn_app_firstn_le {A : Type} : forall (a b : list A) n m,
  n <= m -> firstn n (a ++ firstn m b) = firstn n (a ++ b).
Proof.
  induction a as [|x a IH]; intros b n m Hnm.
  - cbn [app]. rewrite firstn_firstn. f_equal. lia.
  - destruct n as [|n]; [reflexivity|].
    cbn [app firstn]. f_equal. apply IH. lia.
Qed.

Lemma firstn_app_firstn {A : Type} n (a b : list A) :
  firstn n (a ++ firstn n b) = firstn n (a ++ b).
Proof. apply firstn_app_firstn_le. lia. Qed.

Lemma pushHistory_nonneg n p h :
  (0 <= n)%Z -> pushHistory (Some n) p h = firstn (Z.to_nat n) (p :: h).
Proof.
  intros Hn. unfold pushHistory.
  destruct (Z.ltb_spec n (Z.of_nat (length (p :: h)))) as [Hlt|Hge].
  - destruct (Z.ltb_spec n 0); [lia | reflexivity].
  - symmetry. apply firstn_all2. lia.
Qed.

Lemma historyOf_write p env kv :
  Cron.historyOf (writePrediction p env kv)
  = map toJSON (pushHistory (maxHistoryOf env) p (Cron.historyOf kv)).
Proof. reflexivity. Qed.

Lemma history_write n p env kv :
  maxHistoryOf env = Some n -> (0 <= n)%Z ->
  Cron.historyOf (writePrediction p env kv)
  = firstn (Z.to_nat n) (map toJSON (p :: Cron.historyOf kv)).
Proof.
  intros Hm Hn. rewrite historyOf_write, Hm, pushHistory_nonneg by exact Hn.
  symmetry. apply firstn_map.
Qed.

Lemma map_toJSON_idem l : map toJSON (map toJSON l) = map toJSON l.
Proof. rewrite map_map. apply map_ext. intros v. apply toJSON_idem. Qed.

Lemma last_cons {A : Type} : forall (l : list A) (q p : A),
  last (q :: l) p = last l q.
Proof.
  induction l as [|x l IH]; intros q p; [reflexivity|].
  change (last (q :: x :: l) p) with (last (x :: l) p).
  rewrite (IH x p), (IH x q). reflexivity.
Qed.

Lemma writes_state env n : (0 <= n)%Z -> maxHistoryOf env = Some n ->
  forall ps p kv,
  let kv' := fold_left (fun kv q => writePrediction q env kv) ps
               (writePrediction p env kv) in
  latest_prediction kv' = Some (toJSON (last ps p))
  /\ Cron.historyOf kv'
     = firstn (Z.to_nat n) (map toJSON (rev (p :: ps) ++ Cron.historyOf kv)).
Proof.
  intros Hn Hm. induction ps as [|q ps IH]; intros p kv.
  - cbn [fold_left last rev app]. split; [reflexivity|].
    apply history_write; assumption.
  - cbn [fold_left]. specialize (IH q (writePrediction p env kv)).
    cbv zeta in IH. destruct IH as [IH1 IH2]. split.
    + rewrite IH1. rewrite last_cons. reflexivity.
    + rewrite IH2. rewrite (@history_write n p env kv Hm Hn).
      rewrite !map_app. rewrite <- firstn_map. rewrite map_toJSON_idem.
      rewrite firstn_app_firstn. f_equal.
      change (rev (p :: q :: ps)) with (rev (q :: ps) ++ [p]).
      rewrite !map_app, <- app_assoc. reflexivity.
Qed.

Lemma firstn_min_len {A : Type} k (l : list A) :
  firstn (Nat.min k (length l)) l = firstn k l.
Proof.
  destruct (Nat.le_gt_cases k (length l)) as [H|H].
  - rewrite Nat.min_l by exact H. reflexivity.
  - rewrite Nat.min_r by lia. rewrite firstn_all.
    symmetry. apply firstn_all2. lia.
Qed.

Lemma sliceEnd_le len e : McpTools.sliceEnd len e <= len.
Proof.
  unfold McpTools.sliceEnd. destruct e as [| | |q]; try lia.
  destruct (Z.ltb_spec (Z.quot (Qnum q) (Z.pos (Qden q))) 0); lia.
Qed.

Lemma sliceEnd_int len z :
  McpTools.sliceEnd len (Fin (inject_Z z))
  = if (z <? 0)%Z then Z.to_nat (Z.max (Z.of_nat len + z) 0)
    else Nat.min (Z.to_nat z) len.
Proof.
  unfold McpTools.sliceEnd, inject_Z. cbn [Qnum Qden].
  rewrite Z.quot_1_r. reflexivity.
Qed.

Lemma num_min_int z :
  McpTools.num_min (Fin (inject_Z z)) (Fin 10%Q) = Fin (inject_Z (Z.min z 10)).
Proof.
  unfold McpTools.num_min, Qle_bool, inject_Z. cbn [Qnum Qden].
  destruct (Z.leb_spec (z * 1) (10 * 1)).
  - f_equal. f_equal. lia.
  - f_equal. f_equal. lia.
Qed.

Lemma sliceEnd_ten len l :
  notNegative l -> McpTools.sliceEnd len (McpTools.num_min l (Fin 10%Q)) <= 10.
Proof.
  destruct l as [| | |q]; cbn [notNegative]; intros H.
  - cbn. lia.
  - cbn. lia.
  - contradiction.
  - unfold McpTools.num_min. destruct (Qle_bool q 10) eqn:E.
    + apply Qle_bool_iff in E. unfold Qle in E, H. cbn [Qnum Qden] in E, H.
      unfold McpTools.sliceEnd.
      assert (Hk : (0 <= Z.quot (Qnum q) (Z.pos (Qden q)) <= 10)%Z).
      { split; [apply Z.quot_pos; lia | apply Z.quot_le_upper_bound; lia]. }
      destruct (Z.ltb_spec (Z.quot (Qnum q) (Z.pos (Qden q))) 0); lia.
    + cbn. lia.
Qed.

End StoreFacts.
Import StoreFacts.

(** X6: what one write leaves in the store, by the value of MAX_HISTORY
    ([parseInt] of it, 10 when it is missing).  The written prediction is
    the latest one.  With a limit of at least 1 it is the first entry of the
    history, before the first limit - 1 older ones.  With the limit 0 the
    history is empty.  With a negative limit the list loses that many
    entries from its end.  When the text is no number the history keeps
    every older entry. *)
Theorem writePrediction_history (prediction : jsval) (env : Env) (kv : KV) :
  let old := Cron.historyOf kv in
  let kv' := writePrediction prediction env kv in
  latest_prediction kv' = Some (toJSON prediction)
  /\ (MAX_HISTORY env = None -> maxHistoryOf env = Some 10%Z)
  /\ (forall n, maxHistoryOf env = Some n -> (1 <= n)%Z ->
      prediction_history kv'
      = Some (toJSON prediction :: map toJSON (firstn (Z.to_nat n - 1) old)))
  /\ (maxHistoryOf env = Some 0%Z -> prediction_history kv' = Some [])
  /\ (forall n, maxHistoryOf env = Some n -> (n < 0)%Z ->
      prediction_history kv'
      = Some (map toJSON
                (firstn (Z.to_nat (Z.of_nat (length old) + 1 + n))
                        (prediction :: old))))
  /\ (maxHistoryOf env = None ->
      prediction_history kv' = Some (map toJSON (prediction :: old))).
Proof.
  cbv zeta. split; [reflexivity|]. split.
  { intros H. unfold maxHistoryOf. rewrite H. reflexivity. }
  unfold writePrediction. cbn [prediction_history].
  fold (Cron.historyOf kv). split; [|split; [|split]].
  - intros n Hm Hn. rewrite Hm, pushHistory_nonneg by lia.
    destruct (Z.to_nat n) as [|k] eqn:Ek; [lia|].
    cbn [firstn map]. replace (S k - 1) with k by lia. reflexivity.
  - intros Hm. rewrite Hm, pushHistory_nonneg by lia. reflexivity.
  - intros n Hm Hn. rewrite Hm. unfold pushHistory.
    destruct (Z.ltb_spec n (Z.of_nat (length (prediction :: Cron.historyOf kv))))
      as [_|Hge]; [|cbn [length] in Hge; lia].
    destruct (Z.ltb_spec n 0) as [_|Hge]; [|lia].
    do 3 f_equal. cbn [length]. lia.
  - intros Hm. rewrite Hm. reflexivity.
Qed.

Example writePrediction_limits :
  let env0 := {| WEBHOOK_SECRET := None; MAX_HISTORY := Some (lit "0") |} in
  let envX := {| WEBHOOK_SECRET := None; MAX_HISTORY := Some (lit "ten") |} in
  let envN := {| WEBHOOK_SECRET := None; MAX_HISTORY := Some (lit "-1") |} in
  let kv := {| latest_prediction := None;
               prediction_history := Some [S_ "b"; S_ "c"] |} in
  prediction_history (writePrediction (S_ "a") env0 kv) = Some []
  /\ prediction_history (writePrediction (S_ "a") envX kv)
     = Some [S_ "a"; S_ "b"; S_ "c"]
  /\ prediction_history (writePrediction (S_ "a") envN kv)
     = Some [S_ "a"; S_ "b"].
Proof. repeat split; vm_compute; reflexivity. Qed.

(** X7: with a limit that is not negative, after any number of writes the
    history is the written predictions, the newest first, before the
    entries that were there, cut to the limit; the latest prediction is
    the last one written.  A write leaves the older entries as they are. *)
Theorem history_after_writes
    (env : Env) (n : Z) (p : jsval) (ps : list jsval) (kv : KV) :
  maxHistoryOf env = Some n -> (0 <= n)%Z ->
  let kv' := fold_left (fun kv q => writePrediction q env kv) ps
               (writePrediction p env kv) in
  latest_prediction kv' = Some (toJSON (last ps p))
  /\ Cron.historyOf kv'
     = firstn (Z.to_nat n) (map toJSON (rev (p :: ps) ++ Cron.historyOf kv))
  /\ length (Cron.historyOf kv') <= Z.to_nat n.
Proof.
  intros Hm Hn kv'.
  destruct (@writes_state env n Hn Hm ps p kv) as [H1 H2]. fold kv' in H1, H2.
  split; [exact H1|]. split; [exact H2|].
  rewrite H2. apply firstn_le_length.
Qed.

Lemma history_after_writes_witness :
  let env := {| WEBHOOK_SECRET := None; MAX_HISTORY := Some (lit "2") |} in
  let kv' := fold_left (fun kv q => writePrediction q env kv)
               [S_ "second"; S_ "third"] (writePrediction (S_ "first") env emptyKV) in
  maxHistoryOf env = Some 2%Z
  /\ latest_prediction kv' = Some (S_ "third")
  /\ Cron.historyOf kv' = [S_ "third"; S_ "second"].
Proof.
  cbv zeta.
  destruct (@history_after_writes
              {| WEBHOOK_SECRET := None; MAX_HISTORY := Some (lit "2") |}
              2 (S_ "first") [S_ "second"; S_ "third"] emptyKV eq_refl
              ltac:(lia)) as (H1 & H2 & _).
  split; [reflexivity|]. split; [exact H1 | exact H2].
Defined.

(** X8: [get_prediction_history] returns the first entries of the stored
    history.  Without a limit, 10 of them; with an integer limit that is
    not negative, that many and at most 10; with any limit that is not
    negative, at most 10.  A negative integer limit drops that many
    entries from the end of the history instead, and NaN yields none. *)
Theorem get_prediction_history_prefix (limit : option jsnum) (st : Cron.Store) :
  let history := Cron.historyOf (Cron.kv st) in
  let result := McpTools.get_prediction_history limit st in
  (exists k, k <= length history /\ result = firstn k history)
  /\ (limit = None -> result = firstn 10 history)
  /\ (forall z, limit = Some (Fin (inject_Z z)) -> (0 <= z)%Z ->
      result = firstn (Z.to_nat (Z.min z 10)) history)
  /\ (forall z, limit = Some (Fin (inject_Z z)) -> (z < 0)%Z ->
      result = firstn (length history - Z.to_nat (- z)) history)
  /\ (limit = Some NaN -> result = [])
  /\ (forall l, limit = Some l -> notNegative l -> length result <= 10).
Proof.
  cbv zeta. unfold McpTools.get_prediction_history.
  set (history := Cron.historyOf (Cron.kv st)).
  split; [eexists; split; [apply sliceEnd_le | reflexivity]|].
  split; [|split; [|split; [|split]]].
  - intros ->. change (Fin 10%Q) with (Fin (inject_Z 10)).
    rewrite num_min_int, sliceEnd_int.
    change (Z.min 10 10 <? 0)%Z with false. cbv iota.
    rewrite firstn_min_len. reflexivity.
  - intros z -> Hz. rewrite num_min_int, sliceEnd_int.
    destruct (Z.ltb_spec (Z.min z 10) 0); [lia|].
    apply firstn_min_len.
  - intros z -> Hz. rewrite num_min_int, sliceEnd_int.
    replace (Z.min z 10) with z by lia.
    destruct (Z.ltb_spec z 0); [|lia]. f_equal. lia.
  - intros ->. reflexivity.
  - intros l -> Hl. etransitivity; [apply firstn_le_length|].
    apply sliceEnd_ten. exact Hl.
Qed.

Example get_prediction_history_limits :
  let st := {| Cron.kv := {| latest_prediction := None;
                             prediction_history :=
                               Some (map (fun n => num (inject_Z n))
                                       [1; 2; 3; 4; 5; 6; 7; 8; 9; 10; 11; 12]%Z) |};
               Cron.latest_image_key := None;
               Cron.last_processed_post_id := None;
               Cron.IMAGES := [] |} in
  length (McpTools.get_prediction_history (Some (Fin 50%Q)) st) = 10
  /\ length (McpTools.get_prediction_history (Some (Fin (- 1)%Q)) st) = 11
  /\ length (McpTools.get_prediction_history (Some (Fin (5 # 2))) st) = 2
  /\ length (McpTools.get_prediction_history (Some PosInf) st) = 10.
Proof. repeat split; vm_compute; reflexivity. Qed.

(** ** The scraper *)

Module RedditFacts.
Import Reddit.

Lemma Sem_LitI_intro : forall seg b a cs,
  Sem (LitI (map asciiLower seg)) (b, seg ++ a) cs (rev seg ++ b, a) cs.
Proof.
  induction seg as [|x seg IH]; intros b a cs; [constructor|].
  cbn [map LitI app rev]. rewrite <- app_assoc. cbn [app].
  eapply SemSeq; [|apply IH].
  constructor. unfold eqci. apply Ascii.eqb_refl.
Qed.

Lemma occurs_folded w s :
  occursIn w (map asciiLower s) <->
  exists pre seg post, s = pre ++ seg ++ post /\ map asciiLower seg = w.
Proof.
  split.
  - intros (pre' & post' & E).
    apply map_eq_app in E. destruct E as (pre & rest & -> & _ & E).
    apply map_eq_app in E. destruct E as (seg & post & -> & E & _).
    exists pre, seg, post. split; [reflexivity | exact E].
  - intros (pre & seg & post & -> & <-).
    exists (map asciiLower pre), (map asciiLower post).
    rewrite !map_app. reflexivity.
Qed.

(** A match of a literal under the i flag is an occurrence of the word in
    the text folded to lower case. *)
Lemma LitI_occurs w s :
  (exists pre a0 d ds, s = pre ++ a0 /\ Sem (LitI w) (rev pre, a0) [] d ds)
  <-> occursIn w (map asciiLower s).
Proof.
  rewrite occurs_folded. split.
  - intros (pre & a0 & d & ds & -> & H).
    apply Sem_LitI in H. destruct H as [_ (seg & [_ Ha] & Hm)].
    cbn [snd] in Ha. exists pre, seg, (snd d). split; [|exact Hm].
    rewrite Ha. reflexivity.
  - intros (pre & seg & post & -> & <-).
    exists pre, (seg ++ post), (rev seg ++ rev pre, post), [].
    split; [reflexivity | apply Sem_LitI_intro].
Qed.

Lemma occurs_gasoline s :
  occursIn (lit "gasoline") s -> occursIn (lit "gas") s.
Proof.
  intros (pre & post & ->). exists pre, (lit "oline" ++ post). reflexivity.
Qed.

Lemma fuelKeywords_spec t :
  test fuelKeywords t = true
  <-> exists w, In w keywords /\ occursIn w (map asciiLower t).
Proof.
  rewrite test_spec. split.
  - intros (pre & a0 & d & ds & E & H).
    assert (Hw : exists w, In w (lit "gasoline" :: keywords)
                           /\ Sem (LitI w) (rev pre, a0) [] d ds).
    { unfold fuelKeywords, LI in H.
      inversion H as [| | |? ? ? ? ? ? H1|? ? ? ? ? ? H1| | | | |]; subst; clear H;
        [exists (lit "gas"); split; [cbn; tauto | exact H1]|].
      inversion H1 as [| | |? ? ? ? ? ? H2|? ? ? ? ? ? H2| | | | |]; subst; clear H1;
        [exists (lit "gasoline"); split; [cbn; tauto | exact H2]|].
      inversion H2 as [| | |? ? ? ? ? ? H3|? ? ? ? ? ? H3| | | | |]; subst; clear H2;
        [exists (lit "diesel"); split; [cbn; tauto | exact H3]|].
      inversion H3 as [| | |? ? ? ? ? ? H4|? ? ? ? ? ? H4| | | | |]; subst; clear H3;
        [exists (lit "fuel"); split; [cbn; tauto | exact H4]|].
      inversion H4 as [| | |? ? ? ? ? ? H5|? ? ? ? ? ? H5| | | | |]; subst; clear H4;
        [exists (lit "price"); split; [cbn; tauto | exact H5]|].
      exists (lit "interrupter"). split; [cbn; tauto | exact H5]. }
    destruct Hw as (w & Hin & Hs).
    assert (Ho : occursIn w (map asciiLower t)).
    { apply LitI_occurs. exists pre, a0, d, ds. split; assumption. }
    destruct Hin as [<- | Hin].
    + exists (lit "gas"). split; [cbn; tauto | apply occurs_gasoline; exact Ho].
    + exists w. split; assumption.
  - intros (w & Hin & Ho). apply LitI_occurs in Ho.
    destruct Ho as (pre & a0 & d & ds & E & Hs).
    exists pre, a0, d, ds. split; [exact E|].
    unfold fuelKeywords, LI. cbn in Hin.
    destruct Hin as [<-|[<-|[<-|[<-|[<-|[]]]]]].
    + apply SemAltL. exact Hs.
    + apply SemAltR, SemAltR, SemAltL. exact Hs.
    + apply SemAltR, SemAltR, SemAltR, SemAltL. exact Hs.
    + apply SemAltR, SemAltR, SemAltR, SemAltR, SemAltL. exact Hs.
    + apply SemAltR, SemAltR, SemAltR, SemAltR, SemAltR. exact Hs.
Qed.

Lemma isFuelPost_spec a now p :
  isFuelPost a now p = true <-> qualifies a now p.
Proof.
  unfold isFuelPost, qualifies.
  rewrite !andb_true_iff, jstr_eqb_eq, fuelKeywords_spec. tauto.
Qed.

Lemma find_split {A : Type} (f : A -> bool) : forall l x,
  find f l = Some x ->
  exists before after,
    l = before ++ x :: after /\ f x = true
    /\ Forall (fun y => f y = false) before.
Proof.
  induction l as [|y l IH]; intros x H; [discriminate H|].
  cbn [find] in H. destruct (f y) eqn:E.
  - injection H as ->. exists [], l. repeat split; [exact E | constructor].
  - destruct (IH x H) as (before & after & -> & Hx & Hb).
    exists (y :: before), after. repeat split; [exact Hx|].
    constructor; assumption.
Qed.

End RedditFacts.
Import RedditFacts.

(** X9: the post [fetchBuckitPost] returns is the first of the listing
    that is by the author (in any case of the letters), has gas, diesel,
    fuel, price or interrupter in its title (in any case) and is younger
    than seven days: no post before it in the listing is such a post.  It
    returns null when the listing has none, and when the response is not
    ok; it throws when the fetch does. *)
Theorem fetchBuckitPost_first (res : Reddit.Fetched Reddit.Submission)
    (REDDIT_AUTHOR : jstr) (now : Z) :
  (forall p, Reddit.fetchBuckitPost res REDDIT_AUTHOR now = Some (Some p) ->
     exists before after,
       res = Reddit.Listing (before ++ p :: after)
       /\ Reddit.qualifies REDDIT_AUTHOR now p
       /\ Forall (fun q => ~ Reddit.qualifies REDDIT_AUTHOR now q) before)
  /\ (forall children, res = Reddit.Listing children ->
      (Reddit.fetchBuckitPost res REDDIT_AUTHOR now = Some None
       <-> Forall (fun q => ~ Reddit.qualifies REDDIT_AUTHOR now q) children))
  /\ (forall status, res = Reddit.NotOk status ->
      Reddit.fetchBuckitPost res REDDIT_AUTHOR now = Some None)
  /\ (Reddit.fetchBuckitPost res REDDIT_AUTHOR now = None <-> res = Reddit.Threw).
Proof.
  assert (Hneg : forall l,
    Forall (fun y => Reddit.isFuelPost REDDIT_AUTHOR now y = false) l
    <-> Forall (fun q => ~ Reddit.qualifies REDDIT_AUTHOR now q) l).
  { intros l. rewrite !Forall_forall. split; intros H q Hq.
    - rewrite <- isFuelPost_spec. rewrite (H q Hq). discriminate.
    - specialize (H q Hq). rewrite <- isFuelPost_spec in H.
      destruct (Reddit.isFuelPost REDDIT_AUTHOR now q); congruence. }
  split; [|split; [|split]].
  - intros p H. destruct res as [|status|children]; try discriminate H.
    cbn [Reddit.fetchBuckitPost] in H. injection H as H.
    apply find_split in H. destruct H as (before & after & -> & Hp & Hb).
    exists before, after. split; [reflexivity|].
    split; [apply isFuelPost_spec; exact Hp | apply Hneg; exact Hb].
  - intros children ->. cbn [Reddit.fetchBuckitPost]. rewrite <- Hneg. split.
    + intros H. injection H as H. apply Forall_forall. intros q Hq.
      apply (find_none _ _ H q Hq).
    + intros H. f_equal. rewrite Forall_forall in H.
      destruct (find (Reddit.isFuelPost REDDIT_AUTHOR now) children) as [q|] eqn:E;
        [|reflexivity].
      apply find_some in E. destruct E as [Hin Hq]. rewrite (H q Hin) in Hq.
      discriminate Hq.
  - intros status ->. reflexivity.
  - destruct res; cbn [Reddit.fetchBuckitPost]; split; intros H;
      try reflexivity; discriminate H.
Qed.

Example fetchBuckitPost_example :
  option_map (option_map Reddit.id)
    (Reddit.fetchBuckitPost (Reddit.Listing someListing) (lit "buckit") 1000000000)
  = Some (Some (lit "a4")).
Proof. vm_compute. reflexivity. Qed.

(** ** The cron job *)

Module CronFacts.
Import Reddit Cron.

Lemma lookup_app_l k x : forall l r,
  lookup k l = Some x -> lookup k (l ++ r) = Some x.
Proof.
  induction l as [|[k' v] l IH]; intros r H; [discriminate H|].
  cbn [lookup app] in *. destruct (jstr_eqb k k'); [exact H | apply IH; exact H].
Qed.

Lemma lookup_app_r k : forall l r,
  lookup k l = None -> lookup k (l ++ r) = lookup k r.
Proof.
  induction l as [|[k' v] l IH]; intros r H; [reflexivity|].
  cbn [lookup app] in *. destruct (jstr_eqb k k'); [discriminate H | apply IH; exact H].
Qed.

(** A property that is defined is read from the JSON text as its JSON
    value; one that is missing is missing there. *)
Lemma lookup_toJSON k : forall props,
  match lookup k props with
  | Some x =>
      x <> VUndefined ->
      exists r, toJSON (VObj props) = VObj r /\ lookup k r = Some (toJSON x)
  | None => exists r, toJSON (VObj props) = VObj r /\ lookup k r = None
  end.
Proof.
  induction props as [|[k' v] t IH]; [exists []; split; reflexivity|].
  cbn [lookup]. destruct (jstr_eqb k k') eqn:E.
  - intros Hv. rewrite toJSON_cons by exact Hv.
    eexists. split; [reflexivity|]. cbn [lookup]. rewrite E. reflexivity.
  - destruct v as [| |b|n|s|its|ps];
      [ rewrite toJSON_skip; exact IH
      | rewrite toJSON_cons by discriminate .. ];
      (destruct (lookup k t) as [x|];
       [ intros Hx; destruct (IH Hx) as (r & -> & Hr)
       | destruct IH as (r & -> & Hr) ];
       eexists; (split; [reflexivity|]); cbn [lookup]; rewrite E; exact Hr).
Qed.

Lemma getProp_toJSON_some props k x :
  lookup (lit k) props = Some x -> x <> VUndefined ->
  getProp (toJSON (VObj props)) k = toJSON x.
Proof.
  intros H Hx. pose proof (lookup_toJSON (lit k) props) as L.
  rewrite H in L. destruct (L Hx) as (r & -> & Hr).
  unfold getProp. rewrite Hr. reflexivity.
Qed.

Lemma getProp_toJSON_none props k :
  lookup (lit k) props = None -> getProp (toJSON (VObj props)) k = VUndefined.
Proof.
  intros H. pose proof (lookup_toJSON (lit k) props) as L.
  rewrite H in L. destruct L as (r & -> & Hr).
  unfold getProp. rewrite Hr. reflexivity.
Qed.

(** The parts of [process]. *)
Lemma process_parts w cfg p st :
  exists extra images key,
    process w cfg p st
    = {| kv := writePrediction
                 (match predictionOf w p (parseRedditPost (post p)) with
                  | VObj props => VObj (props ++ extra)
                  | other => other
                  end) (env cfg) (kv st);
         latest_image_key := key;
         last_processed_post_id := Some (id p);
         IMAGES := images |}
    /\ let dir := actionableDirection (parseRedditPost (post p)) in
       let prompt :=
         Prompt.buildImagePrompt dir (id p)
           (fetchCommunityContext (top_halifax w) (top_novascotia w))
           (Some (month w)) in
       let r2Key := lit "images/" ++ id p ++ lit ".png" in
       ((dir = VNull \/ ai w prompt = None) ->
        extra = [] /\ images = IMAGES st /\ key = latest_image_key st)
       /\ (forall b, dir <> VNull -> ai w prompt = Some b ->
           extra = [(lit "image_key", VStr r2Key)]
           /\ images = (r2Key, {| bytes := b;
                                  contentType := lit "image/png";
                                  postId := id p;
                                  imageDirection := dir;
                                  generatedAt := imageTime w |}) :: IMAGES st
           /\ key = Some r2Key).
Proof.
  unfold process.
  set (dir := actionableDirection (parseRedditPost (post p))).
  assert (Hdir : dir = VNull /\ truthy dir = false
                 \/ dir <> VNull /\ truthy dir = true).
  { unfold dir, actionableDirection.
    set (d := nullish_or _ _).
    destruct (isStr "up" d || isStr "down" d) eqn:E; [|left; split; reflexivity].
    right. apply orb_true_iff in E.
    destruct d; try (destruct E as [E|E]; discriminate E).
    unfold isStr in E. rewrite !jstr_eqb_eq in E.
    destruct E as [-> | ->]; split; try discriminate; reflexivity. }
  destruct Hdir as [[Hd Ht]|[Hd Ht]]; rewrite Ht.
  - exists [], (IMAGES st), (latest_image_key st). split.
    + cbn [predictionOf]. rewrite app_nil_r. reflexivity.
    + cbv zeta. split; [intros _; repeat split|].
      intros b Hne. contradiction.
  - unfold generateAndStoreImage.
    destruct (ai w (Prompt.buildImagePrompt dir (id p)
                      (fetchCommunityContext (top_halifax w) (top_novascotia w))
                      (Some (month w)))) as [b|] eqn:Ea.
    + eexists _, _, _. split; [reflexivity|]. cbv zeta. split.
      * intros [H|H]; [contradiction | discriminate H].
      * intros b' _ Hb. injection Hb as <-. repeat split.
    + exists [], (IMAGES st), (latest_image_key st). split.
      * cbn [predictionOf]. rewrite app_nil_r. reflexivity.
      * cbv zeta. split; [intros _; repeat split|].
        intros b _ Hb. discriminate Hb.
Qed.

Lemma scheduled_fresh w cfg st p :
  fetchBuckitPost (listing w) (REDDIT_AUTHOR cfg) (now w) = Some (Some p) ->
  alreadyProcessed st p = false ->
  scheduled w cfg st = process w cfg p st.
Proof. intros H1 H2. unfold scheduled. rewrite H1, H2. reflexivity. Qed.


End CronFacts.
Import CronFacts.


(** ** The slots of the parser *)

Module SlotFacts.

Lemma lastWhere_in {A : Type} (p : A -> bool) l x :
  lastWhere p l = Some x -> In x l.
Proof.
  unfold lastWhere. intros H. apply find_some in H.
  apply in_rev. exact (proj1 H).
Qed.

(** Where a slot of the result comes from: the free text, or a row. *)
Lemma parsed_slot_origin post slot :
  gas (parseRedditPost post) = Some slot
  \/ diesel (parseRedditPost post) = Some slot ->
  slot = freeTextSlot (fullTextOf post)
  \/ exists m, isRowCapture m /\ slot = rowSlot m.
Proof.
  intros Hslot.
  destruct (execAll tableRowRe (fullTextOf post)) as [|m0 rows0] eqn:E.
  - left. rewrite (parseRedditPost_freeText post E) in Hslot.
    unfold freeTextStrategy in Hslot.
    destruct (test re_diesel (toLowerCase (fullTextOf post)));
      cbn [gas diesel fst snd] in Hslot; destruct Hslot; congruence.
  - right.
    assert (Hne : execAll tableRowRe (fullTextOf post) <> [])
      by (rewrite E; discriminate).
    rewrite (parseRedditPost_table post Hne) in Hslot.
    cbn [gas diesel] in Hslot.
    pose proof (rows_captures (fullTextOf post)) as Hc.
    rewrite Forall_forall in Hc.
    destruct Hslot as [H | H];
      match type of H with
      | option_map _ ?o = _ => destruct o as [m|] eqn:Em; [|discriminate H]
      end; exists m; (split; [apply Hc; eapply lastWhere_in; exact Em|]);
      cbn [option_map] in H; congruence.
Qed.

Lemma parsed_has_slot post :
  gas (parseRedditPost post) <> None \/ diesel (parseRedditPost post) <> None.
Proof.
  destruct (execAll tableRowRe (fullTextOf post)) as [|m rows] eqn:E.
  - rewrite (parseRedditPost_freeText post E). unfold freeTextStrategy.
    destruct (test re_diesel (toLowerCase (fullTextOf post)));
      cbn [gas diesel fst snd]; [right | left]; discriminate.
  - assert (Hne : execAll tableRowRe (fullTextOf post) <> [])
      by (rewrite E; discriminate).
    pose proof (rows_captures (fullTextOf post)) as Hc.
    rewrite (parseRedditPost_table post Hne). cbn [gas diesel].
    rewrite E in *. inversion Hc as [|? ? Hm _]; subst.
    apply rowCapture_names in Hm. rewrite !lastWhere_cons, Hm.
    destruct (namesGas m).
    + left. destruct (lastWhere namesGas rows); discriminate.
    + right. destruct (lastWhere namesDiesel rows); discriminate.
Qed.

(** The price of a cell of digits and dots: no number, or a number that
    is not negative. *)
Lemma token_price tok :
  all isDigitOrDot tok ->
  let p := priceInDollars (parseFloat tok) in
  p = NaN \/ (p <> NaN /\ notNegative p).
Proof.
  intros Hall. pose proof (parseFloat_digdot Hall) as Hn. cbv zeta.
  destruct (parseFloat tok) as [| | |q]; [left; reflexivity | | destruct Hn |].
  - right. split; [discriminate | exact I].
  - right. cbn [notNegative] in Hn. unfold priceInDollars.
    destruct (num_gt (Fin q) (Fin 10%Q)).
    + cbn [num_div_pos].
      assert (Hq : (0 <= q / 100)%Q).
      { apply Qle_shift_div_l; [reflexivity|]. rewrite Qmult_0_l. exact Hn. }
      destruct (round64_sign Hq) as [H1 H2]. split; assumption.
    + split; [discriminate | exact Hn].
Qed.

Lemma freeTextDirection_values t :
  In (freeTextDirection t) [S_ "up"; S_ "down"; S_ "no-change"; VNull].
Proof.
  unfold freeTextDirection.
  destruct (test re_nochange t), (test re_downward t), (test re_upward t);
    cbn; tauto.
Qed.

End SlotFacts.
Import SlotFacts.

(** X11: in every slot [parseRedditPost] returns, the direction is up,
    down, no-change or null, and the price is null or a number that is
    neither NaN nor negative. *)
Theorem parsed_slot_values (post : Post) (slot : FuelSlot) :
  gas (parseRedditPost post) = Some slot
  \/ diesel (parseRedditPost post) = Some slot ->
  In (direction slot) [S_ "up"; S_ "down"; S_ "no-change"; VNull]
  /\ (price slot = VNull
      \/ exists n, price slot = VNum n /\ n <> NaN /\ notNegative n).
Proof.
  intros H. apply parsed_slot_origin in H.
  destruct H as [-> | (m & Hm & ->)].
  - split; [apply freeTextDirection_values|].
    cbn [price freeTextSlot]. rewrite pickPrice_cases.
    pose proof (price_tokens (fullTextOf post)) as Ht.
    unfold freeTextPrices.
    destruct (execAll priceRe (fullTextOf post)) as [|m1 [|m2 rest]];
      [left; reflexivity | |]; cbn [map] in *; right.
    + inversion Ht as [|? ? Ha _]; subst.
      destruct (amount_value Ha) as (ip & fp & _ & _ & Hn & Hnot). eauto.
    + inversion Ht as [|? ? _ Ht']; subst. inversion Ht' as [|? ? Ha _]; subst.
      destruct (amount_value Ha) as (ip & fp & _ & _ & Hn & Hnot). eauto.
  - split.
    + destruct (parseAdjustment_invariant (group 2 m)) as (_ & _ & Hd). exact Hd.
    + destruct Hm as (ty & adj & pr & -> & _ & _ & _ & Hpr & _).
      unfold rowSlot. cbn [price group Nat.eqb].
      destruct (token_price Hpr) as [E | [E Hq]]; cbv zeta in E.
      * rewrite E. left. reflexivity.
      * right. destruct (priceInDollars (parseFloat pr)) eqn:Ep;
          [congruence | | |]; cbn [isNaN]; eexists;
          (split; [reflexivity | split; [discriminate | exact Hq]]).
Qed.

Lemma parsed_slot_values_witness :
  let post := {| title := lit "Prices";
                 selftext := Some (lit "|Diesel| DOWN 0.7 |154.4|") |} in
  exists slot,
    diesel (parseRedditPost post) = Some slot
    /\ In (direction slot) [S_ "up"; S_ "down"; S_ "no-change"; VNull]
    /\ (price slot = VNull
        \/ exists n, price slot = VNum n /\ n <> NaN /\ notNegative n).
Proof.
  cbv zeta. eexists. split; [vm_compute; reflexivity|].
  apply (@parsed_slot_values
           {| title := lit "Prices";
              selftext := Some (lit "|Diesel| DOWN 0.7 |154.4|") |}).
  right. vm_compute. reflexivity.
Defined.

(** ** Case and white space *)

Module TrimFacts.

Lemma isSpace_lowerChar a : isSpace (lowerChar a) = isSpace a.
Proof. destruct a as [[] [] [] [] [] [] [] []]; reflexivity. Qed.

Lemma lowerChar_idem a : lowerChar (lowerChar a) = lowerChar a.
Proof. destruct a as [[] [] [] [] [] [] [] []]; reflexivity. Qed.

Lemma toLowerCase_dropWhile : forall s,
  toLowerCase (dropWhile isSpace s) = dropWhile isSpace (toLowerCase s).
Proof.
  induction s as [|a s IH]; [reflexivity|].
  cbn [dropWhile toLowerCase map]. rewrite isSpace_lowerChar.
  destruct (isSpace a); [exact IH | reflexivity].
Qed.

Lemma toLowerCase_trim s : toLowerCase (trim s) = trim (toLowerCase s).
Proof.
  unfold trim, trimEnd, trimStart, toLowerCase.
  rewrite map_rev. fold (toLowerCase (dropWhile isSpace (rev (dropWhile isSpace s)))).
  rewrite toLowerCase_dropWhile. unfold toLowerCase. rewrite map_rev.
  fold (toLowerCase (dropWhile isSpace s)). rewrite toLowerCase_dropWhile.
  reflexivity.
Qed.

Lemma toLowerCase_idem s : toLowerCase (toLowerCase s) = toLowerCase s.
Proof.
  unfold toLowerCase. rewrite map_map. apply map_ext. apply lowerChar_idem.
Qed.

End TrimFacts.
Import TrimFacts.

(** X12: [parseAdjustment] reads a cell the same whatever white space
    surrounds it and whatever the case of its letters. *)
Theorem parseAdjustment_normal (adj ws1 ws2 : jstr) :
  all isSpace ws1 -> all isSpace ws2 ->
  parseAdjustment (ws1 ++ adj ++ ws2) = parseAdjustment adj
  /\ parseAdjustment (toLowerCase adj) = parseAdjustment adj.
Proof.
  intros H1 H2. split.
  - unfold parseAdjustment. rewrite (trim_pad adj H1 H2). reflexivity.
  - unfold parseAdjustment.
    rewrite <- (toLowerCase_trim adj), toLowerCase_idem. reflexivity.
Qed.

Lemma parseAdjustment_normal_witness :
  all isSpace (lit "  ") /\ all isSpace (lit " ")
  /\ parseAdjustment (lit "  " ++ lit "Up 3.6" ++ lit " ") = parseAdjustment (lit "Up 3.6")
  /\ parseAdjustment (toLowerCase (lit "Up 3.6")) = parseAdjustment (lit "Up 3.6").
Proof.
  assert (H1 : all isSpace (lit "  ")) by (repeat constructor).
  assert (H2 : all isSpace (lit " ")) by (repeat constructor).
  split; [exact H1|]. split; [exact H2|].
  apply (@parseAdjustment_normal (lit "Up 3.6") (lit "  ") (lit " ") H1 H2).
Defined.

(** ** What a run of the cron job stores *)

Module RunFacts.
Import Reddit Cron.

Lemma actionable_values parsed :
  actionableDirection parsed = S_ "up"
  \/ actionableDirection parsed = S_ "down"
  \/ actionableDirection parsed = VNull.
Proof.
  unfold actionableDirection. set (d := nullish_or _ _).
  destruct (isStr "up" d) eqn:E1; cbn [orb].
  - left. destruct d; try discriminate E1. unfold isStr in E1.
    apply jstr_eqb_eq in E1. subst. reflexivity.
  - destruct (isStr "down" d) eqn:E2; [|right; right; reflexivity].
    right; left. destruct d; try discriminate E2. unfold isStr in E2.
    apply jstr_eqb_eq in E2. subst. reflexivity.
Qed.

Lemma actionable_no_change parsed s :
  gas parsed = Some s -> direction s = S_ "no-change" ->
  actionableDirection parsed = VNull.
Proof.
  intros Hg Hd. unfold actionableDirection. rewrite Hg.
  cbn [directionOf]. rewrite Hd. reflexivity.
Qed.

(** A property of the stored prediction other than the key of the image. *)
Lemma stored_prop w p parsed extra k v :
  lookup (lit k)
    (match predictionOf w p parsed with VObj props => props | _ => [] end)
  = Some v ->
  v <> VUndefined ->
  getProp (toJSON (match predictionOf w p parsed with
                   | VObj props => VObj (props ++ extra)
                   | other => other
                   end)) k
  = toJSON v.
Proof.
  cbn [predictionOf]. intros H Hv.
  apply getProp_toJSON_some; [|exact Hv]. apply lookup_app_l. exact H.
Qed.

Lemma notesObj_json n : toJSON (notesObj n) = notesObj n.
Proof. destruct n; reflexivity. Qed.

Lemma slot_json_not_null s : toJSON (Webhook.slotObj (Some s)) <> VNull.
Proof.
  unfold Webhook.slotObj. destruct (toJSON_obj
    [(lit "direction", direction s); (lit "adjustment", adjustment s);
     (lit "price", price s)]) as [r ->]. discriminate.
Qed.

End RunFacts.
Import RunFacts.

(** X13: a run that processes a post asks for an image only when the
    direction of the gas slot (of the diesel slot, when the gas slot has
    none) is up or down; a prediction of no change gets none.  When the
    model fails, or no image is asked for, the bucket and the key of the
    latest image stay as they are and the stored prediction names no
    image.  Otherwise the image is put under images/, the post id and
    .png, and that key is stored, also in the prediction. *)
Theorem scheduled_image
    (w : Cron.World) (cfg : Cron.Config) (st : Cron.Store)
    (p : Reddit.Submission) :
  Reddit.fetchBuckitPost (Cron.listing w) (Cron.REDDIT_AUTHOR cfg) (Cron.now w)
  = Some (Some p) ->
  Cron.alreadyProcessed st p = false ->
  let parsed := parseRedditPost (Reddit.post p) in
  let dir := Cron.actionableDirection parsed in
  let prompt :=
    Prompt.buildImagePrompt dir (Reddit.id p)
      (Reddit.fetchCommunityContext (Cron.top_halifax w) (Cron.top_novascotia w))
      (Some (Cron.month w)) in
  let key := lit "images/" ++ Reddit.id p ++ lit ".png" in
  let st' := Cron.scheduled w cfg st in
  (dir = S_ "up" \/ dir = S_ "down" \/ dir = VNull)
  /\ (forall s, gas parsed = Some s -> direction s = S_ "no-change" ->
      dir = VNull)
  /\ ((dir = VNull \/ Cron.ai w prompt = None) ->
      Cron.IMAGES st' = Cron.IMAGES st
      /\ Cron.latest_image_key st' = Cron.latest_image_key st
      /\ getProp (McpTools.get_latest_prediction st') "image_key" = VUndefined)
  /\ (forall b, dir <> VNull -> Cron.ai w prompt = Some b ->
      Cron.IMAGES st'
      = (key, {| Cron.bytes := b;
                 Cron.contentType := lit "image/png";
                 Cron.postId := Reddit.id p;
                 Cron.imageDirection := dir;
                 Cron.generatedAt := Cron.imageTime w |}) :: Cron.IMAGES st
      /\ Cron.latest_image_key st' = Some key
      /\ getProp (McpTools.get_latest_prediction st') "image_key" = VStr key).
Proof.
  intros Hf Hn parsed dir prompt key st'.
  split; [apply actionable_values|]. split; [apply actionable_no_change|].
  unfold st'. rewrite (scheduled_fresh w cfg st Hf Hn).
  destruct (process_parts w cfg p st) as (extra & images & k & -> & H1 & H2).
  fold parsed dir prompt key in H1, H2.
  unfold McpTools.get_latest_prediction.
  cbn [Cron.kv Cron.IMAGES Cron.latest_image_key latest_prediction writePrediction].
  split.
  - intros H. destruct (H1 H) as (-> & -> & ->). repeat split.
    cbn [Cron.predictionOf]. apply getProp_toJSON_none. reflexivity.
  - intros b Hd Hb. destruct (H2 b Hd Hb) as (-> & -> & ->). repeat split.
    cbn [Cron.predictionOf].
    change (VStr key) with (toJSON (VStr key)).
    apply getProp_toJSON_some; [reflexivity | discriminate].
Qed.

Lemma scheduled_image_witness :
  let st' := Cron.scheduled someWorld someConfig emptyStore in
  Cron.alreadyProcessed emptyStore tablePost = false
  /\ Cron.actionableDirection (parseRedditPost (Reddit.post tablePost)) = S_ "up"
  /\ Cron.latest_image_key st' = Some (lit "images/t3abc.png")
  /\ getProp (McpTools.get_latest_prediction st') "image_key"
     = S_ "images/t3abc.png".
Proof.
  cbv zeta. split; [reflexivity|]. split; [vm_compute; reflexivity|].
  destruct (@scheduled_image someWorld someConfig emptyStore tablePost
              ltac:(vm_compute; reflexivity) eq_refl) as (_ & _ & _ & H).
  destruct (H (lit "PNG") ltac:(vm_compute; discriminate) eq_refl)
    as (_ & Hk & Hp).
  split; [exact Hk | exact Hp].
Defined.

(** X14: the prediction a run stores for the post it processes has the
    slots and the notes of [parseRedditPost], at least one slot, the
    source reddit, the id of the post and the time of the run; the id is
    remembered, and [get_status] reports them. *)
Theorem scheduled_prediction
    (w : Cron.World) (cfg : Cron.Config) (st : Cron.Store)
    (p : Reddit.Submission) :
  Reddit.fetchBuckitPost (Cron.listing w) (Cron.REDDIT_AUTHOR cfg) (Cron.now w)
  = Some (Some p) ->
  Cron.alreadyProcessed st p = false ->
  let parsed := parseRedditPost (Reddit.post p) in
  let st' := Cron.scheduled w cfg st in
  let latest := McpTools.get_latest_prediction st' in
  getProp latest "gas" = toJSON (Webhook.slotObj (gas parsed))
  /\ getProp latest "diesel" = toJSON (Webhook.slotObj (diesel parsed))
  /\ (getProp latest "gas" <> VNull \/ getProp latest "diesel" <> VNull)
  /\ getProp latest "notes" = Cron.notesObj (notes parsed)
  /\ getProp latest "source" = S_ "reddit"
  /\ getProp latest "post_id" = VStr (Reddit.id p)
  /\ getProp latest "reddit_title" = VStr (title (Reddit.post p))
  /\ getProp latest "updated_at" = VStr (Cron.updated_at w)
  /\ Cron.last_processed_post_id st' = Some (Reddit.id p)
  /\ McpTools.get_status st'
     = VObj [(lit "ok", VBool true);
             (lit "last_updated", VStr (Cron.updated_at w));
             (lit "last_post_id", VStr (Reddit.id p));
             (lit "latest_image_key",
              McpTools.textOrNull (Cron.latest_image_key st'));
             (lit "has_prediction", VBool true)].
Proof.
  intros Hf Hn parsed st' latest.
  assert (Hl : exists extra,
    latest = toJSON (match Cron.predictionOf w p parsed with
                     | VObj props => VObj (props ++ extra)
                     | other => other
                     end)
    /\ Cron.last_processed_post_id st' = Some (Reddit.id p)).
  { unfold latest, st'. rewrite (scheduled_fresh w cfg st Hf Hn).
    destruct (process_parts w cfg p st) as (extra & images & k & -> & _).
    exists extra. split; reflexivity. }
  destruct Hl as (extra & Hl & Hid).
  assert (Hg : getProp latest "gas" = toJSON (Webhook.slotObj (gas parsed)))
    by (rewrite Hl; apply stored_prop; [reflexivity | apply slotObj_defined]).
  assert (Hd : getProp latest "diesel" = toJSON (Webhook.slotObj (diesel parsed)))
    by (rewrite Hl; apply stored_prop; [reflexivity | apply slotObj_defined]).
  assert (Hu : getProp latest "updated_at" = VStr (Cron.updated_at w))
    by (rewrite Hl; apply (@stored_prop w p parsed extra "updated_at"
                             (VStr (Cron.updated_at w))); [reflexivity | discriminate]).
  split; [exact Hg|]. split; [exact Hd|]. split.
  { rewrite Hg, Hd. destruct (parsed_has_slot (Reddit.post p)) as [H|H];
      fold parsed in H.
    - left. destruct (gas parsed) as [s|]; [apply slot_json_not_null | congruence].
    - right. destruct (diesel parsed) as [s|]; [apply slot_json_not_null | congruence]. }
  split.
  { rewrite Hl. rewrite <- notesObj_json. apply stored_prop; [reflexivity|].
    destruct (notes parsed); discriminate. }
  split.
  { rewrite Hl. apply (@stored_prop w p parsed extra "source" (S_ "reddit"));
      [reflexivity | discriminate]. }
  split.
  { rewrite Hl. apply (@stored_prop w p parsed extra "post_id" (VStr (Reddit.id p)));
      [reflexivity | discriminate]. }
  split.
  { rewrite Hl. apply (@stored_prop w p parsed extra "reddit_title"
                         (VStr (title (Reddit.post p))));
      [reflexivity | discriminate]. }
  split; [exact Hu|]. split; [exact Hid|].
  unfold McpTools.get_status. fold latest. rewrite Hu, Hid.
  cbn [nullish_or McpTools.textOrNull].
  assert (Hnn : latest <> VNull).
  { rewrite Hl. cbn [Cron.predictionOf].
    match goal with |- toJSON (VObj ?l) <> _ =>
      destruct (toJSON_obj l) as [r ->] end. discriminate. }
  destruct latest; try reflexivity. contradiction Hnn. reflexivity.
Qed.

Lemma scheduled_prediction_witness :
  let st' := Cron.scheduled someWorld someConfig emptyStore in
  let latest := McpTools.get_latest_prediction st' in
  getProp latest "gas"
  = VObj [(lit "direction", S_ "up");
          (lit "adjustment", VNum (round64 (36 # 10)));
          (lit "price", VNum (round64 (1621 # 1000)))]
  /\ getProp latest "diesel" = VNull
  /\ Cron.last_processed_post_id st' = Some (lit "t3abc").
Proof.
  cbv zeta.
  destruct (@scheduled_prediction someWorld someConfig emptyStore tablePost
              ltac:(vm_compute; reflexivity) eq_refl)
    as (Hg & Hd & _ & _ & _ & _ & _ & _ & Hid & _).
  split; [rewrite Hg; vm_compute; reflexivity|].
  split; [rewrite Hd; vm_compute; reflexivity | exact Hid].
Defined.

(** ** Headers and routes *)

Module HttpFacts.
Import Cron Http.

Lemma filter_none {A : Type} (f : A -> bool) : forall l,
  filter f (filter (fun x => negb (f x)) l) = [].
Proof.
  induction l as [|x l IH]; [reflexivity|].
  cbn [filter]. destruct (f x) eqn:E; cbn [negb filter]; [exact IH|].
  rewrite E. exact IH.
Qed.

Lemma filter_keeps {A : Type} (f g : A -> bool) :
  (forall x, f x = true -> g x = true) ->
  forall l, filter f (filter g l) = filter f l.
Proof.
  intros H. induction l as [|x l IH]; [reflexivity|].
  cbn [filter]. destruct (g x) eqn:Eg; cbn [filter].
  - rewrite IH. reflexivity.
  - destruct (f x) eqn:Ef; [|exact IH].
    rewrite (H x Ef) in Eg. discriminate Eg.
Qed.

Lemma entries_set_same n v hs : entries n (headerSet n v hs) = [(headerName n, v)].
Proof.
  unfold entries, headerSet. rewrite filter_app, filter_none.
  cbn [filter fst app]. rewrite jstr_eqb_refl. reflexivity.
Qed.

Lemma entries_set_other n m v hs :
  headerName n <> headerName m -> entries n (headerSet m v hs) = entries n hs.
Proof.
  intros Hne. unfold entries, headerSet. rewrite filter_app.
  cbn [filter fst].
  destruct (jstr_eqb (headerName m) (headerName n)) eqn:E;
    [apply jstr_eqb_eq in E; congruence|].
  rewrite app_nil_r. apply filter_keeps.
  intros [k x] Hk. cbn [fst] in *. apply jstr_eqb_eq in Hk. subst k.
  destruct (jstr_eqb (headerName n) (headerName m)) eqn:E';
    [apply jstr_eqb_eq in E'; congruence | reflexivity].
Qed.

Lemma find_filter {A : Type} (f : A -> bool) : forall l,
  find f l = hd_error (filter f l).
Proof.
  induction l as [|x l IH]; [reflexivity|].
  cbn [find filter]. destruct (f x); [reflexivity | exact IH].
Qed.

Lemma headerGet_entries n hs :
  headerGet n hs = option_map snd (hd_error (entries n hs)).
Proof. unfold headerGet, entries. rewrite find_filter. reflexivity. Qed.

(** The headers after [withSecurityHeaders]. *)
Lemma secured_entries r :
  Forall (fun h => entries (fst h) (headers (withSecurityHeaders r))
                   = [(headerName (fst h), snd h)]) securityHeaders
  /\ forall name,
       ~ In (headerName name) (map (fun h => headerName (fst h)) securityHeaders) ->
       entries name (headers (withSecurityHeaders r)) = entries name (headers r).
Proof.
  unfold withSecurityHeaders, securityHeaders.
  cbn [headers fold_left fst snd map]. split.
  - repeat constructor; cbn [fst snd];
      rewrite ?entries_set_other by (vm_compute; discriminate);
      apply entries_set_same.
  - intros name H. cbn [In] in H.
    rewrite !entries_set_other; [reflexivity|..]; intros E; apply H; rewrite E; tauto.
Qed.

(** The expression of the image route: what it matches and captures. *)
Lemma image_shape pathname m :
  matchWhole imageRe pathname = Some m ->
  exists stem,
    pathname = lit "/images/" ++ stem ++ lit ".png"
    /\ m = [(1, stem ++ lit ".png")]
    /\ stem <> [] /\ all isKeyChar stem.
Proof.
  unfold matchWhole.
  destruct (rmatch imageRe atEnd ([], pathname) []) as [[c' cs']|] eqn:E;
    [|discriminate].
  cbn [option_map snd]. intros H. injection H as <-.
  apply rmatch_sound in E. destruct E as (d & ds & Hs & Hk).
  unfold atEnd in Hk. destruct (snd d) eqn:Ed; [|discriminate Hk].
  injection Hk as <- <-.
  unfold imageRe in Hs. repeat sem_step.
  match goal with
  | A1 : advances ([], pathname) ?c1 (lit "/images/"),
    A2 : advances ?c1 ?c2 ?stem, A3 : advances ?c2 d (lit ".png") |- _ =>
      exists stem; pose proof (advances_trans A2 A3) as N23;
      pose proof (advances_trans A1 N23) as N
  end.
  rewrite (advances_consumed N23).
  destruct N as [_ N]. cbn [snd] in N. rewrite Ed, app_nil_r in N.
  repeat split; try assumption.
Qed.

Lemma image_match stem :
  stem <> [] -> all isKeyChar stem ->
  matchWhole imageRe (lit "/images/" ++ stem ++ lit ".png")
  = Some [(1, stem ++ lit ".png")].
Proof.
  intros Hne Hall. unfold matchWhole, imageRe, L.
  rewrite rmatch_Seq, rmatch_Bol_start, rmatch_Seq, rmatch_Lit.
  rewrite rmatch_Grp, rmatch_Seq.
  erewrite rmatch_PlusCls_greedy; cycle 1.
  - exact Hall.
  - exact Hne.
  - reflexivity.
  - etransitivity; [apply (rmatch_Lit (lit ".png") _ _ [] _)|].
    unfold atEnd. cbn [snd]. reflexivity.
  - cbn [option_map snd]. f_equal. f_equal. f_equal.
    rewrite app_assoc, <- rev_app_distr.
    rewrite <- (app_nil_r (stem ++ lit ".png")) at 1.
    apply consumed_run.
Qed.

Lemma route_webhook p m :
  route p m = WebhookPost -> p = lit "/webhook" /\ m = lit "POST".
Proof.
  unfold route.
  destruct (jstr_eqb p (lit "/") && jstr_eqb m (lit "GET")); [discriminate|].
  destruct (jstr_eqb p (lit "/api/latest") && jstr_eqb m (lit "GET"));
    [discriminate|].
  destruct (if jstr_eqb m (lit "GET") then matchWhole imageRe p else None);
    [discriminate|].
  destruct (jstr_eqb p (lit "/robots.txt") && jstr_eqb m (lit "GET"));
    [discriminate|].
  destruct (jstr_eqb p (lit "/sitemap.xml") && jstr_eqb m (lit "GET"));
    [discriminate|].
  destruct (jstr_eqb p (lit "/llms.txt") && jstr_eqb m (lit "GET"));
    [discriminate|].
  destruct (jstr_eqb p (lit "/webhook") && jstr_eqb m (lit "POST")) eqn:E;
    [|discriminate].
  intros _. apply andb_true_iff in E. rewrite !jstr_eqb_eq in E. exact E.
Qed.

Lemma route_not_get p m :
  jstr_eqb m (lit "GET") = false ->
  route p m = if jstr_eqb p (lit "/webhook") && jstr_eqb m (lit "POST")
              then WebhookPost else NotFound.
Proof.
  intros H. unfold route. rewrite H, !andb_false_r. reflexivity.
Qed.

Lemma route_image p m key :
  route p m = ImageFile key ->
  m = lit "GET" /\ matchWhole imageRe p = Some [(1, key)].
Proof.
  unfold route.
  destruct (jstr_eqb p (lit "/") && jstr_eqb m (lit "GET")); [discriminate|].
  destruct (jstr_eqb p (lit "/api/latest") && jstr_eqb m (lit "GET"));
    [discriminate|].
  destruct (jstr_eqb m (lit "GET")) eqn:Em.
  - destruct (matchWhole imageRe p) as [im|] eqn:E.
    + intros H. injection H as <-. apply jstr_eqb_eq in Em.
      split; [exact Em|].
      destruct (image_shape p E) as (stem & _ & -> & _). reflexivity.
    + rewrite !andb_true_r.
      destruct (jstr_eqb p (lit "/robots.txt")); [discriminate|].
      destruct (jstr_eqb p (lit "/sitemap.xml")); [discriminate|].
      destruct (jstr_eqb p (lit "/llms.txt")); [discriminate|].
      destruct (jstr_eqb p (lit "/webhook") && jstr_eqb m (lit "POST"));
        discriminate.
  - rewrite !andb_false_r.
    destruct (jstr_eqb p (lit "/webhook") && jstr_eqb m (lit "POST")); discriminate.
Qed.

Lemma route_image_path stem :
  stem <> [] -> all isKeyChar stem ->
  route (lit "/images/" ++ stem ++ lit ".png") (lit "GET")
  = ImageFile (stem ++ lit ".png").
Proof.
  intros Hne Hall. unfold route.
  destruct (jstr_eqb (lit "/images/" ++ stem ++ lit ".png") (lit "/")) eqn:E1;
    [apply jstr_eqb_eq in E1; discriminate E1|].
  destruct (jstr_eqb (lit "/images/" ++ stem ++ lit ".png") (lit "/api/latest"))
    eqn:E2; [apply jstr_eqb_eq in E2; discriminate E2|].
  cbn [andb]. rewrite jstr_eqb_refl, (image_match Hne Hall). reflexivity.
Qed.

Lemma keyChar_not_slash a : isKeyChar a = true -> a <> "/"%char.
Proof. intros H ->. discriminate H. Qed.

(** The store after [fetch]: only the webhook route writes, and only the
    two keys of [writePrediction]. *)
Lemma fetch_store nts hR hS hL r cfg iso st :
  snd (fetch nts hR hS hL r cfg iso st) = st
  \/ (route (pathname r) (method r) = WebhookPost
      /\ exists p,
           Webhook.handleWebhook nts (request r) (env cfg) iso (kv st)
           = (Webhook.Response 200 (Webhook.OkBody (toJSON p)),
              writePrediction p (env cfg) (kv st))
           /\ fetch nts hR hS hL r cfg iso st
              = (Sent (withSecurityHeaders
                         (newResponse (WebhookJson (Webhook.OkBody (toJSON p)))
                            200 jsonType)),
                 {| kv := writePrediction p (env cfg) (kv st);
                    latest_image_key := latest_image_key st;
                    last_processed_post_id := last_processed_post_id st;
                    IMAGES := IMAGES st |})).
Proof.
  unfold fetch.
  destruct (route (pathname r) (method r)) eqn:Er;
    try (left; match goal with |- context [snd (match ?o with _ => _ end, _)] =>
                 destruct o end; reflexivity);
    try (left; reflexivity).
  unfold Webhook.handleWebhook.
  destruct (do c <- Webhook.checks (request r) (env cfg);
            Webhook.predictionOf nts c iso) as [p|stt e|].
  - right. split; [reflexivity|]. exists p. split; reflexivity.
  - left. cbn [webhookResponse snd]. destruct st; reflexivity.
  - left. cbn [webhookResponse snd]. destruct st; reflexivity.
Qed.

End HttpFacts.
Import HttpFacts.

(** X15: [withSecurityHeaders] keeps the status, the status text and the
    body of a response and every header line of another name; of each of
    the five security headers the result has one line, with the value of
    the policy, whatever the response had under that name. *)
Theorem withSecurityHeaders_sets (r : Http.Response) :
  let r' := Http.withSecurityHeaders r in
  Http.status r' = Http.status r
  /\ Http.statusText r' = Http.statusText r
  /\ Http.body r' = Http.body r
  /\ Forall (fun h => Http.entries (fst h) (Http.headers r')
                      = [(Http.headerName (fst h), snd h)]
                      /\ Http.headerGet (fst h) (Http.headers r') = Some (snd h))
       Http.securityHeaders
  /\ forall name,
       ~ In (Http.headerName name)
            (map (fun h => Http.headerName (fst h)) Http.securityHeaders) ->
       Http.entries name (Http.headers r') = Http.entries name (Http.headers r)
       /\ Http.headerGet name (Http.headers r') = Http.headerGet name (Http.headers r).
Proof.
  cbv zeta. split; [reflexivity|]. split; [reflexivity|]. split; [reflexivity|].
  destruct (secured_entries r) as [H1 H2]. split.
  - eapply Forall_impl; [|exact H1]. intros h Hh. split; [exact Hh|].
    rewrite headerGet_entries, Hh. reflexivity.
  - intros name Hn. split; [apply H2; exact Hn|].
    rewrite !headerGet_entries, (H2 name Hn). reflexivity.
Qed.

Example withSecurityHeaders_overrides :
  let r := {| Http.status := 200; Http.statusText := [];
              Http.headers := [(lit "x-frame-options", lit "ALLOWALL");
                               (lit "content-type", lit "text/html")];
              Http.body := Http.Text [] |} in
  Http.headers (Http.withSecurityHeaders r)
  = [(lit "content-type", lit "text/html");
     (lit "x-content-type-options", lit "nosniff");
     (lit "x-frame-options", lit "DENY");
     (lit "referrer-policy", lit "strict-origin-when-cross-origin");
     (lit "permissions-policy",
      lit "geolocation=(), microphone=(), camera=(), payment=()");
     (lit "content-security-policy",
      lit "default-src 'self'; script-src 'self' 'unsafe-inline' https://cdn.jsdelivr.net; style-src 'self' 'unsafe-inline'; img-src 'self' data:; connect-src 'self'; frame-ancestors 'none'; object-src 'none'; base-uri 'self'")]
  /\ Http.withSecurityHeaders (Http.withSecurityHeaders r)
     = Http.withSecurityHeaders r.
Proof. split; vm_compute; reflexivity. Qed.

(** X16: a request is routed to the image handler exactly when it is a
    GET for /images/, a name of one or more letters, digits, underscores
    and hyphens, and .png; the key the handler gets is that name with
    .png, so it holds no slash. *)
Theorem image_route (pathname method key : jstr) :
  Http.route pathname method = Http.ImageFile key
  <-> method = lit "GET"
      /\ exists stem,
           stem <> [] /\ all Http.isKeyChar stem
           /\ pathname = lit "/images/" ++ stem ++ lit ".png"
           /\ key = stem ++ lit ".png"
           /\ ~ In "/"%char key.
Proof.
  split.
  - intros H. apply route_image in H. destruct H as [-> H].
    split; [reflexivity|].
    apply image_shape in H. destruct H as (stem & -> & E & Hne & Hall).
    injection E as ->. exists stem. repeat split; try assumption.
    intros Hin. apply in_app_or in Hin. destruct Hin as [Hin|Hin].
    + unfold all in Hall. rewrite Forall_forall in Hall.
      apply (keyChar_not_slash (Hall _ Hin)). reflexivity.
    + cbn in Hin. repeat (destruct Hin as [Hin|Hin]; [discriminate Hin|]).
      exact Hin.
  - intros (-> & stem & Hne & Hall & -> & -> & _).
    apply route_image_path; assumption.
Qed.

Example image_route_examples :
  Http.route (lit "/images/t3_abc-1.png") (lit "GET")
  = Http.ImageFile (lit "t3_abc-1.png")
  /\ Http.route (lit "/images/../secret.png") (lit "GET") = Http.NotFound
  /\ Http.route (lit "/images/a/b.png") (lit "GET") = Http.NotFound
  /\ Http.route (lit "/images/.png") (lit "GET") = Http.NotFound
  /\ Http.route (lit "/images/a.png.png") (lit "GET") = Http.NotFound
  /\ Http.route (lit "/images/a.png") (lit "HEAD") = Http.NotFound.
Proof. repeat split; vm_compute; reflexivity. Qed.

(** ** Who may write *)

Module AccessFacts.
Import Cron Http.

Lemma secret_accepted secret env :
  Mcp.secretRefused secret env = false ->
  exists s, s <> [] /\ WEBHOOK_SECRET env = Some s /\ secret = VStr s.
Proof.
  unfold Mcp.secretRefused. intros H. apply orb_false_iff in H.
  destruct H as [Ht Hm]. apply negb_false_iff in Ht.
  destruct secret as [| |b|n|s|its|ps]; try discriminate Hm.
  destruct (WEBHOOK_SECRET env) as [w|]; [|discriminate Hm].
  apply negb_false_iff, jstr_eqb_eq in Hm. subst w.
  exists s. split; [|split; reflexivity].
  intros ->. discriminate Ht.
Qed.

Lemma token_accepted req env :
  Webhook.tokenRefused (Webhook.bearerToken req) env = false ->
  exists s, s <> [] /\ WEBHOOK_SECRET env = Some s
            /\ Webhook.authorization req = Some (lit "Bearer " ++ s).
Proof.
  unfold Webhook.tokenRefused, Webhook.bearerToken.
  destruct (Webhook.authorization req) as [h|]; [|discriminate].
  destruct (startsWith (lit "Bearer ") h) eqn:Es; [|discriminate].
  apply startsWith_spec in Es. destruct Es as [rest ->].
  change (sliceFrom 7 (lit "Bearer " ++ rest)) with rest.
  destruct rest as [|x rest]; [discriminate|].
  destruct (WEBHOOK_SECRET env) as [w|]; [|discriminate].
  intros H. apply negb_false_iff, jstr_eqb_eq in H. subst w.
  exists (x :: rest). split; [discriminate | split; reflexivity].
Qed.

(** The three ways [handleWebhook] ends. *)
Lemma handle_cases nts req env now kv :
  (exists c p,
     Webhook.checks req env = Go c /\ Webhook.predictionOf nts c now = Go p
     /\ Webhook.handleWebhook nts req env now kv
        = (Webhook.Response 200 (Webhook.OkBody (toJSON p)),
           writePrediction p env kv))
  \/ (exists status e,
        (status = 400 \/ status = 401)
        /\ Webhook.handleWebhook nts req env now kv
           = (Webhook.Response status (Webhook.ErrorBody e), kv))
  \/ Webhook.handleWebhook nts req env now kv = (Webhook.Thrown, kv).
Proof.
  unfold Webhook.handleWebhook.
  destruct (Webhook.checks req env) as [c|status e|] eqn:Ec; cbn [bind].
  - unfold Webhook.predictionOf.
    destruct (notesField nts (Webhook.notes c)) as [n|] eqn:En; cbn [bind orRaise].
    + left. eexists c, _. repeat split. unfold Webhook.predictionOf.
      rewrite En. reflexivity.
    + right; right. reflexivity.
  - right; left. exists status, e. split; [|reflexivity].
    revert Ec. unfold Webhook.checks, Webhook.checkBody, Webhook.checkLegacy,
      Webhook.checkDual, Webhook.rejectOpt, rejectIf.
    repeat (match goal with
            | |- context [if ?b then _ else _] => destruct b
            | |- context [match ?x with _ => _ end] => destruct x
            end; cbn [bind]);
      intros H; try discriminate H; injection H as <- _; auto.
  - right; right. reflexivity.
Qed.

Lemma fetch_webhook nts hR hS hL r cfg iso st :
  route (pathname r) (method r) = WebhookPost ->
  fetch nts hR hS hL r cfg iso st
  = (match webhookResponse
             (fst (Webhook.handleWebhook nts (request r) (env cfg) iso (kv st))) with
     | Sent resp => Sent (withSecurityHeaders resp)
     | Failed => Failed
     end,
     {| kv := snd (Webhook.handleWebhook nts (request r) (env cfg) iso (kv st));
        latest_image_key := latest_image_key st;
        last_processed_post_id := last_processed_post_id st;
        IMAGES := IMAGES st |}).
Proof.
  intros Hr. unfold fetch. rewrite Hr.
  destruct (Webhook.handleWebhook nts (request r) (env cfg) iso (kv st)).
  reflexivity.
Qed.

Lemma fetch_other nts hR hS hL r cfg iso st :
  route (pathname r) (method r) <> WebhookPost ->
  snd (fetch nts hR hS hL r cfg iso st) = st.
Proof.
  intros Hr. unfold fetch.
  destruct (route (pathname r) (method r)); try reflexivity.
  contradiction Hr. reflexivity.
Qed.

Lemma fetch_sent nts hR hS hL r cfg iso st resp :
  fst (fetch nts hR hS hL r cfg iso st) = Sent resp ->
  exists r0, resp = withSecurityHeaders r0.
Proof.
  assert (Hm : forall (o : Outcome) (s : Store),
    fst (match o with
         | Sent resp0 => Sent (withSecurityHeaders resp0)
         | Failed => Failed
         end, s) = Sent resp ->
    exists r0, resp = withSecurityHeaders r0).
  { intros [r0|] s H; cbn [fst] in H; [|discriminate H].
    injection H as <-. exists r0. reflexivity. }
  destruct (route (pathname r) (method r)) eqn:Er.
  7: { rewrite (fetch_webhook nts hR hS hL r cfg iso st Er). apply Hm. }
  all: unfold fetch; rewrite Er; first [apply Hm | apply (Hm (Sent _) st)].
Qed.

End AccessFacts.
Import AccessFacts.

(** X17: every response [fetch] sends carries the five security headers
    with the values of the policy.  A request changes nothing in the
    store but the predictions, and those only when it is a POST to
    /webhook without a secret parameter whose bearer token is the
    configured secret, which is not empty, and the answer has the status
    200. *)
Theorem fetch_secure (nts : jsnum -> jstr)
    (hR hS hL : Cron.Config -> Cron.Store -> Http.Outcome)
    (r : Http.HttpRequest) (cfg : Cron.Config) (iso : jstr) (st : Cron.Store) :
  let out := Http.fetch nts hR hS hL r cfg iso st in
  (forall resp, fst out = Http.Sent resp ->
     Forall (fun h => Http.headerGet (fst h) (Http.headers resp) = Some (snd h))
       Http.securityHeaders)
  /\ Cron.IMAGES (snd out) = Cron.IMAGES st
  /\ Cron.latest_image_key (snd out) = Cron.latest_image_key st
  /\ Cron.last_processed_post_id (snd out) = Cron.last_processed_post_id st
  /\ (Cron.kv (snd out) <> Cron.kv st ->
      Http.pathname r = lit "/webhook" /\ Http.method r = lit "POST"
      /\ Webhook.hasParam "secret" (Webhook.searchParams (Http.request r)) = false
      /\ (exists s, s <> [] /\ WEBHOOK_SECRET (Cron.env cfg) = Some s
                    /\ Webhook.authorization (Http.request r)
                       = Some (lit "Bearer " ++ s))
      /\ exists resp, fst out = Http.Sent resp /\ Http.status resp = 200).
Proof.
  cbv zeta. split.
  { intros resp H. apply fetch_sent in H. destruct H as [r0 ->].
    destruct (secured_entries r0) as [H1 _].
    eapply Forall_impl; [|exact H1]. intros h Hh.
    rewrite headerGet_entries, Hh. reflexivity. }
  destruct (Http.route (Http.pathname r) (Http.method r)) eqn:Er;
    try (rewrite (@fetch_other nts hR hS hL r cfg iso st)
           by (rewrite Er; discriminate);
         split; [reflexivity|]; split; [reflexivity|]; split; [reflexivity|];
         intros H; contradiction H; reflexivity).
  rewrite (fetch_webhook nts hR hS hL r cfg iso st Er). cbn [snd fst].
  cbn [Cron.IMAGES Cron.latest_image_key Cron.last_processed_post_id Cron.kv].
  split; [reflexivity|]. split; [reflexivity|]. split; [reflexivity|].
  intros Hkv. apply route_webhook in Er. destruct Er as [Hp Hm].
  split; [exact Hp|]. split; [exact Hm|].
  destruct (handle_cases nts (Http.request r) (Cron.env cfg) iso (Cron.kv st))
    as [(c & p & Hc & _ & E)|[(status & e & _ & E)|E]];
    rewrite E in *; cbn [fst snd] in *; try (contradiction Hkv; reflexivity).
  apply checks_pass in Hc. destruct Hc as (Hs & Ht & _).
  split; [exact Hs|]. split; [apply token_accepted; exact Ht|].
  eexists. split; reflexivity.
Qed.

(** X18: the two tools of the MCP server that write leave the store as it
    is unless the secret among the arguments is a text, is not empty, and
    is the configured secret.  With no secret configured they never
    write. *)
Theorem mcp_writes_need_secret :
  (forall nts args env now kv,
     snd (Mcp.post_prediction nts args env now kv) <> kv ->
     exists s, s <> [] /\ WEBHOOK_SECRET env = Some s
               /\ getProp args "secret" = VStr s)
  /\ (forall args w cfg st,
        snd (McpTools.trigger_reddit_scan args w cfg st) <> st ->
        exists s, s <> [] /\ WEBHOOK_SECRET (Cron.env cfg) = Some s
                  /\ getProp args "secret" = VStr s)
  /\ (forall nts args env now kv w cfg st,
        WEBHOOK_SECRET env = None -> WEBHOOK_SECRET (Cron.env cfg) = None ->
        snd (Mcp.post_prediction nts args env now kv) = kv
        /\ snd (McpTools.trigger_reddit_scan args w cfg st) = st).
Proof.
  assert (H1 : forall nts args env now kv,
    snd (Mcp.post_prediction nts args env now kv) <> kv ->
    exists s, s <> [] /\ WEBHOOK_SECRET env = Some s
              /\ getProp args "secret" = VStr s).
  { intros nts args env now kv H.
    destruct (Mcp.post_prediction nts args env now kv) as [o kv'] eqn:E.
    destruct o as [err status|p|];
      try (unfold Mcp.post_prediction in E;
           destruct (Mcp.checks args env;; Mcp.predictionOf nts args now);
           inversion E; subst; contradiction H; reflexivity).
    apply McpFacts.posted in E. destruct E as (Hc & _).
    apply McpFacts.mcp_checks_pass in Hc. destruct Hc as (_ & Hs & _).
    apply secret_accepted. exact Hs. }
  assert (H2 : forall args w cfg st,
    snd (McpTools.trigger_reddit_scan args w cfg st) <> st ->
    exists s, s <> [] /\ WEBHOOK_SECRET (Cron.env cfg) = Some s
              /\ getProp args "secret" = VStr s).
  { intros args w cfg st. unfold McpTools.trigger_reddit_scan.
    destruct (isNullish args); [intros H; contradiction H; reflexivity|].
    destruct (Mcp.secretRefused (getProp args "secret") (Cron.env cfg)) eqn:E;
      [intros H; contradiction H; reflexivity|].
    intros _. apply secret_accepted. exact E. }
  split; [exact H1|]. split; [exact H2|].
  intros nts args env now kv w cfg st He Hc. split.
  - unfold Mcp.post_prediction.
    destruct (Mcp.checks args env) as [[]|status e|] eqn:E; cbn [bind];
      try reflexivity.
    apply McpFacts.mcp_checks_pass in E. destruct E as (_ & Hs & _).
    apply secret_accepted in Hs. destruct Hs as (s & _ & Hs & _). congruence.
  - unfold McpTools.trigger_reddit_scan.
    destruct (isNullish args); [reflexivity|].
    destruct (Mcp.secretRefused (getProp args "secret") (Cron.env cfg)) eqn:E;
      [reflexivity|].
    apply secret_accepted in E. destruct E as (s & _ & Hs & _). congruence.
Qed.

(** ** From a write to the reads *)

Module RoundTripFacts.
Import Cron Http.

Lemma bucketGet_here key img images : bucketGet key ((key, img) :: images) = Some img.
Proof. unfold bucketGet. cbn [find fst]. rewrite jstr_eqb_refl. reflexivity. Qed.

Lemma webhook_prediction_props nts c now p :
  Webhook.predictionOf nts c now = Go p ->
  exists n,
    notesField nts (Webhook.notes c) = Some n
    /\ (n = VNull \/ exists t, n = VStr (slice0 500 t))
    /\ toJSON p <> VNull
    /\ getProp (toJSON p) "notes" = n
    /\ getProp (toJSON p) "updated_at" = VStr now
    /\ getProp (toJSON p) "gas" = toJSON (Webhook.slotObj (Webhook.gas c))
    /\ getProp (toJSON p) "diesel" = toJSON (Webhook.slotObj (Webhook.diesel c)).
Proof.
  unfold Webhook.predictionOf.
  destruct (notesField nts (Webhook.notes c)) as [n|] eqn:En;
    cbn [bind orRaise]; [|discriminate].
  intros H. injection H as <-. exists n. split; [reflexivity|].
  assert (Hn : n = VNull \/ exists t, n = VStr (slice0 500 t)).
  { unfold notesField in En. destruct (truthy (Webhook.notes c)).
    - destruct (js_String nts (Webhook.notes c)) as [t|]; [|discriminate En].
      injection En as <-. right. exists t. reflexivity.
    - injection En as <-. left. reflexivity. }
  assert (Hj : toJSON n = n /\ n <> VUndefined).
  { destruct Hn as [-> | [t ->]]; split; try reflexivity; discriminate. }
  destruct Hj as [Hj Hd].
  split; [exact Hn|]. split.
  { match goal with |- toJSON (VObj ?l) <> _ =>
      destruct (toJSON_obj l) as [r ->] end. discriminate. }
  split; [rewrite <- Hj at 2; apply getProp_toJSON_some; [reflexivity | exact Hd]|].
  split; [apply (@getProp_toJSON_some _ "updated_at" (VStr now));
          [reflexivity | discriminate]|].
  split; apply getProp_toJSON_some; try reflexivity; apply slotObj_defined.
Qed.

End RoundTripFacts.
Import RoundTripFacts.

(** X19: when [fetch] answers a POST to /webhook with the status 200, the
    body of the answer carries the prediction that [get_latest_prediction]
    then returns and that a GET for /api/latest is answered with; with a
    history limit of at least 1 it is the first entry
    [get_prediction_history] returns, and [get_status] reports a
    prediction, updated at the time of the request. *)
Theorem webhook_then_read (nts : jsnum -> jstr)
    (hR hS hL : Cron.Config -> Cron.Store -> Http.Outcome)
    (r : Http.HttpRequest) (cfg : Cron.Config) (iso : jstr)
    (st st' : Cron.Store) (resp : Http.Response) :
  Http.route (Http.pathname r) (Http.method r) = Http.WebhookPost ->
  Http.fetch nts hR hS hL r cfg iso st = (Http.Sent resp, st') ->
  Http.status resp = 200 ->
  exists p,
    Http.body resp = Http.WebhookJson (Webhook.OkBody p)
    /\ McpTools.get_latest_prediction st' = p
    /\ getProp p "updated_at" = VStr iso
    /\ getProp (McpTools.get_status st') "has_prediction" = VBool true
    /\ getProp (McpTools.get_status st') "last_updated" = VStr iso
    /\ (forall n, maxHistoryOf (Cron.env cfg) = Some n -> (1 <= n)%Z ->
        McpTools.get_prediction_history (Some (Fin 1%Q)) st' = [p])
    /\ (forall req iso',
        Http.fetch nts hR hS hL
          {| Http.pathname := lit "/api/latest"; Http.method := lit "GET";
             Http.request := req |} cfg iso' st'
        = (Http.Sent
             (Http.withSecurityHeaders
                (Http.newResponse (Http.JsonText p) 200
                   [(lit "content-type", lit "application/json");
                    (lit "cache-control", lit "no-store")])),
           st')).
Proof.
  intros Hr Hf Hs.
  rewrite (fetch_webhook nts hR hS hL r cfg iso st Hr) in Hf.
  destruct (handle_cases nts (Http.request r) (Cron.env cfg) iso (Cron.kv st))
    as [(c & p & Hc & Hp & E)|[(status & e & Hst & E)|E]];
    rewrite E in Hf; cbn [fst snd Http.webhookResponse] in Hf.
  - injection Hf as <- <-. exists (toJSON p).
    destruct (webhook_prediction_props nts c iso Hp)
      as (n & _ & _ & Hnn & _ & Hu & _).
    split; [reflexivity|]. split; [reflexivity|]. split; [exact Hu|].
    unfold McpTools.get_status, McpTools.get_latest_prediction.
    cbn [Cron.kv latest_prediction writePrediction]. rewrite Hu.
    split; [destruct (toJSON p); try reflexivity; contradiction Hnn; reflexivity|].
    split; [reflexivity|]. split.
    + intros k Hk Hk1. unfold McpTools.get_prediction_history.
      cbn [Cron.kv]. rewrite (@history_write k p (Cron.env cfg) (Cron.kv st) Hk)
        by lia.
      destruct (Z.to_nat k) as [|k'] eqn:Ek; [lia|].
      cbn [map firstn length]. reflexivity.
    + intros req iso'. reflexivity.
  - exfalso. injection Hf as <- _. cbn [Http.status Http.withSecurityHeaders
      Http.newResponse] in Hs. destruct Hst as [-> | ->]; discriminate Hs.
  - discriminate Hf.
Qed.

Lemma webhook_then_read_witness :
  let out := Http.fetch noNumberText somePage somePage somePage
               (requestFor "POST" "/webhook" (bearer "test-secret" upDieselLegacy))
               someConfig someTime emptyStore in
  exists p,
    McpTools.get_latest_prediction (snd out) = p
    /\ getProp p "updated_at" = VStr someTime
    /\ McpTools.get_prediction_history (Some (Fin 1%Q)) (snd out) = [p].
Proof.
  cbv zeta.
  edestruct (@webhook_then_read noNumberText somePage somePage somePage
               (requestFor "POST" "/webhook" (bearer "test-secret" upDieselLegacy))
               someConfig someTime emptyStore)
    as (p & _ & Hl & Hu & _ & _ & Hh & _);
    [ vm_compute; reflexivity | vm_compute; reflexivity | reflexivity | ].
  exists p. split; [exact Hl|]. split; [exact Hu|].
  apply (Hh 10%Z); [reflexivity | lia].
Defined.

(** X20: the image a run of the cron job stores for a post is what a GET
    for /images/, the id of the post and .png is answered with, when the
    id is made of letters, digits, underscores and hyphens. *)
Theorem image_served (nts : jsnum -> jstr)
    (hR hS hL : Cron.Config -> Cron.Store -> Http.Outcome)
    (w : Cron.World) (cfg : Cron.Config) (st : Cron.Store)
    (p : Reddit.Submission) (b iso : jstr) (req : Webhook.Request) :
  Reddit.fetchBuckitPost (Cron.listing w) (Cron.REDDIT_AUTHOR cfg) (Cron.now w)
  = Some (Some p) ->
  Cron.alreadyProcessed st p = false ->
  Cron.actionableDirection (parseRedditPost (Reddit.post p)) <> VNull ->
  Cron.ai w
    (Prompt.buildImagePrompt
       (Cron.actionableDirection (parseRedditPost (Reddit.post p)))
       (Reddit.id p)
       (Reddit.fetchCommunityContext (Cron.top_halifax w) (Cron.top_novascotia w))
       (Some (Cron.month w))) = Some b ->
  Reddit.id p <> [] -> all Http.isKeyChar (Reddit.id p) ->
  let st' := Cron.scheduled w cfg st in
  Http.fetch nts hR hS hL
    {| Http.pathname := lit "/images/" ++ Reddit.id p ++ lit ".png";
       Http.method := lit "GET";
       Http.request := req |} cfg iso st'
  = (Http.Sent
       (Http.withSecurityHeaders
          {| Http.status := 200;
             Http.statusText := [];
             Http.headers := [(lit "content-type", lit "image/png");
                              (lit "cache-control",
                               lit "public, max-age=31536000, immutable")];
             Http.body := Http.Bytes b |}),
     st').
Proof.
  intros Hf Hn Hd Hb Hne Hall st'.
  unfold Http.fetch. cbn [Http.pathname Http.method].
  rewrite (route_image_path Hne Hall).
  unfold Http.handleImage.
  assert (Hi : Cron.bucketGet (lit "images/" ++ Reddit.id p ++ lit ".png")
                 (Cron.IMAGES st')
               = Some {| Cron.bytes := b;
                         Cron.contentType := lit "image/png";
                         Cron.postId := Reddit.id p;
                         Cron.imageDirection :=
                           Cron.actionableDirection (parseRedditPost (Reddit.post p));
                         Cron.generatedAt := Cron.imageTime w |}).
  { unfold st'. rewrite (scheduled_fresh w cfg st Hf Hn).
    destruct (process_parts w cfg p st) as (extra & images & k & -> & _ & H2).
    destruct (H2 b Hd Hb) as (_ & -> & _). cbn [Cron.IMAGES].
    apply bucketGet_here. }
  change (lit "images/" ++ (Reddit.id p ++ lit ".png"))
    with (lit "images/" ++ Reddit.id p ++ lit ".png").
  rewrite Hi. reflexivity.
Qed.

Lemma image_served_witness :
  fst (Http.fetch noNumberText somePage somePage somePage
         (requestFor "GET" "/images/t3abc.png" (bearer "" VNull))
         someConfig someTime (Cron.scheduled someWorld someConfig emptyStore))
  = Http.Sent
      (Http.withSecurityHeaders
         {| Http.status := 200;
            Http.statusText := [];
            Http.headers := [(lit "content-type", lit "image/png");
                             (lit "cache-control",
                              lit "public, max-age=31536000, immutable")];
            Http.body := Http.Bytes (lit "PNG") |}).
Proof.
  apply (f_equal fst
           (@image_served noNumberText somePage somePage somePage
              someWorld someConfig emptyStore tablePost (lit "PNG") someTime
              (bearer "" VNull)
              ltac:(vm_compute; reflexivity) eq_refl
              ltac:(vm_compute; discriminate) eq_refl
              ltac:(discriminate) ltac:(repeat constructor))).
Defined.

(** ** Requests without a route, and submissions at the edges *)

Module EdgeFacts.
Import Cron Http.

Lemma eqb_false_of x y : x <> y -> jstr_eqb x y = false.
Proof.
  intros H. destruct (jstr_eqb x y) eqn:E; [|reflexivity].
  apply jstr_eqb_eq in E. contradiction.
Qed.

Lemma matchWhole_none p :
  (forall stem, stem <> [] -> all isKeyChar stem ->
                p <> lit "/images/" ++ stem ++ lit ".png") ->
  matchWhole imageRe p = None.
Proof.
  intros H. destruct (matchWhole imageRe p) as [m|] eqn:E; [|reflexivity].
  apply image_shape in E. destruct E as (stem & -> & _ & Hne & Hall).
  exfalso. apply (H stem Hne Hall). reflexivity.
Qed.

Lemma mcp_prediction_notes nts args now p :
  Mcp.predictionOf nts args now = Go p ->
  getProp p "notes" = VNull
  \/ exists t, getProp p "notes" = VStr (slice0 500 t).
Proof.
  unfold Mcp.predictionOf.
  destruct (notesField nts (propOr args "notes" VNull)) as [n|] eqn:En;
    cbn [bind orRaise]; [|discriminate].
  intros H. injection H as <-.
  assert (Hg : forall a b c d e f g h,
    getProp (VObj [(lit "direction", a); (lit "currentPrice", b);
                   (lit "predictedPrice", c); (lit "fuelType", d);
                   (lit "notes", e); (lit "source", f);
                   (lit "updated_at", g); (lit "post_id", h)]) "notes" = e)
    by reflexivity.
  rewrite Hg. unfold notesField in En.
  destruct (truthy (propOr args "notes" VNull)).
  - destruct (js_String nts (propOr args "notes" VNull)) as [t|];
      [|discriminate En].
    injection En as <-. right. exists t. reflexivity.
  - injection En as <-. left. reflexivity.
Qed.

End EdgeFacts.
Import EdgeFacts.

(** X21: [fetch] answers 404, with the JSON error Not Found and the
    security headers, and leaves the store, for every request whose
    method is neither GET nor POST, for a POST to a path other than
    /webhook, and for a GET of a path that is none of the five pages and
    no image path. *)
Theorem fetch_not_found (nts : jsnum -> jstr)
    (hR hS hL : Cron.Config -> Cron.Store -> Http.Outcome)
    (r : Http.HttpRequest) (cfg : Cron.Config) (iso : jstr) (st : Cron.Store) :
  let answer := (Http.Sent (Http.withSecurityHeaders Http.notFound), st) in
  (Http.method r <> lit "GET" ->
   Http.pathname r <> lit "/webhook" \/ Http.method r <> lit "POST" ->
   Http.fetch nts hR hS hL r cfg iso st = answer)
  /\ (Http.method r = lit "GET" ->
      ~ In (Http.pathname r)
           (map lit ["/"; "/api/latest"; "/robots.txt"; "/sitemap.xml";
                     "/llms.txt"]%string) ->
      (forall stem, stem <> [] -> all Http.isKeyChar stem ->
                    Http.pathname r <> lit "/images/" ++ stem ++ lit ".png") ->
      Http.fetch nts hR hS hL r cfg iso st = answer)
  /\ Http.status (Http.withSecurityHeaders Http.notFound) = 404
  /\ Http.body (Http.withSecurityHeaders Http.notFound)
     = Http.JsonText (VObj [(lit "error", S_ "Not Found")])
  /\ Http.headerGet (lit "Content-Type")
       (Http.headers (Http.withSecurityHeaders Http.notFound))
     = Some (lit "application/json").
Proof.
  cbv zeta. split; [|split; [|repeat split]].
  - intros Hm Hw. unfold Http.fetch.
    rewrite route_not_get by (apply eqb_false_of; exact Hm).
    destruct Hw as [Hw|Hw]; rewrite (eqb_false_of Hw), ?andb_false_r;
      reflexivity.
  - intros Hm Hp Hi. unfold Http.fetch, Http.route. rewrite Hm.
    cbn [In map] in Hp.
    rewrite (matchWhole_none Hi).
    assert (Hno : forall q, In q ["/"; "/api/latest"; "/robots.txt";
                                  "/sitemap.xml"; "/llms.txt"]%string ->
                            jstr_eqb (Http.pathname r) (lit q) = false).
    { intros q Hq. apply eqb_false_of. intros E. apply Hp. rewrite E.
      cbn [In] in Hq. intuition (subst; tauto). }
    rewrite !Hno by (cbn [In]; tauto).
    change (jstr_eqb (lit "GET") (lit "POST")) with false.
    cbn [andb]. rewrite andb_false_r. reflexivity.
Qed.

Example fetch_not_found_examples :
  let ask r :=
    fst (Http.fetch noNumberText somePage somePage somePage r
           someConfig someTime emptyStore) in
  let body := bearer "test-secret" upDieselLegacy in
  ask (requestFor "HEAD" "/" body)
  = Http.Sent (Http.withSecurityHeaders Http.notFound)
  /\ ask (requestFor "GET" "/webhook" body)
     = Http.Sent (Http.withSecurityHeaders Http.notFound)
  /\ ask (requestFor "POST" "/webhook/" body)
     = Http.Sent (Http.withSecurityHeaders Http.notFound)
  /\ ask (requestFor "GET" "/api/latest/" body)
     = Http.Sent (Http.withSecurityHeaders Http.notFound).
Proof. repeat split; vm_compute; reflexivity. Qed.

(** X22: the notes of a prediction that the webhook or the tool
    [post_prediction] accepts are stored as null or as a text of at most
    500 units. *)
Theorem submitted_notes_bounded (nts : jsnum -> jstr) (env : Env)
    (now : jstr) (kv : KV) :
  (forall req p kv',
     Webhook.handleWebhook nts req env now kv
     = (Webhook.Response 200 (Webhook.OkBody p), kv') ->
     getProp p "notes" = VNull
     \/ exists s, getProp p "notes" = VStr s /\ length s <= 500)
  /\ (forall args p kv',
        Mcp.post_prediction nts args env now kv = (Mcp.Posted p, kv') ->
        getProp p "notes" = VNull
        \/ exists s, getProp p "notes" = VStr s /\ length s <= 500).
Proof.
  split.
  - intros req p kv' H.
    destruct (handle_cases nts req env now kv)
      as [(c & q & _ & Hq & E)|[(status & e & _ & E)|E]];
      rewrite E in H; try discriminate H.
    injection H as <- _.
    destruct (webhook_prediction_props nts c now Hq)
      as (n & _ & Hn & _ & -> & _).
    destruct Hn as [-> | [t ->]]; [left; reflexivity|].
    right. eexists. split; [reflexivity | apply firstn_le_length].
  - intros args p kv' H. apply McpFacts.posted in H.
    destruct H as (_ & Hp & _).
    destruct (mcp_prediction_notes nts args now Hp) as [-> | [t ->]];
      [left; reflexivity|].
    right. eexists. split; [reflexivity | apply firstn_le_length].
Qed.

(** X23: the webhook accepts a submission of the new format that carries
    no slot: when [gas] and [diesel] are null, false, 0 or the empty text,
    and one of them is there, an authorized request is answered with 200
    and a prediction whose two slots are null is stored. *)
Theorem webhook_accepts_no_slot (nts : jsnum -> jstr)
    (req : Webhook.Request) (env : Env) (now : jstr) (kv : KV)
    (body n : jsval) :
  Webhook.hasParam "secret" (Webhook.searchParams req) = false ->
  Webhook.tokenRefused (Webhook.bearerToken req) env = false ->
  Webhook.json req = Some body -> isNullish body = false ->
  truthy (getProp body "gas") = false ->
  truthy (getProp body "diesel") = false ->
  getProp body "gas" <> VUndefined \/ getProp body "diesel" <> VUndefined ->
  notesField nts (propOr body "notes" VNull) = Some n ->
  let prediction :=
    VObj [(lit "gas", VNull); (lit "diesel", VNull); (lit "notes", n);
          (lit "source", S_ "webhook"); (lit "updated_at", VStr now);
          (lit "post_id", VNull)] in
  Webhook.handleWebhook nts req env now kv
  = (Webhook.Response 200 (Webhook.OkBody (toJSON prediction)),
     writePrediction prediction env kv).
Proof.
  intros Hs Ht Hj Hb Hg Hd Hdef Hn prediction.
  unfold Webhook.handleWebhook.
  rewrite (checks_authorized req env Hs Ht Hj).
  rewrite (checkBody_dual body Hb Hdef).
  unfold Webhook.checkDual, Webhook.validateFuelSlot, Webhook.slotOf.
  rewrite Hg, Hd. cbn [negb Webhook.rejectOpt bind].
  unfold Webhook.predictionOf. cbn [Webhook.notes Webhook.gas Webhook.diesel].
  rewrite Hn. cbn [orRaise bind Webhook.slotObj]. reflexivity.
Qed.

Lemma webhook_accepts_no_slot_witness :
  let body := VObj [(lit "gas", VNull)] in
  fst (Webhook.handleWebhook noNumberText (bearer "test-secret" body) testEnv
         someTime emptyKV)
  = Webhook.Response 200
      (Webhook.OkBody
         (VObj [(lit "gas", VNull); (lit "diesel", VNull); (lit "notes", VNull);
                (lit "source", S_ "webhook"); (lit "updated_at", VStr someTime);
                (lit "post_id", VNull)])).
Proof.
  cbv zeta.
  set (body := VObj [(lit "gas", VNull)]).
  set (req := bearer "test-secret" body).
  assert (Hs : Webhook.hasParam "secret" (Webhook.searchParams req) = false)
    by (vm_compute; reflexivity).
  assert (Ht : Webhook.tokenRefused (Webhook.bearerToken req) testEnv = false)
    by (vm_compute; reflexivity).
  assert (Hj : Webhook.json req = Some body) by reflexivity.
  assert (Hb : isNullish body = false) by reflexivity.
  assert (Hg : truthy (getProp body "gas") = false) by (vm_compute; reflexivity).
  assert (Hd : truthy (getProp body "diesel") = false)
    by (vm_compute; reflexivity).
  assert (Hdef : getProp body "gas" <> VUndefined
                 \/ getProp body "diesel" <> VUndefined)
    by (left; vm_compute; discriminate).
  assert (Hn : notesField noNumberText (propOr body "notes" VNull) = Some VNull)
    by (vm_compute; reflexivity).
  rewrite (@webhook_accepts_no_slot noNumberText req testEnv someTime emptyKV
             body VNull Hs Ht Hj Hb Hg Hd Hdef Hn).
  cbn [fst]. vm_compute. reflexivity.
Defined.
